(** * arequest: a shallow embedding of [src/arequest/client.py]

    The development follows the layout of the module: the Python primitives
    the client relies on (byte strings, slices, [int()], [range]), the
    [Response] value object, the per-host [_ConnectionPool], the fallback
    wire codec ([_SimpleHTTPParser], [_SimpleHTTPBuilder]) and [Session].

    Conventions.
    - [bytes] is [list byte]; [str] is [string], read as a sequence of code
      points below 256, so that [decode('latin-1')] and [encode('latin-1')]
      are the two directions of one bijection.
    - Python integers are [Z]; [len] returns a [Z].
    - A Python [dict] with string keys is an association list with unique
      keys in insertion order ([pydict]).
    - Exceptions are values of [exn]; a computation that can raise returns
      [exn + A], and one that also mutates objects threads the mutated
      objects explicitly. *)

From Stdlib Require Import ZArith List String Ascii Strings.Byte Lia Bool.
From Stdlib Require Import DecimalString.
From stdpp Require Import gmap strings list fin_maps.

Local Open Scope string_scope.
Local Open Scope list_scope.
Local Open Scope Z_scope.

(** ** Byte strings *)

Definition bytes := list byte.

(** A [bytes] literal: [B "GET"]. Carriage return and line feed are named. *)
Definition B (s : string) : bytes := list_byte_of_string s.
Definition CR : byte := x0d.
Definition LF : byte := x0a.
Definition CRLF : bytes := [CR; LF].
Definition CRLFCRLF : bytes := [CR; LF; CR; LF].

Definition py_len {A} (l : list A) : Z := Z.of_nat (length l).

(** Slice bound normalisation: a negative bound counts from the end, and
    every bound is clamped to [0, len]. *)
Definition norm_index (len i : Z) : Z :=
  if i <? 0 then Z.max 0 (i + len) else Z.min i len.

(** [l[start:stop]] *)
Definition py_slice {A} (l : list A) (start stop : Z) : list A :=
  let n := py_len l in
  let a := norm_index n start in
  let b := norm_index n stop in
  take (Z.to_nat (b - a)) (drop (Z.to_nat a) l).

(** [l[:stop]] and [l[start:]] *)
Definition py_slice_to {A} (l : list A) (stop : Z) : list A :=
  py_slice l 0 stop.
Definition py_slice_from {A} (l : list A) (start : Z) : list A :=
  py_slice l start (py_len l).

Definition byte_eqb (a b : byte) : bool := Byte.eqb a b.

Fixpoint starts_with (sub l : bytes) : bool :=
  match sub, l with
  | [], _ => true
  | _ :: _, [] => false
  | a :: sub', b :: l' => byte_eqb a b && starts_with sub' l'
  end.

Fixpoint find_from (sub l : bytes) (i : Z) : Z :=
  if starts_with sub l then i
  else match l with
       | [] => -1
       | _ :: t => find_from sub t (i + 1)
       end.

(** [l.find(sub)]: index of the first occurrence, or -1. *)
Definition bytes_find (sub l : bytes) : Z := find_from sub l 0.

(** [sub in l] *)
Definition bytes_in (sub l : bytes) : bool := 0 <=? bytes_find sub l.

(** [l.split(sep, maxsplit)] for a non-empty separator; [maxsplit = None]
    stands for no bound. [skip] counts the bytes of a separator that was
    just matched and is being stepped over; [cur] is the piece in
    construction, reversed. *)
Fixpoint split_aux (sep : bytes) (maxsplit : option nat) (l : bytes)
    (skip : nat) (cur : bytes) : list bytes :=
  match l with
  | [] => [rev cur]
  | c :: t =>
      match skip with
      | S k => split_aux sep maxsplit t k cur
      | O =>
          match maxsplit with
          | Some O => split_aux sep maxsplit t O (c :: cur)
          | _ =>
              if starts_with sep l
              then rev cur ::
                   split_aux sep (option_map Nat.pred maxsplit) t
                             (Nat.pred (length sep)) []
              else split_aux sep maxsplit t O (c :: cur)
          end
      end
  end.

Definition bytes_split (sep l : bytes) : list bytes :=
  split_aux sep None l O [].
Definition bytes_splitn (sep : bytes) (maxsplit : nat) (l : bytes) : list bytes :=
  split_aux sep (Some maxsplit) l O [].

(** ASCII whitespace, as [bytes.strip()] and [int(bytes)] see it. *)
Definition is_space (c : byte) : bool :=
  let n := Z.of_N (Byte.to_N c) in
  (n =? 32) || ((9 <=? n) && (n <=? 13)).

(** Whitespace of the latin-1 range as [int(str)] sees it: the ASCII
    whitespace, and the two code points above 127 that [str.isspace] accepts,
    which [int] turns into spaces. The separators 28 to 31 are below 127 and
    are left as they are, so that [int] rejects them. *)
Definition is_uspace (c : byte) : bool :=
  let n := Z.of_N (Byte.to_N c) in
  is_space c || (n =? 133) || (n =? 160).

Fixpoint lstrip (sp : byte -> bool) (l : bytes) : bytes :=
  match l with
  | c :: t => if sp c then lstrip sp t else l
  | [] => []
  end.

Definition strip_with (sp : byte -> bool) (l : bytes) : bytes :=
  rev (lstrip sp (rev (lstrip sp l))).

(** [l.strip()] *)
Definition bytes_strip (l : bytes) : bytes := strip_with is_space l.

Definition byte_of_Z (n : Z) : byte :=
  match Byte.of_N (Z.to_N n) with Some b => b | None => x00 end.

Definition byte_lower (c : byte) : byte :=
  let n := Z.of_N (Byte.to_N c) in
  if (65 <=? n) && (n <=? 90) then byte_of_Z (n + 32) else c.

(** [l.lower()] *)
Definition bytes_lower (l : bytes) : bytes := map byte_lower l.

Fixpoint bytes_eqb (a b : bytes) : bool :=
  match a, b with
  | [], [] => true
  | x :: a', y :: b' => byte_eqb x y && bytes_eqb a' b'
  | _, _ => false
  end.

(** [b.decode('latin-1')] and [s.encode('latin-1')] *)
Definition decode_latin1 (b : bytes) : string := string_of_list_byte b.
Definition encode_latin1 (s : string) : bytes := list_byte_of_string s.

(** [s.upper()]: the ASCII letters, and the sharp s (code point 223), which
    becomes [SS]. The other letters above 127 have upper-case forms above
    127 too, which no ASCII encoding accepts; they are left as they are. *)
Definition byte_upper (c : byte) : bytes :=
  let n := Z.of_N (Byte.to_N c) in
  if (97 <=? n) && (n <=? 122) then [byte_of_Z (n - 32)]
  else if n =? 223 then [byte_of_Z 83; byte_of_Z 83]
  else [c].
Definition str_upper (s : string) : string :=
  string_of_list_byte (flat_map byte_upper (list_byte_of_string s)).

(** [s.startswith(p)] *)
Definition str_startswith (p s : string) : bool :=
  starts_with (list_byte_of_string p) (list_byte_of_string s).

(** ** [int()] *)

Definition byte_code (c : byte) : Z := Z.of_N (Byte.to_N c).

(** Value of a digit in a base up to 36. *)
Definition digit_val (base : Z) (c : byte) : option Z :=
  let n := byte_code c in
  let d := if (48 <=? n) && (n <=? 57) then n - 48
           else if (97 <=? n) && (n <=? 122) then n - 87
           else if (65 <=? n) && (n <=? 90) then n - 55
           else 36 in
  if d <? base then Some d else None.

(** Digits with single underscores between them; [prev] tells whether the
    previous character was a digit. *)
Fixpoint int_digits (base : Z) (l : bytes) (acc : Z) (prev : bool) : option Z :=
  match l with
  | [] => if prev then Some acc else None
  | c :: t =>
      if byte_code c =? 95
      then (if prev then int_digits base t acc false else None)
      else match digit_val base c with
           | Some d => int_digits base t (acc * base + d) true
           | None => None
           end
  end.

(** [sys.get_int_max_str_digits()] as the interpreter starts with it. *)
Definition int_max_str_digits : Z := 4300.

(** The digits of a literal, the underscores between them left out. *)
Definition digit_count (l : bytes) : Z :=
  py_len (List.filter (fun c => negb (byte_code c =? 95)) l).

(** [int(l, base)] for base 10 or 16: surrounding whitespace, one optional
    sign, for base 16 an optional [0x] prefix (after which one underscore
    may come), then the digits. In base 10 a literal of more than
    [int_max_str_digits] digits is refused; base 16, a power of two, has no
    such limit. [None] stands for [ValueError]. *)
Definition py_int (sp : byte -> bool) (base : Z) (l : bytes) : option Z :=
  let s := strip_with sp l in
  let '(neg, s1) :=
    match s with
    | c :: t => if byte_code c =? 45 then (true, t)
                else if byte_code c =? 43 then (false, t)
                else (false, s)
    | [] => (false, s)
    end in
  let s2 :=
    match s1 with
    | z :: x :: t =>
        if (base =? 16) && (byte_code z =? 48)
           && ((byte_code x =? 120) || (byte_code x =? 88))
        then match t with
             | u :: t' => if byte_code u =? 95 then t' else t
             | [] => t
             end
        else s1
    | _ => s1
    end in
  if (base =? 10) && (int_max_str_digits <? digit_count s2) then None
  else
    match int_digits base s2 0 false with
    | Some v => Some (if neg then - v else v)
    | None => None
    end.

(** [s.encode('ascii')] *)
Definition encode_ascii (s : string) : option bytes :=
  let b := list_byte_of_string s in
  if forallb (fun c => byte_code c <? 128) b then Some b else None.

(** ** Exceptions *)

(** The exception classes the module raises or lets through. [TimeoutError]
    is the class defined in the module (it shadows the builtin there);
    [AsyncioTimeoutError] is [asyncio.TimeoutError]; [LimitOverrunError] is
    the one of [asyncio], with its [consumed] attribute; [CancelledError]
    is what a cancelled task sees at the [await] where it waits. *)
Inductive exn : Type :=
  | RuntimeError (msg : string)
  | TimeoutError (msg : string)
  | AsyncioTimeoutError
  | ValueError (msg : string)
  | IndexError (msg : string)
  | IncompleteReadError (partial : bytes)
  | UnicodeEncodeError
  | OSError (msg : string)
  | ClientError (msg : string) (status_code : Z)
  | ServerError (msg : string) (status_code : Z)
  | LimitOverrunError (msg : string) (consumed : Z)
  | CancelledError.


(** [isinstance(e, Exception)]: what an [except Exception] clause catches.
    [CancelledError] derives from [BaseException] alone. *)
Definition is_exception (e : exn) : bool :=
  match e with
  | CancelledError => false
  | _ => true
  end.

Definition result (A : Type) : Type := exn + A.
Abbreviation Ok := (@inr exn _).
Abbreviation Raise := (@inl exn _).

Definition rbind {A B} (m : result A) (f : A -> result B) : result B :=
  match m with
  | inl e => inl e
  | inr a => f a
  end.

Notation "'let!' x ':=' m 'in' k" := (rbind m (fun x => k))
  (at level 10, x pattern, m at level 100, k at level 200).

(** ** [range] *)

(** [list(range(start, stop, step))]; a zero step raises [ValueError]. *)
Definition py_range (start stop step : Z) : result (list Z) :=
  if step =? 0 then Raise (ValueError "range() arg 3 must not be zero")
  else
    let count :=
      if 0 <? step then (stop - start + step - 1) / step
      else (start - stop - step - 1) / (- step) in
    Ok (map (fun j => start + Z.of_nat j * step) (seq 0 (Z.to_nat count))).

(** ** Python dictionaries with string keys *)

Definition pydict (V : Type) : Type := list (string * V).

Fixpoint dict_get {V} (d : pydict V) (k : string) : option V :=
  match d with
  | [] => None
  | (k', v) :: d' => if String.eqb k' k then Some v else dict_get d' k
  end.

(** [k in d] *)
Definition dict_mem {V} (d : pydict V) (k : string) : bool :=
  match dict_get d k with Some _ => true | None => false end.

(** [d[k] = v]: an existing key keeps its position, a new key goes last. *)
Fixpoint dict_set {V} (d : pydict V) (k : string) (v : V) : pydict V :=
  match d with
  | [] => [(k, v)]
  | (k', v') :: d' =>
      if String.eqb k' k then (k', v) :: d' else (k', v') :: dict_set d' k v
  end.

(** [{**a, **b}] *)
Definition dict_merge {V} (a b : pydict V) : pydict V :=
  fold_left (fun d kv => dict_set d (fst kv) (snd kv)) b a.

(** [d.get(k, default)] *)
Definition dict_get_default {V} (d : pydict V) (k : string) (dflt : V) : V :=
  match dict_get d k with Some v => v | None => dflt end.

(** ** Response *)

(** [str(n)] for an integer. *)
Definition Z_to_str (n : Z) : string :=
  DecimalString.NilEmpty.string_of_int (Z.to_int n).

Definition Z_in (x : Z) (l : list Z) : bool := existsb (Z.eqb x) l.

Module Response.

(** The attributes that [__init__] sets to a constant and nothing updates
    ([history], [cookies], [links], [request_info]) and the memoised
    decodings are left out. *)
Record t : Type := mk {
  status_code : Z;
  headers : pydict string;
  url : string;
  _body : bytes;
  reason : string;
  elapsed : Z;
  ok : bool;
  is_redirect : bool;
  is_permanent_redirect : bool
}.

(** [__init__] *)
Definition init (status_code : Z) (headers : pydict string)
    (body : bytes) (url reason : string) (elapsed : Z) : t :=
  {| status_code := status_code;
     headers := headers;
     url := url;
     _body := body;
     reason := reason;
     elapsed := elapsed;
     ok := status_code <? 400;
     is_redirect := Z_in status_code [301; 302; 303; 307; 308];
     is_permanent_redirect := Z_in status_code [301; 308] |}.

(** [content] *)
Definition content (r : t) : bytes := _body r.

(** [iter_content]: the slices the generator yields, in order. *)
Definition iter_content (r : t) (chunk_size : Z) : result (list bytes) :=
  let! idxs := py_range 0 (py_len (_body r)) chunk_size in
  Ok (map (fun i => py_slice (_body r) i (i + chunk_size)) idxs).

(** [raise_for_status] *)
Definition raise_for_status (r : t) : result unit :=
  if (400 <=? status_code r) && (status_code r <? 500) then
    Raise (ClientError
             (Z_to_str (status_code r) ++ " Client Error: " ++ reason r
                ++ " for url: " ++ url r)
             (status_code r))
  else if 500 <=? status_code r then
    Raise (ServerError
             (Z_to_str (status_code r) ++ " Server Error: " ++ reason r
                ++ " for url: " ++ url r)
             (status_code r))
  else Ok tt.

(** [iter_lines]: the lines the generator yields, in order. [split] refuses
    an empty separator. *)
Definition iter_lines (r : t) (delimiter : bytes) : result (list bytes) :=
  match delimiter with
  | [] => Raise (ValueError "empty separator")
  | _ :: _ =>
      Ok (List.filter (fun line => match line with [] => false | _ => true end)
            (bytes_split delimiter (_body r)))
  end.

End Response.

(** ** The environment of the client

    Stream readers and writers are Python objects with identity and mutable
    state. A connection is a number; the reader and the writer of one
    connection carry that number. Their state lives in [World]: which
    transports are closing, what the peer has fed into each reader, and what
    was written to each writer. *)

Definition reader := nat.
Definition writer := nat.
Definition time := Z.

(** [ssl.SSLContext], as far as the client configures it. *)
Inductive VerifyMode : Type := CERT_NONE | CERT_REQUIRED.
Record SSLContext : Type := mkSSLContext {
  check_hostname : bool;
  verify_mode : VerifyMode
}.

Record World : Type := mkWorld {
  clock : time;
  closing : gset writer;
  next_conn : nat;
  peer : gmap nat (string * Z * option SSLContext);
  inbox : gmap reader bytes;
  wire : list (writer * bytes)
}.

(** The codec classes of a session. [request] creates a parser, has it parse
    the reader, and reads five attributes off it; of a builder it calls
    [build]. A parser class is given by what [parse] does to the pending
    bytes of the reader: those attributes, or the exception, and the bytes
    left. *)
Record ParsedResponse : Type := mkParsed {
  parsed_status_code : Z;
  parsed_reason : string;
  parsed_headers : pydict string;
  parsed_body : bytes;
  parsed_keep_alive : bool
}.
Definition ParserClass : Type := bytes -> result ParsedResponse * bytes.
Definition BuilderClass : Type :=
  string -> string -> pydict string -> option bytes -> result bytes.

(** The two [await]s of [request] at which the task holds a connection:
    [await writer.drain()] and [await parser.parse(reader)]. *)
Inductive AwaitPoint : Type := AtDrain | AtParse.

(** What the module takes from outside: name resolution and the time it
    takes, the outcome and duration of a connection attempt, the bytes a
    peer feeds back for the bytes it was sent, what the event loop raises
    in the task while it waits at one of the [await]s above (a connection
    error, or [CancelledError] when the task is cancelled there; [None]
    when it is left alone), the helpers of [urllib.parse] and [json], and
    the classes [FastHTTPParser] and [FastHTTPRequestBuilder] of the
    package's [parser] module when that module can be imported ([None]
    stands for the [ImportError] branch).

    [getaddrinfo] and [open_connection] give the outcome of a call that is
    left to finish; a connection attempt that fails raises an [Exception],
    which is what the candidate loop of [_create_connection] catches. *)
Record ParseResult : Type := mkParseResult {
  scheme : string;
  hostname : option string;
  pr_port : option Z;
  pr_path : string;
  query : string
}.

Class Platform (Json : Type) : Type := {
  getaddrinfo : string -> Z -> result (list string);
  resolve_latency : string -> Z -> time;
  open_connection : string -> Z -> option SSLContext -> option string -> result unit;
  open_connection_exception :
    forall addr port ctx server_hostname e,
      open_connection addr port ctx server_hostname = Raise e ->
      is_exception e = true;
  connect_latency : string -> Z -> time;
  serve : string -> Z -> bytes -> bytes;
  interrupt : AwaitPoint -> World -> option exn;
  urlparse : string -> ParseResult;
  urlencode : pydict string -> string;
  json_dumps : Json -> bytes;
  fast_parser : option (ParserClass * BuilderClass)
}.

(** [time.monotonic()], [writer.is_closing()], [writer.close()] *)
Definition monotonic (w : World) : time := clock w.
Definition is_closing (wr : writer) (w : World) : bool :=
  bool_decide (wr ∈ closing w).
Definition set_closing (cl : gset writer) (w : World) : World :=
  {| clock := clock w; closing := cl; next_conn := next_conn w;
     peer := peer w; inbox := inbox w; wire := wire w |}.
Definition writer_close (wr : writer) (w : World) : World :=
  set_closing ({[wr]} ∪ closing w) w.

(** [if not writer.is_closing(): writer.close()] *)
Definition close_if_open (wr : writer) (w : World) : World :=
  if negb (is_closing wr w) then writer_close wr w else w.

(** Truth value of an optional number: [None] and [0] are false. *)
Definition truthy (t : option Z) : bool :=
  match t with Some x => negb (x =? 0) | None => false end.

(** ** [_ConnectionPool] *)

Module _ConnectionPool.

Record t : Type := mk {
  host : string;
  port : Z;
  ssl_context : option SSLContext;
  max_size : Z;
  max_idle_time : time;
  _available : list (reader * writer * time);
  _in_use : gset writer;
  _closed : bool;
  _dns_cache : option (list string);
  _dns_expire : time;
  _creating : Z
}.

(** [__init__] *)
Definition init (host : string) (port : Z) (ssl_context : option SSLContext)
    (max_size : Z) (max_idle_time : time) : t :=
  {| host := host; port := port; ssl_context := ssl_context;
     max_size := max_size; max_idle_time := max_idle_time;
     _available := []; _in_use := ∅; _closed := false;
     _dns_cache := None; _dns_expire := 0; _creating := 0 |}.

Definition set_available (v : list (reader * writer * time)) (p : t) : t :=
  {| host := host p; port := port p; ssl_context := ssl_context p;
     max_size := max_size p; max_idle_time := max_idle_time p;
     _available := v; _in_use := _in_use p; _closed := _closed p;
     _dns_cache := _dns_cache p; _dns_expire := _dns_expire p;
     _creating := _creating p |}.

Definition set_in_use (v : gset writer) (p : t) : t :=
  {| host := host p; port := port p; ssl_context := ssl_context p;
     max_size := max_size p; max_idle_time := max_idle_time p;
     _available := _available p; _in_use := v; _closed := _closed p;
     _dns_cache := _dns_cache p; _dns_expire := _dns_expire p;
     _creating := _creating p |}.

Definition set_closed (v : bool) (p : t) : t :=
  {| host := host p; port := port p; ssl_context := ssl_context p;
     max_size := max_size p; max_idle_time := max_idle_time p;
     _available := _available p; _in_use := _in_use p; _closed := v;
     _dns_cache := _dns_cache p; _dns_expire := _dns_expire p;
     _creating := _creating p |}.

Definition set_dns (c : option (list string)) (e : time) (p : t) : t :=
  {| host := host p; port := port p; ssl_context := ssl_context p;
     max_size := max_size p; max_idle_time := max_idle_time p;
     _available := _available p; _in_use := _in_use p; _closed := _closed p;
     _dns_cache := c; _dns_expire := e; _creating := _creating p |}.

Definition set_creating (v : Z) (p : t) : t :=
  {| host := host p; port := port p; ssl_context := ssl_context p;
     max_size := max_size p; max_idle_time := max_idle_time p;
     _available := _available p; _in_use := _in_use p; _closed := _closed p;
     _dns_cache := _dns_cache p; _dns_expire := _dns_expire p;
     _creating := v |}.

(** [_resolve_dns]: a non-empty, unexpired cache entry is returned as it
    is; otherwise the name is resolved and cached for 60 time units. *)
Definition _resolve_dns {Json} `{Platform Json} (self : t) (w : World)
    : result (list string) * t :=
  let now := monotonic w in
  match _dns_cache self with
  | Some (a :: infos) =>
      if now <? _dns_expire self then (Ok (a :: infos), self)
      else match getaddrinfo (host self) (port self) with
           | inl e => (Raise e, self)
           | inr infos' => (Ok infos', set_dns (Some infos') (now + 60) self)
           end
  | _ =>
      match getaddrinfo (host self) (port self) with
      | inl e => (Raise e, self)
      | inr infos' => (Ok infos', set_dns (Some infos') (now + 60) self)
      end
  end.

(** The candidate loop of [_create_connection]: the first address that
    connects wins; otherwise the last exception is kept. *)
Fixpoint try_addresses {Json} `{Platform Json} (self : t) (infos : list string)
    (last_exc : option exn) : exn + unit :=
  match infos with
  | [] =>
      match last_exc with
      | Some e => Raise e
      | None => Raise (RuntimeError ("Could not connect to " ++ host self
                                       ++ ":" ++ Z_to_str (port self)))
      end
  | addr :: rest =>
      match open_connection addr (port self) (ssl_context self)
              (match ssl_context self with
               | Some _ => Some (host self) | None => None end) with
      | inr tt => Ok tt
      | inl e => try_addresses self rest (Some e)
      end
  end.

(** [_create_connection]: a successful attempt allocates a fresh stream
    pair bound to this pool's host, port and TLS context. *)
Definition _create_connection {Json} `{Platform Json} (self : t) (w : World)
    : result (reader * writer) * t * World :=
  match _resolve_dns self w with
  | (inl e, self') => (Raise e, self', w)
  | (inr infos, self') =>
      match try_addresses self' infos None with
      | inl e => (Raise e, self', w)
      | inr tt =>
          let c := next_conn w in
          (Ok (c, c), self',
           {| clock := clock w; closing := closing w; next_conn := S c;
              peer := <[c := (host self', port self', ssl_context self')]> (peer w);
              inbox := <[c := []]> (inbox w); wire := wire w |})
      end
  end.

(** Whether [_resolve_dns] answers from the cache, without waiting. *)
Definition dns_fresh (self : t) (w : World) : bool :=
  match _dns_cache self with
  | Some (_ :: _) => monotonic w <? _dns_expire self
  | _ => false
  end.

(** [asyncio.wait_for(self._create_connection(), timeout)]: the call is
    cancelled where it waits when the time is up. A limit that is not
    positive leaves it no time at all. Within [_create_connection] the name
    is resolved first, and the result is in the cache by the time the
    connection attempts start: a call cancelled while it resolves leaves
    the pool as it is, a call cancelled while it connects leaves the cache
    filled. The loop over an empty list of addresses has nothing to wait
    for. *)
Definition wait_for_create {Json} `{Platform Json} (self : t) (timeout : Z)
    (w : World) : result (reader * writer) * t * World :=
  let resolve_time :=
    if dns_fresh self w then 0 else resolve_latency (host self) (port self) in
  if (timeout <=? 0) || (timeout <? resolve_time)
  then (Raise AsyncioTimeoutError, self, w)
  else
    match _resolve_dns self w with
    | (inl e, self') => (Raise e, self', w)
    | (inr infos, self') =>
        let connect_time :=
          match infos with
          | [] => 0
          | _ :: _ => connect_latency (host self) (port self)
          end in
        if timeout <? resolve_time + connect_time
        then (Raise AsyncioTimeoutError, self', w)
        else _create_connection self w
    end.

(** The [while self._available] loop of [acquire]: entries are popped from
    the head; the first one that is open and young enough is returned, the
    others are closed. *)
Fixpoint scan_available (max_idle now : time)
    (avail : list (reader * writer * time)) (w : World)
    : option (reader * writer) * list (reader * writer * time) * World :=
  match avail with
  | [] => (None, [], w)
  | (rd, wr, created) :: rest =>
      if negb (is_closing wr w) && (now - created <=? max_idle)
      then (Some (rd, wr), rest, w)
      else scan_available max_idle now rest (close_if_open wr w)
  end.

(** [acquire] *)
Definition acquire {Json} `{Platform Json} (self : t) (timeout : option Z)
    (w : World) : result (reader * writer) * t * World :=
  if _closed self then (Raise (RuntimeError "Pool is closed"), self, w)
  else
    let now := monotonic w in
    match scan_available (max_idle_time self) now (_available self) w with
    | (Some (rd, wr), rest, w1) =>
        (Ok (rd, wr),
         set_in_use ({[wr]} ∪ _in_use self) (set_available rest self), w1)
    | (None, rest, w1) =>
        let self1 := set_creating (_creating self + 1) (set_available rest self) in
        let '(res, self2, w2) :=
          if truthy timeout
          then wait_for_create self1 (default 0 timeout) w1
          else _create_connection self1 w1 in
        let self3 := set_creating (_creating self2 - 1) self2 in
        match res with
        | inr (rd, wr) =>
            (Ok (rd, wr), set_in_use ({[wr]} ∪ _in_use self3) self3, w2)
        | inl AsyncioTimeoutError =>
            (Raise (TimeoutError ("Connection timeout to " ++ host self
                                    ++ ":" ++ Z_to_str (port self))),
             self3, w2)
        | inl e => (Raise e, self3, w2)
        end
    end.

(** [release] *)
Definition release (self : t) (rd : reader) (wr : writer) (keep_alive : bool)
    (w : World) : t * World :=
  let self1 :=
    if bool_decide (wr ∈ _in_use self)
    then set_in_use (_in_use self ∖ {[wr]}) self else self in
  if _closed self1 || negb keep_alive || is_closing wr w
  then (self1, close_if_open wr w)
  else
    if py_len (_available self1) <? max_size self1
    then (set_available ((rd, wr, monotonic w) :: _available self1) self1, w)
    else (self1, writer_close wr w).

(** [close] *)
Definition close (self : t) (w : World) : t * World :=
  let self1 := set_closed true self in
  let w1 := fold_left (fun w c => close_if_open (snd (fst c)) w)
                      (_available self1) w in
  let self2 := set_available [] self1 in
  let w2 := fold_left (fun w wr => close_if_open wr w)
                      (elements (_in_use self2)) w1 in
  (set_in_use ∅ self2, w2).

End _ConnectionPool.

(** ** Stream readers

    The state of a [StreamReader] is the sequence of bytes the peer has fed
    and that are not read yet, followed by end of file. Each operation
    returns what the call returns or raises, and what is left in the
    reader. *)

(** The limit of the readers of [asyncio.open_connection], which
    [_create_connection] calls without a [limit]. *)
Definition _DEFAULT_LIMIT : Z := 65536.

(** [await reader.readuntil(sep)]: a separator that is found further than
    the limit, or more bytes than the limit without a separator, raise
    [LimitOverrunError] and leave the reader as it is; end of file without
    a separator raises [IncompleteReadError] and empties the reader. *)
Definition readuntil (sep buf : bytes) : result bytes * bytes :=
  let i := bytes_find sep buf in
  if i <? 0 then
    let offset := py_len buf + 1 - py_len sep in
    if (py_len sep <=? py_len buf) && (_DEFAULT_LIMIT <? offset)
    then (Raise (LimitOverrunError
                   "Separator is not found, and chunk exceed the limit" offset),
          buf)
    else (Raise (IncompleteReadError buf), [])
  else if _DEFAULT_LIMIT <? i
  then (Raise (LimitOverrunError
                 "Separator is found, but chunk is longer than limit" i),
        buf)
  else (Ok (py_slice_to buf (i + py_len sep)),
        py_slice_from buf (i + py_len sep)).

(** [await reader.readline()]: at end of file the partial line is returned;
    a line longer than the limit raises [ValueError], and the line, or the
    whole content when no newline is in sight, is dropped from the reader. *)
Definition readline (buf : bytes) : result bytes * bytes :=
  match readuntil [LF] buf with
  | (inr line, rest) => (Ok line, rest)
  | (inl (IncompleteReadError partial), rest) => (Ok partial, rest)
  | (inl (LimitOverrunError msg consumed), rest) =>
      (Raise (ValueError msg),
       if starts_with [LF] (py_slice_from rest consumed)
       then py_slice_from rest (consumed + 1)
       else [])
  | (inl e, rest) => (Raise e, rest)
  end.

(** [await reader.readexactly(n)] *)
Definition readexactly (n : Z) (buf : bytes) : result bytes * bytes :=
  if n <? 0
  then (Raise (ValueError "readexactly size can not be less than zero"), buf)
  else if n =? 0 then (Ok [], buf)
  else if py_len buf <? n then (Raise (IncompleteReadError buf), [])
  else (Ok (take (Z.to_nat n) buf), drop (Z.to_nat n) buf).

(** ** [_SimpleHTTPParser] *)

Module _SimpleHTTPParser.

Record t : Type := mk {
  status_code : Z;
  reason : string;
  headers : pydict string;
  body : bytes;
  keep_alive : bool;
  _content_length : option Z;
  _chunked : bool
}.

(** [__init__] *)
Definition init : t :=
  {| status_code := 0; reason := ""; headers := []; body := [];
     keep_alive := true; _content_length := None; _chunked := false |}.

Definition set_header (k v : string) (p : t) : t :=
  {| status_code := status_code p; reason := reason p;
     headers := dict_set (headers p) k v; body := body p;
     keep_alive := keep_alive p; _content_length := _content_length p;
     _chunked := _chunked p |}.

Definition set_content_length (n : Z) (p : t) : t :=
  {| status_code := status_code p; reason := reason p;
     headers := headers p; body := body p;
     keep_alive := keep_alive p; _content_length := Some n;
     _chunked := _chunked p |}.

Definition set_chunked (p : t) : t :=
  {| status_code := status_code p; reason := reason p;
     headers := headers p; body := body p;
     keep_alive := keep_alive p; _content_length := _content_length p;
     _chunked := true |}.

Definition set_no_keep_alive (p : t) : t :=
  {| status_code := status_code p; reason := reason p;
     headers := headers p; body := body p;
     keep_alive := false; _content_length := _content_length p;
     _chunked := _chunked p |}.

Definition set_body (b : bytes) (p : t) : t :=
  {| status_code := status_code p; reason := reason p;
     headers := headers p; body := b;
     keep_alive := keep_alive p; _content_length := _content_length p;
     _chunked := _chunked p |}.

Definition invalid_literal : exn := ValueError "invalid literal for int()".

(** One iteration of the header loop, for a non-empty line. *)
Definition header_line (line : bytes) (p : t) : result t :=
  let colon := bytes_find (B ":") line in
  if 0 <? colon then
    let key := decode_latin1 (py_slice_to line colon) in
    let value := decode_latin1 (bytes_strip (py_slice_from line (colon + 1))) in
    let p1 := set_header key value p in
    let kl_bytes := bytes_lower (py_slice_to line colon) in
    if bytes_eqb kl_bytes (B "content-length") then
      match py_int is_uspace 10 (encode_latin1 value) with
      | Some n => Ok (set_content_length n p1)
      | None => Raise invalid_literal
      end
    else if bytes_eqb kl_bytes (B "transfer-encoding") then
      if bytes_in (B "chunked") (bytes_lower (py_slice_from line (colon + 1)))
      then Ok (set_chunked p1) else Ok p1
    else if bytes_eqb kl_bytes (B "connection") then
      if bytes_in (B "close") (bytes_lower (py_slice_from line (colon + 1)))
      then Ok (set_no_keep_alive p1) else Ok p1
    else Ok p1
  else Ok p.

(** The header loop: it stops at the first empty line. *)
Fixpoint header_lines (lines : list bytes) (p : t) : result t :=
  match lines with
  | [] => Ok p
  | [] :: _ => Ok p
  | line :: rest =>
      let! p1 := header_line line p in header_lines rest p1
  end.

(** [b''.join(chunks) if len(chunks) > 1 else (chunks[0] if chunks else b'')] *)
Definition join_chunks (chunks : list bytes) : bytes :=
  if 1 <? py_len chunks then concat chunks
  else match chunks with c :: _ => c | [] => [] end.

(** The loop of [_read_chunked]. Every iteration that goes on reads a
    non-empty size line, so the loop ends within [length buf + 1]
    iterations; [None] marks exhausted fuel. *)
Fixpoint read_chunked_loop (fuel : nat) (buf : bytes) (chunks : list bytes)
    : option (result bytes * bytes) :=
  match fuel with
  | O => None
  | S fuel' =>
      match readline buf with
      | (inl e, buf1) => Some (Raise e, buf1)
      | (inr size_line, buf1) =>
          match py_int is_space 16
                  (hd [] (bytes_split (B ";") (bytes_strip size_line))) with
          | None => Some (Raise invalid_literal, buf1)
          | Some size =>
              if size =? 0 then
                match readline buf1 with
                | (inl e, buf2) => Some (Raise e, buf2)
                | (inr _, buf2) => Some (Ok (join_chunks chunks), buf2)
                end
              else
                match readexactly size buf1 with
                | (inl e, buf2) => Some (Raise e, buf2)
                | (inr chunk, buf2) =>
                    match readexactly 2 buf2 with
                    | (inl e, buf3) => Some (Raise e, buf3)
                    | (inr _, buf3) =>
                        read_chunked_loop fuel' buf3 (chunks ++ [chunk])
                    end
                end
          end
      end
  end.

(** [_read_chunked]: the body, or the exception, and the rest of the
    stream. *)
Definition _read_chunked (buf : bytes) : result bytes * bytes :=
  match read_chunked_loop (S (length buf)) buf [] with
  | Some r => r
  | None => (Raise (RuntimeError "unreachable"), buf)
  end.

(** The pieces of the header block that [parse] works on: the tokens of the
    status line, and the lines after it. *)
Definition status_parts (header_bytes : bytes) : list bytes :=
  let status_end := bytes_find CRLF header_bytes in
  bytes_splitn (B " ") 2 (py_slice_to header_bytes status_end).

Definition header_block_lines (header_bytes : bytes) : list bytes :=
  let status_end := bytes_find CRLF header_bytes in
  bytes_split CRLF (py_slice header_bytes (status_end + 2) (-4)).

(** The first part of [parse], up to the end of the header loop: the parser
    as it stands when the body is about to be read, or the exception, and
    the rest of the stream. *)
Definition parse_head (buf : bytes) : result t * bytes :=
  match readuntil CRLFCRLF buf with
  | (inl e, rest) => (Raise e, rest)
  | (inr header_bytes, rest) =>
      let parts := status_parts header_bytes in
      match parts !! 1%nat with
      | None => (Raise (IndexError "list index out of range"), rest)
      | Some code =>
          match py_int is_space 10 code with
          | None => (Raise invalid_literal, rest)
          | Some status =>
              let p0 :=
                {| status_code := status;
                   reason := match parts !! 2%nat with
                             | Some r => decode_latin1 r
                             | None => ""
                             end;
                   headers := []; body := []; keep_alive := true;
                   _content_length := None; _chunked := false |} in
              (header_lines (header_block_lines header_bytes) p0, rest)
          end
      end
  end.

(** The last part of [parse]: chunked framing if [_chunked] is set, else
    [_content_length] bytes if that is set and not zero, else no body. *)
Definition parse_body (p1 : t) (rest : bytes) : result t * bytes :=
  if _chunked p1 then
    match _read_chunked rest with
    | (inl e, rest') => (Raise e, rest')
    | (inr b, rest') => (Ok (set_body b p1), rest')
    end
  else if truthy (_content_length p1) then
    match readexactly (default 0 (_content_length p1)) rest with
    | (inl e, rest') => (Raise e, rest')
    | (inr b, rest') => (Ok (set_body b p1), rest')
    end
  else (Ok p1, rest).

(** [parse]: the parser after a successful parse, or the exception, and
    the rest of the stream. *)
Definition parse (buf : bytes) : result t * bytes :=
  match parse_head buf with
  | (inl e, rest) => (Raise e, rest)
  | (inr p1, rest) => parse_body p1 rest
  end.

(** The class as a session holds it. *)
Definition class : ParserClass := fun buf =>
  match parse buf with
  | (inl e, rest) => (Raise e, rest)
  | (inr p, rest) =>
      (Ok {| parsed_status_code := status_code p;
             parsed_reason := reason p;
             parsed_headers := headers p;
             parsed_body := body p;
             parsed_keep_alive := keep_alive p |}, rest)
  end.

End _SimpleHTTPParser.

(** ** [_SimpleHTTPBuilder] *)

Module _SimpleHTTPBuilder.

Definition _HTTP11 : bytes := B " HTTP/1.1" ++ CRLF.
Definition _COLON_SPACE : bytes := B ": ".

(** The header loop of [build]. *)
Fixpoint header_parts (headers : pydict string) : result bytes :=
  match headers with
  | [] => Ok []
  | (k, v) :: rest =>
      match encode_ascii k with
      | None => Raise UnicodeEncodeError
      | Some kb =>
          let! tail := header_parts rest in
          Ok (kb ++ _COLON_SPACE ++ encode_latin1 v ++ CRLF ++ tail)
      end
  end.

(** [build] *)
Definition build (method path : string) (headers : pydict string)
    (body : option bytes) : result bytes :=
  match encode_ascii method, encode_ascii path with
  | Some m, Some p =>
      let! hs := header_parts headers in
      Ok (m ++ B " " ++ p ++ _HTTP11 ++ hs ++ CRLF ++
          match body with
          | Some (c :: b) => c :: b
          | _ => []
          end)
  | _, _ => Raise UnicodeEncodeError
  end.

(** The class as a session holds it. *)
Definition class : BuilderClass := build.

End _SimpleHTTPBuilder.

(** ** [Session] *)

(** A request body as the caller passes it in [data]. *)
Inductive Data : Type :=
  | DataBytes (b : bytes)
  | DataStr (s : string)
  | DataDict (d : pydict string).

(** An authentication object; [apply], when the object has one, mutates
    the header dictionary it is handed. *)
Record AuthBase : Type := mkAuth {
  apply : option (pydict string -> pydict string)
}.

(** [s.encode('utf-8')] for code points below 256. *)
Definition encode_utf8 (s : string) : bytes :=
  flat_map (fun c =>
              let n := byte_code c in
              if n <? 128 then [c]
              else [byte_of_Z (192 + n / 64); byte_of_Z (128 + n mod 64)])
           (list_byte_of_string s).

(** Truth value of an optional dictionary: [None] and [{}] are false. *)
Definition nonempty_dict {V} (d : option (pydict V)) : bool :=
  match d with Some (_ :: _) => true | _ => false end.

Definition str_nonempty (s : string) : bool :=
  match s with EmptyString => false | _ => true end.

Module Session.

Record t : Type := mk {
  _pools : gmap (string * Z * bool) _ConnectionPool.t;
  _default_headers : pydict string;
  _default_timeout : option Z;
  _ssl_contexts : gmap bool SSLContext;
  _closed : bool;
  _connector_limit : Z;
  _connector_limit_per_host : Z;
  _parser_class : ParserClass;
  _builder_class : BuilderClass;
  auth : option AuthBase;
  verify : bool
}.

(** [__init__] *)
Definition init {Json} `{Platform Json} (headers : option (pydict string))
    (timeout : option Z) (connector_limit connector_limit_per_host : Z)
    (auth : option AuthBase) (verify : bool) : t :=
  {| _pools := ∅;
     _default_headers := if nonempty_dict headers then default [] headers else [];
     _default_timeout := timeout;
     _ssl_contexts := ∅;
     _closed := false;
     _connector_limit := connector_limit;
     _connector_limit_per_host := connector_limit_per_host;
     _parser_class := match fast_parser with
                      | Some (p, _) => p
                      | None => _SimpleHTTPParser.class
                      end;
     _builder_class := match fast_parser with
                       | Some (_, b) => b
                       | None => _SimpleHTTPBuilder.class
                       end;
     auth := auth;
     verify := verify |}.

Definition set_pools (v : gmap (string * Z * bool) _ConnectionPool.t) (s : t) : t :=
  {| _pools := v; _default_headers := _default_headers s;
     _default_timeout := _default_timeout s;
     _ssl_contexts := _ssl_contexts s; _closed := _closed s;
     _connector_limit := _connector_limit s;
     _connector_limit_per_host := _connector_limit_per_host s;
     _parser_class := _parser_class s; _builder_class := _builder_class s;
     auth := auth s; verify := verify s |}.

Definition set_ssl_contexts (v : gmap bool SSLContext) (s : t) : t :=
  {| _pools := _pools s; _default_headers := _default_headers s;
     _default_timeout := _default_timeout s;
     _ssl_contexts := v; _closed := _closed s;
     _connector_limit := _connector_limit s;
     _connector_limit_per_host := _connector_limit_per_host s;
     _parser_class := _parser_class s; _builder_class := _builder_class s;
     auth := auth s; verify := verify s |}.

Definition set_closed (v : bool) (s : t) : t :=
  {| _pools := _pools s; _default_headers := _default_headers s;
     _default_timeout := _default_timeout s;
     _ssl_contexts := _ssl_contexts s; _closed := v;
     _connector_limit := _connector_limit s;
     _connector_limit_per_host := _connector_limit_per_host s;
     _parser_class := _parser_class s; _builder_class := _builder_class s;
     auth := auth s; verify := verify s |}.

(** The two contexts [_get_ssl_context] builds. *)
Definition new_ssl_context (verify : bool) : SSLContext :=
  if verify
  then {| check_hostname := true; verify_mode := CERT_REQUIRED |}
  else {| check_hostname := false; verify_mode := CERT_NONE |}.

(** [_get_ssl_context] *)
Definition _get_ssl_context (self : t) (verify : bool) : SSLContext * t :=
  match _ssl_contexts self !! verify with
  | Some ctx => (ctx, self)
  | None =>
      let ctx := new_ssl_context verify in
      (ctx, set_ssl_contexts (<[verify := ctx]> (_ssl_contexts self)) self)
  end.

(** [_get_pool] *)
Definition _get_pool (self : t) (host : string) (port : Z) (is_ssl verify : bool)
    : _ConnectionPool.t * t :=
  let key := (host, port, is_ssl) in
  match _pools self !! key with
  | Some pool => (pool, self)
  | None =>
      let '(ssl_ctx, self1) :=
        if is_ssl
        then (let '(c, s1) := _get_ssl_context self verify in (Some c, s1))
        else (None, self) in
      let pool := _ConnectionPool.init host port ssl_ctx
                    (_connector_limit_per_host self1) 30 in
      (pool, set_pools (<[key := pool]> (_pools self1)) self1)
  end.

(** The URL stage of [request]: scheme, host, port and request target. *)
Definition target_port (parsed : ParseResult) : Z :=
  match pr_port parsed with
  | Some p => if p =? 0 then (if String.eqb (scheme parsed) "https" then 443 else 80)
              else p
  | None => if String.eqb (scheme parsed) "https" then 443 else 80
  end.

Definition target_path {Json} `{Platform Json} (parsed : ParseResult)
    (params : option (pydict string)) : string :=
  let path := if str_nonempty (pr_path parsed) then pr_path parsed else "/" in
  let path := if str_nonempty (query parsed)
              then (path ++ "?" ++ query parsed)%string else path in
  if nonempty_dict params
  then (path ++ (if bytes_in (B "?") (list_byte_of_string path) then "&" else "?")
             ++ urlencode (default [] params))%string
  else path.

(** The header stage of [request]: the session defaults merged with the
    call's headers, then the required headers where they are absent. *)
Definition merged_headers (self : t) (headers : option (pydict string))
    : pydict string :=
  if nonempty_dict headers
  then dict_merge (_default_headers self) (default [] headers)
  else _default_headers self.

Definition host_header (host : string) (port : Z) : string :=
  if Z_in port [80; 443] then host else (host ++ ":" ++ Z_to_str port)%string.

Definition setdefault (k v : string) (d : pydict string) : pydict string :=
  if dict_mem d k then d else dict_set d k v.

Definition required_headers (host : string) (port : Z) (d : pydict string)
    : pydict string :=
  setdefault "User-Agent" "arequest/0.2.0"
    (setdefault "Accept-Encoding" "identity"
       (setdefault "Accept" "*/*"
          (setdefault "Connection" "keep-alive"
             (setdefault "Host" (host_header host port) d)))).

(** [request_auth = auth or self.auth], applied when it has [apply]. *)
Definition apply_auth (self : t) (auth : option AuthBase) (d : pydict string)
    : pydict string :=
  let request_auth := match auth with Some a => Some a | None => Session.auth self end in
  match request_auth with
  | Some {| apply := Some f |} => f d
  | _ => d
  end.

(** The body stage of [request]: the encoded body, if any, and the
    headers with the content type the encoding calls for. *)
Definition encode_body {Json} `{Platform Json} (data : option Data)
    (json : option Json) (d : pydict string) : option bytes * pydict string :=
  match json with
  | Some j => (Some (json_dumps j), dict_set d "Content-Type" "application/json")
  | None =>
      match data with
      | Some (DataDict m) =>
          (Some (encode_utf8 (urlencode m)),
           dict_set d "Content-Type" "application/x-www-form-urlencoded")
      | Some (DataStr s) => (Some (encode_utf8 s), d)
      | Some (DataBytes b) => (Some b, d)
      | None => (None, d)
      end
  end.

(** [if body: req_headers['Content-Length'] = str(len(body))] *)
Definition with_content_length (body : option bytes) (d : pydict string)
    : pydict string :=
  match body with
  | Some (c :: b) => dict_set d "Content-Length" (Z_to_str (py_len (c :: b)))
  | _ => d
  end.

(** The headers as they stand when the body stage starts. *)
Definition base_headers {Json} `{Platform Json} (self : t) (url : string)
    (headers : option (pydict string)) (auth : option AuthBase)
    : pydict string :=
  let parsed := urlparse url in
  let host := default "" (hostname parsed) in
  let port := target_port parsed in
  apply_auth self auth
    (required_headers host port (merged_headers self headers)).

(** The headers and the body [request] hands to the builder. *)
Definition prepare {Json} `{Platform Json} (self : t) (url : string)
    (headers : option (pydict string)) (data : option Data)
    (json : option Json) (auth : option AuthBase)
    : pydict string * option bytes :=
  let '(body, req_headers) :=
    encode_body data json (base_headers self url headers auth) in
  (with_content_length body req_headers, body).

(** [writer.write(request_bytes); await writer.drain()]: the bytes go on
    the wire and the peer's answer is fed into the reader. *)
Definition send {Json} `{Platform Json} (rd : reader) (wr : writer)
    (request_bytes : bytes) (w : World) : World :=
  let '(host, port, _) := default ("", 0, None) (peer w !! wr) in
  {| clock := clock w; closing := closing w; next_conn := next_conn w;
     peer := peer w;
     inbox := <[rd := default [] (inbox w !! rd) ++ serve host port request_bytes]>
                (inbox w);
     wire := wire w ++ [(wr, request_bytes)] |}.

(** [parser = self._parser_class(); await parser.parse(reader)] on the
    reader's pending bytes. *)
Definition receive (self : t) (rd : reader) (w : World)
    : result ParsedResponse * World :=
  let '(res, rest) := _parser_class self (default [] (inbox w !! rd)) in
  (res,
   {| clock := clock w; closing := closing w; next_conn := next_conn w;
      peer := peer w; inbox := <[rd := rest]> (inbox w); wire := wire w |}).

(** [writer.write(request_bytes); await writer.drain()] and
    [parser = self._parser_class(); await parser.parse(reader)]: what the
    parser holds at the end, or the exception raised on the way, be it
    raised in the task while it waits or by the parser. What the reader of
    a connection holds plays no part once the connection is given up. *)
Definition write_and_parse {Json} `{Platform Json} (self : t) (rd : reader)
    (wr : writer) (request_bytes : bytes) (w : World)
    : result ParsedResponse * World :=
  let w2 := send rd wr request_bytes w in
  match interrupt AtDrain w2 with
  | Some e => (Raise e, w2)
  | None =>
      match interrupt AtParse w2 with
      | Some e => (Raise e, w2)
      | None => receive self rd w2
      end
  end.

(** What the two [except] clauses of [request] raise for the exception they
    catch; an exception they do not catch goes on as it is. *)
Definition reraise (url : string) (e : exn) : exn :=
  match e with
  | AsyncioTimeoutError => TimeoutError ("Request timeout: " ++ url)
  | _ => e
  end.

(** [pool.release(...)] on the pool stored under [key]. *)
Definition release_to (key : string * Z * bool) (pool : _ConnectionPool.t)
    (rd : reader) (wr : writer) (keep_alive : bool) (self : t) (w : World)
    : _ConnectionPool.t * t * World :=
  let '(pool', w') := _ConnectionPool.release pool rd wr keep_alive w in
  (pool', set_pools (<[key := pool']> (_pools self)) self, w').

(** One exchange of [request]: everything from the closed check to the
    release of the connection. It returns the response together with the
    scheme, host and port of the URL, which the redirect step uses. The
    [except] clauses release the connection for an [Exception]; what is not
    one (a cancellation) passes them by, and the connection stays on
    loan. *)
Definition exchange {Json} `{Platform Json} (self : t) (method url : string)
    (headers params : option (pydict string)) (data : option Data)
    (json : option Json) (timeout : option Z) (verify : option bool)
    (auth : option AuthBase) (w : World)
    : result (Response.t * string * string * Z) * t * World :=
  if _closed self then (Raise (RuntimeError "Session is closed"), self, w)
  else
    let start_time := clock w in
    let parsed := urlparse url in
    let scheme := scheme parsed in
    let host := default "" (hostname parsed) in
    let port := target_port parsed in
    let path := target_path parsed params in
    let is_ssl := String.eqb scheme "https" in
    let verify_ssl := default (Session.verify self) verify in
    let '(req_headers, body) := prepare self url headers data json auth in
    match _builder_class self (str_upper method) path req_headers body with
    | inl e => (Raise e, self, w)
    | inr request_bytes =>
        let '(pool, self1) := _get_pool self host port is_ssl verify_ssl in
        let key := (host, port, is_ssl) in
        let timeout_val := if truthy timeout then timeout else _default_timeout self1 in
        match _ConnectionPool.acquire pool timeout_val w with
        | (inl e, pool1, w1) =>
            (Raise (reraise url e),
             set_pools (<[key := pool1]> (_pools self1)) self1, w1)
        | (inr (rd, wr), pool1, w1) =>
            let self2 := set_pools (<[key := pool1]> (_pools self1)) self1 in
            match write_and_parse self rd wr request_bytes w1 with
            | (inl e, w3) =>
                if is_exception e then
                  let '(_, self3, w4) :=
                    release_to key pool1 rd wr false self2 w3 in
                  (Raise (reraise url e), self3, w4)
                else (Raise e, self2, w3)
            | (inr parser, w3) =>
                let elapsed := clock w3 - start_time in
                let response :=
                  Response.init (parsed_status_code parser)
                    (parsed_headers parser) (parsed_body parser) url
                    (parsed_reason parser) elapsed in
                let '(_, self3, w4) :=
                  release_to key pool1 rd wr (parsed_keep_alive parser)
                    self2 w3 in
                (Ok (response, scheme, host, port), self3, w4)
            end
        end
    end.

(** The redirect step of [request]: the method and URL of the next hop,
    when the response is a redirect that is to be followed. *)
Definition next_hop (allow_redirects : bool) (hops_left : bool)
    (method scheme host : string) (port : Z) (response : Response.t)
    : option (string * string) :=
  if allow_redirects
     && Z_in (Response.status_code response) [301; 302; 303; 307; 308]
  then
    if hops_left then
      let location := dict_get_default (Response.headers response) "Location" "" in
      if str_nonempty location then
        let location :=
          if negb (str_startswith "http" location)
          then (scheme ++ "://" ++ host ++ ":" ++ Z_to_str port ++ location)%string
          else location in
        Some (if Response.status_code response =? 303 then "GET" else method,
              location)
      else None
    else None
  else None.

(** An exception of the recursive call passes through the [except]
    clauses of the calling frame, which holds no connection by then. *)
Definition rewrap (url : string) (r : result Response.t * t * World)
    : result Response.t * t * World :=
  match r with
  | (inl e, self', w') => (Raise (reraise url e), self', w')
  | r => r
  end.

(** [request], by recursion on the number of hops left: [max_redirects > 0]
    holds exactly when [hops] is a successor. The recursive call passes
    [headers], [timeout] and [verify] on, and leaves [params], [data],
    [json] and [auth] out. *)
Fixpoint request_hops {Json} `{Platform Json} (hops : nat) (self : t)
    (method url : string) (headers params : option (pydict string))
    (data : option Data) (json : option Json) (timeout : option Z)
    (verify : option bool) (allow_redirects : bool)
    (auth : option AuthBase) (w : World)
    : result Response.t * t * World :=
  match exchange self method url headers params data json timeout verify auth w with
  | (inl e, self', w') => (Raise e, self', w')
  | (inr (response, scheme, host, port), self', w') =>
      match hops with
      | O =>
          (Ok response, self', w')
      | S hops' =>
          match next_hop allow_redirects true method scheme host port response with
          | Some (method', location) =>
              rewrap url
                (request_hops hops' self' method' location headers None
                   None None timeout verify true None w')
          | None => (Ok response, self', w')
          end
      end
  end.

(** [request] *)
Definition request {Json} `{Platform Json} (self : t) (method url : string)
    (headers params : option (pydict string)) (data : option Data)
    (json : option Json) (timeout : option Z) (verify : option bool)
    (allow_redirects : bool) (max_redirects : Z)
    (auth : option AuthBase) (w : World)
    : result Response.t * t * World :=
  request_hops (Z.to_nat max_redirects) self method url headers params data
    json timeout verify allow_redirects auth w.

(** [close] *)
Definition close (self : t) (w : World) : t * World :=
  if _closed self then (self, w)
  else
    let self1 := set_closed true self in
    let w1 := map_fold (fun _ pool w => snd (_ConnectionPool.close pool w))
                       w (_pools self1) in
    (set_pools ∅ self1, w1).

End Session.

(** ** A sample platform

    A small instance of [Platform] for the examples: every name resolves to
    one address, every connection attempt succeeds at once, URLs have the
    form [scheme://host[:port][/path][?query]], the peer [demo_serve]
    answers by request line, and the accelerated codec is absent, so that
    sessions use [_SimpleHTTPParser] and [_SimpleHTTPBuilder]. *)

Definition simple_urlparse (url : string) : ParseResult :=
  let b := list_byte_of_string url in
  let i := bytes_find (B "://") b in
  if i <? 0
  then {| scheme := ""; hostname := None; pr_port := None;
          pr_path := url; query := "" |}
  else
    let rest := py_slice_from b (i + 3) in
    let j := bytes_find (B "/") rest in
    let netloc := if j <? 0 then rest else py_slice_to rest j in
    let pathq := if j <? 0 then [] else py_slice_from rest j in
    let q := bytes_find (B "?") pathq in
    let c := bytes_find (B ":") netloc in
    {| scheme := string_of_list_byte (bytes_lower (py_slice_to b i));
       hostname :=
         Some (string_of_list_byte
                 (bytes_lower (if c <? 0 then netloc else py_slice_to netloc c)));
       pr_port := if c <? 0 then None
                  else py_int is_space 10 (py_slice_from netloc (c + 1));
       pr_path := string_of_list_byte (if q <? 0 then pathq else py_slice_to pathq q);
       query := string_of_list_byte (if q <? 0 then [] else py_slice_from pathq (q + 1)) |}.

Fixpoint simple_urlencode (d : pydict string) : string :=
  match d with
  | [] => ""
  | [(k, v)] => k ++ "=" ++ v
  | (k, v) :: d' => k ++ "=" ++ v ++ "&" ++ simple_urlencode d'
  end.

Definition http_response (status_line : string) (hdrs : list string)
    (body : string) : bytes :=
  B status_line ++ CRLF
    ++ flat_map (fun h => B h ++ CRLF) hdrs ++ CRLF ++ B body.

Definition demo_serve (host : string) (port : Z) (request : bytes) : bytes :=
  if starts_with (B "GET /a ") request then
    http_response "HTTP/1.1 302 Found" ["Location: /b"; "Content-Length: 0"] ""
  else if starts_with (B "GET /b ") request then
    http_response "HTTP/1.1 302 Found" ["Location: /c"; "Content-Length: 0"] ""
  else if starts_with (B "GET /c ") request then
    http_response "HTTP/1.1 200 OK" ["Content-Length: 4"] "done"
  else if starts_with (B "POST /x ") request then
    http_response "HTTP/1.1 303 See Other" ["Location: /y"; "Content-Length: 0"] ""
  else if starts_with (B "POST /p ") request then
    http_response "HTTP/1.1 307 Temporary Redirect"
      ["Location: /q"; "Content-Length: 0"] ""
  else
    http_response "HTTP/1.1 200 OK" ["Content-Length: 2"] "ok".

#[local] Instance demo_platform : Platform string := {|
  getaddrinfo := fun _ _ => Ok ["10.0.0.1"];
  resolve_latency := fun _ _ => 2;
  open_connection := fun _ _ _ _ => Ok tt;
  open_connection_exception :=
    fun _ _ _ _ e (E : Ok tt = Raise e) =>
      match E in (_ = r) return (if r then is_exception e = true else True)
      with eq_refl => I end;
  connect_latency := fun _ _ => 3;
  serve := demo_serve;
  interrupt := fun _ _ => None;
  urlparse := simple_urlparse;
  urlencode := simple_urlencode;
  json_dumps := fun j => list_byte_of_string j;
  fast_parser := None
|}.

(** A fresh session with the constructor's defaults. *)
Definition session0 : Session.t := Session.init None None 100 30 None true.

Definition sample_response : bytes :=
  B "HTTP/1.1 200 OK" ++ CRLF ++
  B "Content-Length: 3" ++ CRLF ++
  B "Transfer-Encoding: chunked" ++ CRLF ++ CRLF ++
  B "4" ++ CRLF ++ B "Hell" ++ CRLF ++
  B "3" ++ CRLF ++ B "o, " ++ CRLF ++
  B "5" ++ CRLF ++ B "World" ++ CRLF ++
  B "0" ++ CRLF ++ CRLF.

(** ** Conditions used in the statements about the parser *)


(** [line] is a header line whose name is [name] up to ASCII case and whose
    value contains [token] up to ASCII case, as the header loop tests it. *)
Definition header_with (name token : bytes) (line : bytes) : Prop :=
  let colon := bytes_find (B ":") line in
  0 < colon /\
  bytes_eqb (bytes_lower (py_slice_to line colon)) name = true /\
  bytes_in token (bytes_lower (py_slice_from line (colon + 1))) = true.

(** A response whose status is not a number. *)
Definition bad_status_response : bytes :=
  B "HTTP/1.1 abc OK" ++ CRLF ++ CRLF.


(** The size a chunk-size line stands for, as [_read_chunked] reads it. *)
Definition chunk_size_of (size_line : bytes) : option Z :=
  py_int is_space 16 (hd [] (bytes_split (B ";") (bytes_strip size_line))).

(** A chunk on the wire, given by the text of its size line and its data:
    the size line, the data and the CRLF after the data. *)
Definition chunk_wire (c : bytes * bytes) : bytes :=
  fst c ++ CRLF ++ snd c ++ CRLF.

(** The size line holds no line feed, is within the limit of the reader
    and stands for the length of the data, which is not empty. *)
Definition well_formed_chunk (c : bytes * bytes) : Prop :=
  ~ In LF (fst c) /\
  py_len (fst c) < _DEFAULT_LIMIT /\
  chunk_size_of (fst c ++ CRLF) = Some (py_len (snd c)) /\
  snd c <> [].

(** The chunks of scenario S2, and their stream. *)
Definition hello_chunks : list (bytes * bytes) :=
  [(B "4", B "Hell"); (B "3;ext=1", B "o, "); (B "5", B "World")].

(** ** Conditions used in the statements about headers *)

(** A well-formed dictionary has no key twice. *)
Definition dict_wf {V} (d : pydict V) : Prop := NoDup (map fst d).

(** How many entries of [d] carry the key [k]: how many header lines of
    that name the builder writes. *)
Definition count_key {V} (k : string) (d : pydict V) : nat :=
  length (List.filter (fun kv => String.eqb (fst kv) k) d).

(** ** Conditions used in the statements about the pool *)

(** The condition under which [release] retains the connection. *)
Definition retained (self : _ConnectionPool.t) (wr : writer) (keep_alive : bool) (w : World) : Prop :=
  keep_alive = true /\ is_closing wr w = false /\ _ConnectionPool._closed self = false /\
  py_len (_ConnectionPool._available self) < _ConnectionPool.max_size self.

(** [release] first takes the writer out of the in-use set. *)
Definition unloaned (self : _ConnectionPool.t) (wr : writer) : _ConnectionPool.t :=
  if bool_decide (wr ∈ _ConnectionPool._in_use self)
  then _ConnectionPool.set_in_use (_ConnectionPool._in_use self ∖ {[wr]}) self else self.

(** The writers of the idle connections of a pool, head first. *)
Definition idle_writers (p : _ConnectionPool.t) : list writer :=
  map (fun c : reader * writer * time => snd (fst c))
      (_ConnectionPool._available p).

(** A pool in good order in a world: no writer is idle twice, no idle writer
    is on loan, and the writers of the pool and the closing writers of the
    world are connections that exist. *)
Definition pool_wf (p : _ConnectionPool.t) (w : World) : Prop :=
  NoDup (idle_writers p) /\
  (forall wr, wr ∈ idle_writers p -> wr ∉ _ConnectionPool._in_use p) /\
  (forall wr, wr ∈ idle_writers p \/ wr ∈ _ConnectionPool._in_use p ->
              (wr < next_conn w)%nat) /\
  (forall wr, wr ∈ closing w -> (wr < next_conn w)%nat).

(** The [except] and [finally] clauses around the creation of a connection
    in [acquire], applied to what the creation gave. *)
Definition after_create (p : _ConnectionPool.t)
    (x : result (reader * writer) * _ConnectionPool.t * World)
    : result (reader * writer) * _ConnectionPool.t * World :=
  let '(res, self2, w2) := x in
  let self3 := _ConnectionPool.set_creating
                 (_ConnectionPool._creating self2 - 1) self2 in
  match res with
  | inr (rd, wr) =>
      (Ok (rd, wr),
       _ConnectionPool.set_in_use
         ({[wr]} ∪ _ConnectionPool._in_use self3) self3, w2)
  | inl AsyncioTimeoutError =>
      (Raise (TimeoutError ("Connection timeout to " ++ _ConnectionPool.host p
                              ++ ":" ++ Z_to_str (_ConnectionPool.port p))),
       self3, w2)
  | inl e => (Raise e, self3, w2)
  end.

(** What [_create_connection] asks of [asyncio.open_connection] for one
    resolved address: the pool's port and TLS context, and the pool's host
    as server name when there is a TLS context. *)
Definition connects {Json} `{Platform Json} (p : _ConnectionPool.t)
    (addr : string) : result unit :=
  open_connection addr (_ConnectionPool.port p) (_ConnectionPool.ssl_context p)
    (match _ConnectionPool.ssl_context p with
     | Some _ => Some (_ConnectionPool.host p)
     | None => None
     end).

(** The test of [header_with] as a boolean. *)
Definition header_withb (name token : bytes) (line : bytes) : bool :=
  let colon := bytes_find (B ":") line in
  (0 <? colon)
  && bytes_eqb (bytes_lower (py_slice_to line colon)) name
  && bytes_in token (bytes_lower (py_slice_from line (colon + 1))).

(** The lines the header loop reads: those before the first empty one. *)
Fixpoint lines_read (lines : list bytes) : list bytes :=
  match lines with
  | [] => []
  | [] :: _ => []
  | line :: rest => line :: lines_read rest
  end.

(** An HTTP/1.0 response that asks for the connection to be closed and
    then, in a later header, to be kept. *)
Definition close_response : bytes :=
  B "HTTP/1.0 200 OK" ++ CRLF ++
  B "CONNECTION: Close" ++ CRLF ++
  B "Connection: keep-alive" ++ CRLF ++
  B "Content-Length: 2" ++ CRLF ++ CRLF ++
  B "hi".

(** The value [request] gives a header that neither the call nor the
    session sets: the five headers of the [not in req_headers] tests. *)
Definition builtin_header (host : string) (port : Z) (k : string)
    : option string :=
  if String.eqb k "Host" then Some (Session.host_header host port)
  else if String.eqb k "Connection" then Some "keep-alive"
  else if String.eqb k "Accept" then Some "*/*"
  else if String.eqb k "Accept-Encoding" then Some "identity"
  else if String.eqb k "User-Agent" then Some "arequest/0.2.0"
  else None.

(** A session with default headers of its own. *)
Definition session_with_headers : Session.t :=
  Session.init (Some [("Accept", "application/xml"); ("X-Token", "abc")])
    None 100 30 None true.

(** ** Connections of a session *)

(** A pool holds a connection when it has it idle or on loan. *)
Definition held (p : _ConnectionPool.t) (wr : writer) : Prop :=
  wr ∈ idle_writers p \/ wr ∈ _ConnectionPool._in_use p.

(** A session holds the connections of its pools. *)
Definition holds (s : Session.t) (wr : writer) : Prop :=
  exists key pool, Session._pools s !! key = Some pool /\ held pool wr.

(** Every character of the string is below 128. *)
Definition is_ascii (s : string) : bool :=
  forallb (fun c => byte_code c <? 128) (list_byte_of_string s).

(** [b'\r\n'.join(lines)] *)
Fixpoint join_crlf (lines : list bytes) : bytes :=
  match lines with
  | [] => []
  | [l] => l
  | l :: rest => l ++ CRLF ++ join_crlf rest
  end.

(** The head of a response on the wire: the status line, the header lines
    and the empty line, each ended by CRLF. *)
Definition head_wire (status_line : bytes) (lines : list bytes) : bytes :=
  status_line ++ CRLF ++ concat (map (fun l : bytes => l ++ CRLF) lines) ++ CRLF.

(** The parser as [parse] has it after the status line. *)
Definition after_status_line (status_line : bytes) (status : Z)
    : _SimpleHTTPParser.t :=
  {| _SimpleHTTPParser.status_code := status;
     _SimpleHTTPParser.reason :=
       match bytes_splitn (B " ") 2 status_line !! 2%nat with
       | Some r => decode_latin1 r
       | None => ""
       end;
     _SimpleHTTPParser.headers := [];
     _SimpleHTTPParser.body := [];
     _SimpleHTTPParser.keep_alive := true;
     _SimpleHTTPParser._content_length := None;
     _SimpleHTTPParser._chunked := false |}.

(** The connections a session has idle. *)
Definition idles (s : Session.t) (wr : writer) : Prop :=
  exists key pool, Session._pools s !! key = Some pool /\
                   wr ∈ idle_writers pool.

(** The sample platform with a peer that answers every request with a
    status line whose code is not a number. *)
Definition broken_platform : Platform string := {|
  getaddrinfo := fun _ _ => Ok ["10.0.0.1"];
  resolve_latency := fun _ _ => 2;
  open_connection := fun _ _ _ _ => Ok tt;
  open_connection_exception :=
    fun _ _ _ _ e (E : Ok tt = Raise e) =>
      match E in (_ = r) return (if r then is_exception e = true else True)
      with eq_refl => I end;
  connect_latency := fun _ _ => 3;
  serve := fun _ _ _ => bad_status_response;
  interrupt := fun _ _ => None;
  urlparse := simple_urlparse;
  urlencode := simple_urlencode;
  json_dumps := fun j => list_byte_of_string j;
  fast_parser := None
|}.

(** The sample platform with an event loop that cancels the task while it
    waits for the response. *)
Definition cancelling_platform : Platform string := {|
  getaddrinfo := fun _ _ => Ok ["10.0.0.1"];
  resolve_latency := fun _ _ => 2;
  open_connection := fun _ _ _ _ => Ok tt;
  open_connection_exception :=
    fun _ _ _ _ e (E : Ok tt = Raise e) =>
      match E in (_ = r) return (if r then is_exception e = true else True)
      with eq_refl => I end;
  connect_latency := fun _ _ => 3;
  serve := demo_serve;
  interrupt := fun a _ => match a with
                          | AtDrain => None
                          | AtParse => Some CancelledError
                          end;
  urlparse := simple_urlparse;
  urlencode := simple_urlencode;
  json_dumps := fun j => list_byte_of_string j;
  fast_parser := None
|}.

(** No pool of the session has a connection on loan. *)
Definition quiescent (s : Session.t) : Prop :=
  forall key pool, Session._pools s !! key = Some pool ->
                   _ConnectionPool._in_use pool = ∅.

(** Every connection made from number [n0] on is closing or held by the
    session. *)
Definition accounted (n0 : nat) (s : Session.t) (w : World) : Prop :=
  forall wr, (n0 <= wr < next_conn w)%nat ->
             is_closing wr w = true \/ holds s wr.

(** No pool of the session has more than one connection on loan. *)
Definition at_most_one_on_loan (s : Session.t) : Prop :=
  forall key pool, Session._pools s !! key = Some pool ->
                   (size (_ConnectionPool._in_use pool) <= 1)%nat.

(** What a piece of [Session.request] does to the connections, from the
    session and world before to those after: connections are only added,
    closing ones stay closing, and those the session held or that were made
    on the way are closing or held afterwards. *)
Definition evolves (s : Session.t) (w : World) (s' : Session.t) (w' : World)
    : Prop :=
  (next_conn w <= next_conn w')%nat /\
  (forall x, is_closing x w = true -> is_closing x w' = true) /\
  (forall x, holds s x -> is_closing x w' = true \/ holds s' x) /\
  (forall x, (next_conn w <= x < next_conn w')%nat ->
             is_closing x w' = true \/ holds s' x) /\
  Session._closed s' = Session._closed s.

(** ** The functions of the module

    [request(method, url, **kwargs)]: [async with Session() as session]
    makes a session with the default arguments, and [__aexit__] closes it
    whether [session.request] returned or raised. What is left is the
    outcome and the world. [get], [post] and the others are the same with
    the method fixed. *)
Definition request {Json} `{Platform Json} (method url : string)
    (headers params : option (pydict string)) (data : option Data)
    (json : option Json) (timeout : option Z) (verify : option bool)
    (allow_redirects : bool) (max_redirects : Z)
    (auth : option AuthBase) (w : World) : result Response.t * World :=
  let session := Session.init None None 100 30 None true in
  let '(r, session', w') :=
    Session.request session method url headers params data json timeout
      verify allow_redirects max_redirects auth w in
  (r, snd (Session.close session' w')).

(** ** Sample objects used in the examples *)

Definition world0 : World :=
  {| clock := 100; closing := ∅; next_conn := 2; peer := ∅;
     inbox := ∅; wire := [] |}.

(** An open pool that retains one idle connection at most, holding
    connection 0 idle, with connection 1 on loan. *)
Definition pool_full : _ConnectionPool.t :=
  _ConnectionPool.set_in_use {[1%nat]}
    (_ConnectionPool.set_available [(0%nat, 0%nat, 90)]
       (_ConnectionPool.init "example.com" 80 None 1 30)).

(** The same pool with room for a second idle connection. *)
Definition pool_room : _ConnectionPool.t :=
  _ConnectionPool.set_in_use {[1%nat]}
    (_ConnectionPool.set_available [(0%nat, 0%nat, 90)]
       (_ConnectionPool.init "example.com" 80 None 2 30)).

(** * Properties *)

(** ** Slices and ranges *)

Lemma py_slice_window {A} (l : list A) (a b : Z) :
  0 <= a -> 0 <= b ->
  py_slice l a (a + b) = take (Z.to_nat b) (drop (Z.to_nat a) l).
Proof.
  intros Ha Hb. unfold py_slice, norm_index, py_len.
  destruct (Z.ltb_spec a 0) as [?|_]; [lia|].
  destruct (Z.ltb_spec (a + b) 0) as [?|_]; [lia|].
  set (n := length l).
  destruct (Z_le_gt_dec a (Z.of_nat n)) as [Hle|Hgt].
  - rewrite (Z.min_l a) by lia.
    destruct (Z_le_gt_dec (a + b) (Z.of_nat n)) as [Hle'|Hgt'].
    + rewrite Z.min_l by lia. f_equal. lia.
    + rewrite Z.min_r by lia.
      rewrite !take_ge; [reflexivity| |]; rewrite length_drop; subst n; lia.
  - rewrite !Z.min_r by lia. rewrite Z.sub_diag. simpl.
    rewrite (drop_ge l (Z.to_nat a)) by (subst n; lia).
    now rewrite take_nil.
Qed.

Lemma take_add_drop {A} (l : list A) (a b : nat) :
  take (a + b) l = take a l ++ take b (drop a l).
Proof.
  revert l; induction a as [|a IH]; intros [|x l]; simpl;
    rewrite ?take_nil; try reflexivity.
  now rewrite IH.
Qed.

Lemma concat_windows {A} (l : list A) (k m : nat) :
  concat (map (fun j => take k (drop (j * k) l)) (seq 0 m)) = take (m * k) l.
Proof.
  induction m as [|m IH]; [reflexivity|].
  rewrite seq_S, map_app, concat_app, IH. simpl.
  rewrite app_nil_r, <- take_add_drop. f_equal. lia.
Qed.

(** [C10] For every response and every [chunk_size > 0], [iter_content]
    yields slices whose concatenation is [content], and every slice but
    possibly the last has length exactly [chunk_size]. *)
Theorem iter_content_partition (r : Response.t) (chunk_size : Z) :
  0 < chunk_size ->
  exists chunks,
    Response.iter_content r chunk_size = Ok chunks /\
    concat chunks = Response.content r /\
    (forall (i : nat) (c : bytes),
        chunks !! i = Some c -> (S i < length chunks)%nat ->
        py_len c = chunk_size).
Proof.
  intros Hk. unfold Response.iter_content, py_range, Response.content.
  destruct (Z.eqb_spec chunk_size 0) as [?|_]; [lia|].
  destruct (Z.ltb_spec 0 chunk_size) as [_|?]; [|lia].
  set (body := Response._body r). set (n := py_len body).
  set (cnt := Z.to_nat ((n - 0 + chunk_size - 1) / chunk_size)).
  set (k := Z.to_nat chunk_size).
  assert (Hn : 0 <= n) by (subst n; unfold py_len; lia).
  assert (Hq : let q := (n - 0 + chunk_size - 1) / chunk_size in
               n <= q * chunk_size /\ (q - 1) * chunk_size < n /\ 0 <= q).
  { cbv zeta.
    pose proof (Z.div_mod (n - 0 + chunk_size - 1) chunk_size ltac:(lia)) as E.
    pose proof (Z.mod_pos_bound (n - 0 + chunk_size - 1) chunk_size Hk) as M.
    repeat split; nia. }
  cbv zeta in Hq. destruct Hq as (Hhi & Hlo & Hq0).
  simpl rbind. eexists; split; [reflexivity|].
  rewrite map_map.
  assert (Hext : forall j : nat,
             py_slice body (0 + Z.of_nat j * chunk_size)
                      (0 + Z.of_nat j * chunk_size + chunk_size)
             = take k (drop (j * k) body)).
  { intros j. rewrite py_slice_window by nia. subst k. do 2 f_equal. nia. }
  rewrite (map_ext _ _ Hext).
  split.
  - rewrite concat_windows. apply take_ge.
    fold (py_len body) in *. subst cnt k. unfold py_len in *. nia.
  - intros i c Hi Hlt. rewrite length_map, length_seq in Hlt.
    rewrite list_lookup_fmap in Hi.
    rewrite lookup_seq_lt in Hi by lia. simpl in Hi.
    injection Hi as <-.
    unfold py_len. rewrite length_take, length_drop.
    subst cnt k n. unfold py_len in *. nia.
Qed.

Lemma iter_content_partition_witness :
  0 < 4 /\
  exists chunks,
    Response.iter_content
      (Response.init 200 [] (B "Hello, World") "http://h/" "OK" 0) 4
      = Ok chunks /\
    concat chunks = B "Hello, World" /\
    (forall (i : nat) (c : bytes),
        chunks !! i = Some c -> (S i < length chunks)%nat -> py_len c = 4).
Proof.
  split; [lia|].
  apply (iter_content_partition
           (Response.init 200 [] (B "Hello, World") "http://h/" "OK" 0) 4).
  lia.
Defined.

(** ** The pool: release *)

Import _ConnectionPool.

Lemma is_closing_writer_close (wr x : writer) (w : World) :
  is_closing x (writer_close wr w) = bool_decide (x = wr) || is_closing x w.
Proof.
  unfold is_closing, writer_close, set_closing; simpl.
  repeat case_bool_decide; simpl; try reflexivity; set_solver.
Qed.

Lemma is_closing_close_if_open_same (wr : writer) (w : World) :
  is_closing wr (close_if_open wr w) = true.
Proof.
  unfold close_if_open. destruct (is_closing wr w) eqn:E; simpl; [exact E|].
  rewrite is_closing_writer_close. now rewrite bool_decide_eq_true_2.
Qed.

Lemma is_closing_close_if_open_other (wr x : writer) (w : World) :
  x <> wr -> is_closing x (close_if_open wr w) = is_closing x w.
Proof.
  intros Hne. unfold close_if_open. destruct (is_closing wr w); simpl; [reflexivity|].
  rewrite is_closing_writer_close. now rewrite bool_decide_eq_false_2.
Qed.

Lemma retained_dec self wr keep_alive w :
  {retained self wr keep_alive w} + {~ retained self wr keep_alive w}.
Proof.
  unfold retained.
  destruct keep_alive; [|right; intros (?&_); discriminate].
  destruct (is_closing wr w); [right; intros (_&?&_); discriminate|].
  destruct (_closed self); [right; intros (_&_&?&_); discriminate|].
  destruct (Z_lt_dec (py_len (_available self)) (max_size self));
    [left; auto | right; intros (_&_&_&?); contradiction].
Qed.

Lemma cons_neq_self {A} (x : A) (l : list A) : x :: l <> l.
Proof.
  intros E. apply (f_equal (@length A)) in E. simpl in E. lia.
Qed.

Lemma unloaned_fields self wr :
  _available (unloaned self wr) = _available self /\
  _closed (unloaned self wr) = _closed self /\
  max_size (unloaned self wr) = max_size self /\
  wr ∉ _in_use (unloaned self wr).
Proof.
  unfold unloaned. case_bool_decide; simpl; repeat split; auto. set_solver.
Qed.

Lemma release_retained self rd wr keep_alive w :
  retained self wr keep_alive w ->
  release self rd wr keep_alive w
  = (set_available ((rd, wr, monotonic w) :: _available self)
       (unloaned self wr), w).
Proof.
  intros (-> & Hcl & Hpc & Hlt). unfold release. fold (unloaned self wr).
  destruct (unloaned_fields self wr) as (Ha & Hc & Hm & _).
  rewrite Hc, Hm, Ha, Hpc, Hcl. simpl.
  destruct (Z.ltb_spec (py_len (_available self)) (max_size self)); [reflexivity|lia].
Qed.

Lemma release_dropped self rd wr keep_alive w :
  ~ retained self wr keep_alive w ->
  release self rd wr keep_alive w = (unloaned self wr, close_if_open wr w).
Proof.
  intros NR. unfold release. fold (unloaned self wr).
  destruct (unloaned_fields self wr) as (Ha & Hc & Hm & _).
  rewrite Hc, Hm, Ha.
  destruct (_closed self) eqn:E1; [reflexivity|].
  destruct keep_alive eqn:E2; [|reflexivity].
  destruct (is_closing wr w) eqn:E3; [reflexivity|]. simpl.
  destruct (Z.ltb_spec (py_len (_available self)) (max_size self)).
  - exfalso. apply NR. repeat split; auto.
  - unfold close_if_open. now rewrite E3.
Qed.

(** [C1] For every call [release(reader, writer, keep_alive)], the released
    connection is put in the idle list (at its head, with the current time)
    if and only if [keep_alive] holds, the writer is not closing, the pool is
    not closed and the idle list holds fewer than [max_size] entries; in
    that case the writer is left open. In every other case the idle list is
    left as it was and the writer is closed. *)
Theorem release_retains_iff (self : t) (rd : reader) (wr : writer)
    (keep_alive : bool) (w : World) :
  (_available (fst (release self rd wr keep_alive w))
     = (rd, wr, monotonic w) :: _available self
   <-> retained self wr keep_alive w) /\
  (retained self wr keep_alive w ->
     is_closing wr (snd (release self rd wr keep_alive w)) = false /\
     (wr ∉ _in_use (fst (release self rd wr keep_alive w)))) /\
  (~ retained self wr keep_alive w ->
     _available (fst (release self rd wr keep_alive w)) = _available self /\
     is_closing wr (snd (release self rd wr keep_alive w)) = true /\
     (wr ∉ _in_use (fst (release self rd wr keep_alive w)))).
Proof.
  destruct (unloaned_fields self wr) as (Ha & Hc & Hm & Hnin).
  destruct (retained_dec self wr keep_alive w) as [R|NR].
  - rewrite (release_retained _ rd _ _ _ R). simpl.
    split; [split; auto|]. split; [|contradiction].
    intros _. split; [apply R | exact Hnin].
  - rewrite (release_dropped _ rd _ _ _ NR). simpl.
    rewrite is_closing_close_if_open_same, Ha.
    split; [split; [|contradiction]|].
    + intros E. symmetry in E. exfalso. eapply cons_neq_self; eauto.
    + split; [contradiction|]. intros _. auto.
Qed.

Lemma release_retains_iff_witness :
  (_available (fst (release pool_room 1%nat 1%nat true world0))
     = [(1%nat, 1%nat, 100); (0%nat, 0%nat, 90)] /\
   is_closing 1%nat (snd (release pool_room 1%nat 1%nat true world0)) = false) /\
  (_available (fst (release pool_room 1%nat 1%nat false world0))
     = [(0%nat, 0%nat, 90)] /\
   is_closing 1%nat (snd (release pool_room 1%nat 1%nat false world0)) = true).
Proof.
  split.
  - destruct (release_retains_iff pool_room 1%nat 1%nat true world0)
      as ([_ Hput] & Hopen & _).
    assert (R : retained pool_room 1%nat true world0)
      by (repeat split; vm_compute; reflexivity).
    split; [exact (Hput R) | exact (proj1 (Hopen R))].
  - destruct (release_retains_iff pool_room 1%nat 1%nat false world0)
      as (_ & _ & Hdrop).
    assert (NR : ~ retained pool_room 1%nat false world0)
      by (intros (? & _); discriminate).
    destruct (Hdrop NR) as (Hsame & Hclosed & _).
    split; [exact Hsame | exact Hclosed].
Defined.

(** [release] never lets the idle list grow beyond [max_size]. *)
Lemma release_bound self rd wr keep_alive w :
  py_len (_available self) <= max_size self ->
  py_len (_available (fst (release self rd wr keep_alive w)))
  <= max_size (fst (release self rd wr keep_alive w)).
Proof.
  intros Hle. destruct (unloaned_fields self wr) as (Ha & _ & Hm & _).
  destruct (retained_dec self wr keep_alive w) as [R|NR].
  - rewrite (release_retained _ rd _ _ _ R). simpl. rewrite Hm.
    destruct R as (_ & _ & _ & Hlt). unfold py_len in *. simpl. lia.
  - rewrite (release_dropped _ rd _ _ _ NR). simpl. now rewrite Ha, Hm.
Qed.

(** [C2], as stated, fails: releasing a keep-alive connection to an open
    pool whose idle list is full leaves the oldest idle connection in the
    idle list, open. *)
Lemma release_full_keeps_oldest :
  (_closed pool_full = false /\
   py_len (_available pool_full) = max_size pool_full /\
   last (_available pool_full) = Some (0%nat, 0%nat, 90) /\
   is_closing 1%nat world0 = false) /\
  ~ (let res := release pool_full 1%nat 1%nat true world0 in
     ((0%nat, 0%nat, 90) ∉ _available (fst res)) /\
     is_closing 0%nat (snd res) = true).
Proof.
  split; [repeat split; vm_compute; reflexivity|].
  intros [_ H]. vm_compute in H. discriminate H.
Qed.

(** [C2], amended. For every release of a keep-alive connection to an open
    pool whose idle list is full, the released connection itself is closed
    and dropped: the idle list is left as it was (no idle connection is
    evicted or closed), and its size does not exceed [max_size]. *)
Theorem release_full_drops_released (self : t) (rd : reader) (wr : writer)
    (w : World) :
  _closed self = false ->
  py_len (_available self) = max_size self ->
  _available (fst (release self rd wr true w)) = _available self /\
  is_closing wr (snd (release self rd wr true w)) = true /\
  (forall x, x <> wr ->
     is_closing x (snd (release self rd wr true w)) = is_closing x w) /\
  (wr ∉ _in_use (fst (release self rd wr true w))) /\
  py_len (_available (fst (release self rd wr true w)))
  <= max_size (fst (release self rd wr true w)).
Proof.
  intros Hopen Hfull.
  assert (NR : ~ retained self wr true w) by (intros (_ & _ & _ & Hlt); lia).
  destruct (unloaned_fields self wr) as (Ha & _ & Hm & Hnin).
  rewrite (release_dropped _ rd _ _ _ NR). simpl.
  rewrite is_closing_close_if_open_same, Ha, Hm.
  repeat split; auto; [|lia].
  intros x Hx. now apply is_closing_close_if_open_other.
Qed.

Lemma release_full_drops_released_witness :
  _available (fst (release pool_full 1%nat 1%nat true world0))
    = _available pool_full /\
  is_closing 1%nat (snd (release pool_full 1%nat 1%nat true world0)) = true /\
  (forall x, x <> 1%nat ->
     is_closing x (snd (release pool_full 1%nat 1%nat true world0))
     = is_closing x world0) /\
  (1%nat ∉ _in_use (fst (release pool_full 1%nat 1%nat true world0))) /\
  py_len (_available (fst (release pool_full 1%nat 1%nat true world0)))
  <= max_size (fst (release pool_full 1%nat 1%nat true world0)).
Proof.
  apply (release_full_drops_released pool_full 1%nat 1%nat world0);
    reflexivity.
Defined.



(** ** Dictionaries *)

Lemma dict_get_set_same {V} (d : pydict V) k v :
  dict_get (dict_set d k v) k = Some v.
Proof.
  induction d as [|[k' v'] d IH]; simpl.
  - now rewrite String.eqb_refl.
  - destruct (String.eqb k' k) eqn:E; simpl; rewrite E; auto.
Qed.

Lemma dict_get_set_other {V} (d : pydict V) k k' v :
  k <> k' -> dict_get (dict_set d k v) k' = dict_get d k'.
Proof.
  intros Hne. induction d as [|[k0 v0] d IH]; simpl.
  - destruct (String.eqb_spec k k'); [contradiction|reflexivity].
  - destruct (String.eqb_spec k0 k) as [->|Hk]; simpl.
    + destruct (String.eqb_spec k k'); [contradiction|reflexivity].
    + destruct (String.eqb_spec k0 k'); auto.
Qed.

Lemma count_key_not_in {V} (d : pydict V) k :
  ~ In k (map fst d) -> count_key k d = 0%nat.
Proof.
  unfold count_key. induction d as [|[k' v'] d IH]; simpl; [reflexivity|].
  intros Hn. destruct (String.eqb_spec k' k) as [->|Hk].
  - exfalso. apply Hn. now left.
  - apply IH. tauto.
Qed.

Lemma count_key_set {V} (d : pydict V) k v :
  dict_wf d -> count_key k (dict_set d k v) = 1%nat.
Proof.
  unfold dict_wf, count_key.
  induction d as [|[k' v'] d IH]; simpl; intros Hwf.
  - now rewrite String.eqb_refl.
  - inversion Hwf as [|? ? Hnin Hwf']; subst.
    destruct (String.eqb_spec k' k) as [->|Hk]; simpl.
    + rewrite String.eqb_refl. simpl. f_equal.
      apply (count_key_not_in d k). intros Hin. apply Hnin.
      now apply list_elem_of_In.
    + destruct (String.eqb_spec k' k); [contradiction|]. now apply IH.
Qed.

Lemma dict_get_merge_None {V} (a b : pydict V) k :
  dict_get a k = None -> dict_get b k = None ->
  dict_get (dict_merge a b) k = None.
Proof.
  unfold dict_merge. revert a. induction b as [|[k' v'] b IH]; simpl; intros a Ha Hb.
  - exact Ha.
  - destruct (String.eqb_spec k' k) as [->|Hk]; [discriminate|].
    apply IH; [|exact Hb]. now rewrite dict_get_set_other.
Qed.

Lemma dict_get_setdefault_other k k' v (d : pydict string) :
  k <> k' -> dict_get (Session.setdefault k v d) k' = dict_get d k'.
Proof.
  intros Hne. unfold Session.setdefault.
  destruct (dict_mem d k); [reflexivity|]. now apply dict_get_set_other.
Qed.

(** ** The [Host] header *)

Lemma string_length_append (a b : string) :
  String.length (a ++ b) = (String.length a + String.length b)%nat.
Proof. induction a as [|c a IH]; simpl; auto. Qed.

(** [host_header] leaves the port out exactly for the ports 80 and 443,
    whatever the scheme. *)
Lemma host_header_omits_port_iff (host : string) (port : Z) :
  Session.host_header host port = host <-> port = 80 \/ port = 443.
Proof.
  unfold Session.host_header, Z_in. simpl.
  destruct (Z.eqb_spec port 80) as [->|H80]; [tauto|].
  destruct (Z.eqb_spec port 443) as [->|H443]; [tauto|]. simpl.
  split; [|lia]. intros E. apply (f_equal String.length) in E.
  rewrite string_length_append in E. simpl in E. lia.
Qed.

(** [C3], the code at the failing input: a request to
    [http://example.com:443/] with no [Host] header of the caller's. The
    scheme is http, whose default port is 80, and the port is 443; the
    [Host] header handed to the builder and written to the wire is
    [example.com], without the port. *)
Theorem host_header_http_port_443 :
  let url := "http://example.com:443/" in
  scheme (simple_urlparse url) = "http" /\
  Session.target_port (simple_urlparse url) = 443 /\
  dict_get (fst (Session.prepare session0 url None None None None)) "Host"
    = Some "example.com" /\
  map snd (wire (snd (Session.request session0 "GET" url None None None None
                        None None true 10 None world0)))
    = [B "GET / HTTP/1.1" ++ CRLF ++
       B "Host: example.com" ++ CRLF ++
       B "Connection: keep-alive" ++ CRLF ++
       B "Accept: */*" ++ CRLF ++
       B "Accept-Encoding: identity" ++ CRLF ++
       B "User-Agent: arequest/0.2.0" ++ CRLF ++ CRLF].
Proof. repeat split; vm_compute; reflexivity. Qed.

(** ** [Content-Length] *)

Lemma dict_set_keys {V} (d : pydict V) k v x :
  In x (map fst (dict_set d k v)) -> x = k \/ In x (map fst d).
Proof.
  induction d as [|[k' v'] d IH]; simpl.
  - intros [->|[]]; auto.
  - destruct (String.eqb_spec k' k) as [->|Hk]; simpl; [tauto|].
    intros [->|Hin]; [tauto|]. destruct (IH Hin); tauto.
Qed.

Lemma dict_set_wf {V} (d : pydict V) k v :
  dict_wf d -> dict_wf (dict_set d k v).
Proof.
  unfold dict_wf. induction d as [|[k' v'] d IH]; simpl; intros Hwf.
  - apply NoDup_singleton.
  - inversion Hwf as [|? ? Hnin Hwf']; subst.
    destruct (String.eqb_spec k' k) as [->|Hk]; simpl.
    + now constructor.
    + constructor; [|now apply IH].
      rewrite list_elem_of_In. intros Hin.
      destruct (dict_set_keys _ _ _ _ Hin) as [->|Hin']; [contradiction|].
      apply Hnin. now apply list_elem_of_In.
Qed.

Lemma body_stage_content_length {Json} `{Platform Json} data json d :
  dict_get (snd (Session.encode_body data json d)) "Content-Length"
  = dict_get d "Content-Length" /\
  (dict_wf d -> dict_wf (snd (Session.encode_body data json d))).
Proof.
  unfold Session.encode_body.
  destruct json as [j|]; [|destruct data as [[b|s|m]|]]; simpl;
    try (split; [reflexivity|tauto]);
    (split; [apply dict_get_set_other; discriminate | apply dict_set_wf]).
Qed.

Lemma required_headers_content_length host port d :
  dict_get (Session.required_headers host port d) "Content-Length"
  = dict_get d "Content-Length".
Proof.
  unfold Session.required_headers.
  now rewrite !dict_get_setdefault_other by discriminate.
Qed.

(** [C6], as stated, fails on both halves. A body of zero bytes
    ([data=b'']) is sent without any [Content-Length]; and a request with no
    body whose caller passes a [Content-Length] header is sent with that
    header. *)
Lemma content_length_counterexample :
  (snd (Session.prepare session0 "http://example.com/" None
          (Some (DataBytes [])) None None) = Some [] /\
   dict_get (fst (Session.prepare session0 "http://example.com/" None
                    (Some (DataBytes [])) None None)) "Content-Length"
   <> Some (Z_to_str 0)) /\
  (snd (Session.prepare session0 "http://example.com/"
          (Some [("Content-Length", "5")]) None None None) = None /\
   dict_get (fst (Session.prepare session0 "http://example.com/"
                    (Some [("Content-Length", "5")]) None None None))
            "Content-Length"
   = Some "5").
Proof.
  repeat split; try (vm_compute; reflexivity).
  vm_compute. discriminate.
Qed.

(** A [Content-Length] the caller passes under another spelling stays in
    the headers beside the one [request] sets. *)
Example content_length_other_spelling :
  fst (Session.prepare session0 "http://example.com/"
         (Some [("content-length", "99")]) (Some (DataBytes (B "abc")))
         None None)
  = [("content-length", "99"); ("Host", "example.com");
     ("Connection", "keep-alive"); ("Accept", "*/*");
     ("Accept-Encoding", "identity"); ("User-Agent", "arequest/0.2.0");
     ("Content-Length", "3")].
Proof. vm_compute. reflexivity. Qed.

(** [C6], amended. Let [base] be the headers as merged from the session
    defaults and the call's headers, completed and passed through the
    authentication object. For a request that sets no body, or whose encoded
    body is empty, [request] adds no [Content-Length]: one is sent only if
    [base] holds one, and [base] holds none when neither the defaults, the
    call's headers nor an authentication object supply it. For a request
    whose encoded body is N >= 1 bytes, the header [Content-Length] with
    value N is sent, and exactly one header of that name (in that spelling)
    is sent. *)
Theorem content_length_sent {Json} `{Platform Json} (self : Session.t)
    (url : string) (headers : option (pydict string)) (data : option Data)
    (json : option Json) (auth : option AuthBase) :
  let base := Session.base_headers self url headers auth in
  let hdrs := fst (Session.prepare self url headers data json auth) in
  let body := snd (Session.prepare self url headers data json auth) in
  (data = None -> json = None -> body = None) /\
  (body = None \/ body = Some [] ->
     dict_get hdrs "Content-Length" = dict_get base "Content-Length") /\
  (dict_get (Session._default_headers self) "Content-Length" = None ->
   dict_get (default [] headers) "Content-Length" = None ->
   auth = None -> Session.auth self = None ->
     dict_get base "Content-Length" = None) /\
  (forall c b, body = Some (c :: b) ->
     dict_get hdrs "Content-Length" = Some (Z_to_str (py_len (c :: b))) /\
     (dict_wf base -> count_key "Content-Length" hdrs = 1%nat)).
Proof.
  cbv zeta. unfold Session.prepare.
  set (base := Session.base_headers self url headers auth).
  destruct (body_stage_content_length data json base) as [Hcl Hwf].
  destruct (Session.encode_body data json base) as [body h] eqn:E.
  simpl in *. repeat split.
  - intros -> ->. unfold Session.encode_body in E. now injection E as <- _.
  - intros [->| ->]; simpl; exact Hcl.
  - intros Hd Hh -> Ha. subst base.
    unfold Session.base_headers, Session.apply_auth. rewrite Ha.
    rewrite required_headers_content_length.
    unfold Session.merged_headers.
    destruct (nonempty_dict headers); [|exact Hd].
    now apply dict_get_merge_None.
  - subst body. simpl. apply dict_get_set_same.
  - intros Hb. subst body. simpl. apply count_key_set. auto.
Qed.

Lemma content_length_sent_witness :
  dict_get (fst (Session.prepare session0 "http://example.com/x" None None
                   None None)) "Content-Length" = None /\
  dict_get (fst (Session.prepare session0 "http://example.com/x" None
                   (Some (DataBytes (B "abc"))) None None)) "Content-Length"
    = Some "3" /\
  count_key "Content-Length"
    (fst (Session.prepare session0 "http://example.com/x" None
            (Some (DataBytes (B "abc"))) None None)) = 1%nat.
Proof.
  pose proof (content_length_sent session0 "http://example.com/x" None None
                None None) as (Hnone & Hkeep & Hbase & _).
  pose proof (content_length_sent session0 "http://example.com/x" None
                (Some (DataBytes (B "abc"))) None None) as (_ & _ & _ & Hsome).
  cbv zeta in *.
  split.
  - rewrite Hkeep by (left; apply Hnone; reflexivity).
    apply Hbase; reflexivity.
  - destruct (Hsome "a"%byte (B "bc") eq_refl) as [Hget Hcount].
    split; [exact Hget|]. apply Hcount.
    vm_compute. repeat constructor; rewrite list_elem_of_In; simpl; intuition discriminate.
Defined.

(** ** Closed sessions and pools *)

Lemma pool_close_closed (pool : t) (w : World) :
  _closed (fst (close pool w)) = true.
Proof. reflexivity. Qed.

Lemma session_close_closed (self : Session.t) (w : World) :
  Session._closed (fst (Session.close self w)) = true.
Proof.
  unfold Session.close. destruct (Session._closed self) eqn:E; simpl; auto.
Qed.

(** [C7] After [Session.close()], every later [Session.request] fails, with
    the session-closed error, which the module raises as
    [RuntimeError("Session is closed")], and leaves the session as it is;
    every [acquire] on a closed pool (one that [close()] has closed, or
    any pool whose [_closed] flag is set) fails with the pool-closed error,
    raised as [RuntimeError("Pool is closed")], and leaves the pool as it
    is. *)
Theorem closed_session_and_pool_fail {Json} `{Platform Json}
    (self : Session.t) (pool : t) (w w1 w2 : World)
    (method url : string) (headers params : option (pydict string))
    (data : option Data) (json : option Json) (timeout : option Z)
    (verify : option bool) (allow_redirects : bool) (max_redirects : Z)
    (auth : option AuthBase) (acquire_timeout : option Z) :
  Session.request (fst (Session.close self w)) method url headers params data
    json timeout verify allow_redirects max_redirects auth w1
  = (Raise (RuntimeError "Session is closed"), fst (Session.close self w), w1)
  /\
  acquire (fst (close pool w)) acquire_timeout w2
  = (Raise (RuntimeError "Pool is closed"), fst (close pool w), w2)
  /\
  (forall closed_pool : _ConnectionPool.t,
     _closed closed_pool = true ->
     acquire closed_pool acquire_timeout w2
     = (Raise (RuntimeError "Pool is closed"), closed_pool, w2)).
Proof.
  split; [|split].
  - pose proof (session_close_closed self w) as Hc.
    unfold Session.request.
    destruct (Z.to_nat max_redirects); simpl;
      unfold Session.exchange; rewrite Hc; reflexivity.
  - unfold acquire. now rewrite pool_close_closed.
  - intros closed_pool Hc. unfold acquire. now rewrite Hc.
Qed.


(** ** Stream readers *)

Lemma py_slice_to_take {A} (l : list A) (n : Z) :
  0 <= n -> py_slice_to l n = take (Z.to_nat n) l.
Proof.
  intros Hn. unfold py_slice_to.
  replace n with (0 + n) at 1 by lia.
  now rewrite py_slice_window by lia.
Qed.

Lemma py_slice_from_drop {A} (l : list A) (n : Z) :
  0 <= n -> py_slice_from l n = drop (Z.to_nat n) l.
Proof.
  intros Hn. unfold py_slice_from, py_slice, norm_index, py_len.
  destruct (Z.ltb_spec n 0) as [?|_]; [lia|].
  destruct (Z.ltb_spec (Z.of_nat (length l)) 0) as [?|_]; [lia|].
  rewrite Z.min_id.
  destruct (Z_le_gt_dec n (Z.of_nat (length l))).
  - rewrite Z.min_l by lia. apply take_ge. rewrite length_drop. lia.
  - rewrite Z.min_r by lia. rewrite Z.sub_diag. simpl.
    rewrite take_0. symmetry. apply drop_ge. lia.
Qed.

Lemma readuntil_found sep buf :
  0 <= bytes_find sep buf <= _DEFAULT_LIMIT ->
  readuntil sep buf
  = (Ok (take (Z.to_nat (bytes_find sep buf + py_len sep)) buf),
     drop (Z.to_nat (bytes_find sep buf + py_len sep)) buf).
Proof.
  intros Hi. unfold readuntil.
  destruct (Z.ltb_spec (bytes_find sep buf) 0) as [?|_]; [lia|].
  destruct (Z.ltb_spec _DEFAULT_LIMIT (bytes_find sep buf)) as [?|_]; [lia|].
  assert (0 <= bytes_find sep buf + py_len sep) by (unfold py_len; lia).
  now rewrite py_slice_to_take, py_slice_from_drop.
Qed.

Lemma readuntil_eof sep buf :
  bytes_find sep buf < 0 ->
  py_len buf + 1 - py_len sep <= _DEFAULT_LIMIT ->
  readuntil sep buf = (Raise (IncompleteReadError buf), []).
Proof.
  intros Hi Hlim. unfold readuntil.
  destruct (Z.ltb_spec (bytes_find sep buf) 0) as [_|?]; [|lia].
  destruct (Z.ltb_spec _DEFAULT_LIMIT (py_len buf + 1 - py_len sep)) as [?|_];
    [lia|].
  now rewrite andb_false_r.
Qed.

Lemma readuntil_far sep buf :
  _DEFAULT_LIMIT < bytes_find sep buf ->
  readuntil sep buf
  = (Raise (LimitOverrunError
              "Separator is found, but chunk is longer than limit"
              (bytes_find sep buf)), buf).
Proof.
  intros Hi. unfold readuntil.
  destruct (Z.ltb_spec (bytes_find sep buf) 0) as [?|_];
    [unfold _DEFAULT_LIMIT in Hi; lia|].
  destruct (Z.ltb_spec _DEFAULT_LIMIT (bytes_find sep buf)) as [_|?];
    [reflexivity|lia].
Qed.

Lemma readuntil_overrun sep buf :
  bytes_find sep buf < 0 ->
  py_len sep <= py_len buf ->
  _DEFAULT_LIMIT < py_len buf + 1 - py_len sep ->
  readuntil sep buf
  = (Raise (LimitOverrunError
              "Separator is not found, and chunk exceed the limit"
              (py_len buf + 1 - py_len sep)), buf).
Proof.
  intros Hi Hsep Hlim. unfold readuntil.
  destruct (Z.ltb_spec (bytes_find sep buf) 0) as [_|?]; [|lia].
  destruct (Z.leb_spec (py_len sep) (py_len buf)) as [_|?]; [|lia].
  destruct (Z.ltb_spec _DEFAULT_LIMIT (py_len buf + 1 - py_len sep)) as [_|?];
    [reflexivity|lia].
Qed.

Lemma readuntil_cases sep buf :
  (exists n, readuntil sep buf = (Ok (take n buf), drop n buf)) \/
  readuntil sep buf = (Raise (IncompleteReadError buf), []) \/
  (exists msg consumed,
     readuntil sep buf = (Raise (LimitOverrunError msg consumed), buf) /\
     0 <= consumed).
Proof.
  destruct (Z_lt_ge_dec (bytes_find sep buf) 0) as [Hneg|Hpos].
  - destruct (Z_le_gt_dec (py_len buf + 1 - py_len sep) _DEFAULT_LIMIT).
    + right; left. now apply readuntil_eof.
    + destruct (Z_le_gt_dec (py_len sep) (py_len buf)).
      * right; right. do 2 eexists. split; [apply readuntil_overrun; lia|].
        unfold _DEFAULT_LIMIT in *. lia.
      * right; left. unfold readuntil.
        destruct (Z.ltb_spec (bytes_find sep buf) 0) as [_|?]; [|lia].
        destruct (Z.leb_spec (py_len sep) (py_len buf)) as [?|_]; [lia|].
        reflexivity.
  - destruct (Z_le_gt_dec (bytes_find sep buf) _DEFAULT_LIMIT).
    + left. eexists. apply readuntil_found. lia.
    + right; right. do 2 eexists. split; [apply readuntil_far; lia|lia].
Qed.

(** [readline] returns a line, or raises [ValueError]; it never gives bytes
    back to the reader. *)
Lemma readline_cases buf :
  (exists line rest,
     readline buf = (Ok line, rest) /\
     (length line + length rest = length buf)%nat) \/
  (exists msg rest,
     readline buf = (Raise (ValueError msg), rest) /\
     (length rest <= length buf)%nat).
Proof.
  unfold readline.
  destruct (readuntil_cases [LF] buf)
    as [[n ->]|[->|(msg & consumed & -> & Hc)]].
  - left. do 2 eexists. split; [reflexivity|].
    rewrite <- length_app. now rewrite take_drop.
  - left. do 2 eexists. split; [reflexivity|]. simpl. lia.
  - right. do 2 eexists. split; [reflexivity|].
    destruct (starts_with [LF] (py_slice_from buf consumed)); [|simpl; lia].
    rewrite py_slice_from_drop by lia. rewrite length_drop. lia.
Qed.

Lemma readline_length buf line rest :
  readline buf = (Ok line, rest) ->
  (length line + length rest = length buf)%nat.
Proof.
  destruct (readline_cases buf)
    as [(l & r & -> & Hlen)|(msg & r & -> & _)]; intros E;
    [now injection E as <- <-|discriminate E].
Qed.


Lemma readexactly_cases n buf :
  (exists msg, readexactly n buf = (Raise (ValueError msg), buf) /\ n < 0) \/
  (readexactly n buf = (Raise (IncompleteReadError buf), []) /\
   py_len buf < n) \/
  (readexactly n buf = (Ok (take (Z.to_nat n) buf), drop (Z.to_nat n) buf) /\
   0 <= n <= py_len buf).
Proof.
  unfold readexactly.
  destruct (Z.ltb_spec n 0); [left; eauto|].
  destruct (Z.eqb_spec n 0) as [->|?].
  - right; right. simpl. rewrite take_0, drop_0. unfold py_len. split; [auto|lia].
  - destruct (Z.ltb_spec (py_len buf) n); [right; left; auto|].
    right; right. split; [auto|lia].
Qed.

Lemma readexactly_length n buf r rest :
  readexactly n buf = (r, rest) -> (length rest <= length buf)%nat.
Proof.
  destruct (readexactly_cases n buf) as [(msg & -> & _)|[(-> & _)|(-> & _)]];
    intros E; injection E as <- <-; simpl; try lia.
  rewrite length_drop. lia.
Qed.

Import _SimpleHTTPParser.



(** The chunk loop never runs out of fuel: each turn that goes on has read a
    size line that is not empty. *)
Lemma read_chunked_loop_total fuel buf chunks :
  (length buf < fuel)%nat -> read_chunked_loop fuel buf chunks <> None.
Proof.
  revert buf chunks. induction fuel as [|fuel IH]; intros buf chunks Hlt; [lia|].
  simpl. destruct (readline buf) as [[e|size_line] buf1] eqn:Erl; [discriminate|].
  pose proof (readline_length _ _ _ Erl) as Hlen.
  destruct (py_int is_space 16 (hd [] (bytes_split (B ";") (bytes_strip size_line))))
    as [size|] eqn:Eint; [|discriminate].
  destruct (size =? 0); [destruct (readline buf1) as [[?|?] ?]; discriminate|].
  destruct (readexactly size buf1) as [[e|chunk] buf2] eqn:E1; [discriminate|].
  destruct (readexactly 2 buf2) as [[e|crlf] buf3] eqn:E2; [discriminate|].
  apply IH.
  pose proof (readexactly_length _ _ _ _ E1).
  pose proof (readexactly_length _ _ _ _ E2).
  assert (size_line <> []) by (intros ->; vm_compute in Eint; discriminate).
  destruct size_line; [congruence|]. simpl in Hlen. lia.
Qed.





(** ** The parser: failures *)








(** ** The parser: chunked framing comes first *)

Lemma bytes_eqb_eq (a b : bytes) : bytes_eqb a b = true -> a = b.
Proof.
  revert b. induction a as [|x a IH]; intros [|y b]; simpl; try discriminate; auto.
  intros H. apply andb_prop in H as [Hxy Hab].
  apply Byte.byte_dec_bl in Hxy. subst. f_equal. auto.
Qed.

(** The header loop never clears [_chunked]. *)
Lemma header_line_keeps_chunked line p p' :
  header_line line p = Ok p' -> _chunked p = true -> _chunked p' = true.
Proof.
  unfold header_line.
  repeat match goal with
         | |- context [if ?c then _ else _] => destruct c
         | |- context [match ?c with Some _ => _ | None => _ end] => destruct c
         end; intros [= <-]; simpl; auto; discriminate.
Qed.

Lemma header_lines_keeps_chunked lines p p' :
  header_lines lines p = Ok p' -> _chunked p = true -> _chunked p' = true.
Proof.
  revert p. induction lines as [|line lines IH]; intros p; simpl.
  - now intros [= <-].
  - destruct line as [|c line]; [now intros [= <-]|].
    destruct (header_line (c :: line) p) as [e|p1] eqn:E; simpl; [discriminate|].
    intros Hrest Hp. apply (IH p1 Hrest). eapply header_line_keeps_chunked; eauto.
Qed.

(** A [Transfer-Encoding] line with the token [chunked] sets [_chunked]. *)
Lemma header_line_sets_chunked line p p' :
  header_with (B "transfer-encoding") (B "chunked") line ->
  header_line line p = Ok p' -> _chunked p' = true.
Proof.
  intros (Hcolon & Hname & Htok). unfold header_line.
  destruct (Z.ltb_spec 0 (bytes_find (B ":") line)) as [_|?]; [|lia].
  apply bytes_eqb_eq in Hname. rewrite Hname, Htok.
  change (bytes_eqb (B "transfer-encoding") (B "content-length")) with false.
  change (bytes_eqb (B "transfer-encoding") (B "transfer-encoding")) with true.
  cbv beta iota. now intros [= <-].
Qed.

Lemma header_lines_sets_chunked pre line post p p' :
  Forall (fun l : bytes => l <> []) pre ->
  header_with (B "transfer-encoding") (B "chunked") line ->
  header_lines (pre ++ line :: post) p = Ok p' -> _chunked p' = true.
Proof.
  intros Hpre Hline. revert p.
  induction Hpre as [|l pre Hl Hpre IH]; intros p; simpl.
  - destruct line as [|c line].
    { destruct Hline as (Hcolon & _). vm_compute in Hcolon. discriminate. }
    destruct (header_line (c :: line) p) as [e|p1] eqn:E; simpl; [discriminate|].
    intros Hrest. eapply header_lines_keeps_chunked; [exact Hrest|].
    eapply header_line_sets_chunked; eauto.
  - destruct l as [|c l]; [congruence|].
    destruct (header_line (c :: l) p) as [e|p1] eqn:E; simpl; [discriminate|].
    apply IH.
Qed.

(** [C9] For every response whose header block parses and holds, among the
    lines the header loop reads, a [Transfer-Encoding] line with the token
    [chunked]: [_chunked] is set when the body is read, [parse] reads the
    body with the chunk loop, which always ends, and the result is what
    that loop gives, whatever [Content-Length] header the response carries
    and whatever value it has. *)
Theorem chunked_takes_precedence (buf hb rest : bytes) (p1 : t)
    (pre : list bytes) (line : bytes) (post : list bytes) :
  readuntil CRLFCRLF buf = (Ok hb, rest) ->
  parse_head buf = (Ok p1, rest) ->
  header_block_lines hb = pre ++ line :: post ->
  Forall (fun l : bytes => l <> []) pre ->
  header_with (B "transfer-encoding") (B "chunked") line ->
  _chunked p1 = true /\
  read_chunked_loop (S (length rest)) rest [] <> None /\
  parse buf = match _read_chunked rest with
              | (inl e, rest') => (Raise e, rest')
              | (inr b, rest') => (Ok (set_body b p1), rest')
              end.
Proof.
  intros Eru Eh Hlines Hpre Hte.
  assert (Hch : _chunked p1 = true).
  { unfold parse_head in Eh. rewrite Eru in Eh.
    destruct (status_parts hb !! 1%nat) as [code|]; [|discriminate].
    destruct (py_int is_space 10 code) as [status|]; [|discriminate].
    injection Eh as Eh. rewrite Hlines in Eh.
    eapply header_lines_sets_chunked; eauto. }
  split; [exact Hch|]. split.
  - apply read_chunked_loop_total. lia.
  - unfold parse. rewrite Eh. unfold parse_body. now rewrite Hch.
Qed.

Lemma chunked_takes_precedence_witness :
  exists p1,
    parse_head sample_response = (Ok p1, drop 66 sample_response) /\
    _content_length p1 = Some 3 /\
    _chunked p1 = true /\
    read_chunked_loop (S (length (drop 66 sample_response)))
      (drop 66 sample_response) [] <> None /\
    parse sample_response = (Ok (set_body (B "Hello, World") p1), []).
Proof.
  pose (p1 := {| status_code := 200; reason := "OK";
                 headers := [("Content-Length", "3");
                             ("Transfer-Encoding", "chunked")];
                 body := []; keep_alive := true;
                 _content_length := Some 3; _chunked := true |}).
  exists p1. split; [vm_compute; reflexivity|]. split; [reflexivity|].
  destruct (chunked_takes_precedence sample_response
              (take 66 sample_response) (drop 66 sample_response) p1
              [B "Content-Length: 3"] (B "Transfer-Encoding: chunked") [])
    as (Hch & Htot & Hparse).
  - vm_compute. reflexivity.
  - vm_compute. reflexivity.
  - vm_compute. reflexivity.
  - repeat constructor. discriminate.
  - repeat split; vm_compute; auto.
  - split; [exact Hch|]. split; [exact Htot|].
    rewrite Hparse. vm_compute. reflexivity.
Defined.

(** ** Redirects *)

Lemma request_exhausted {Json} `{Platform Json} (self : Session.t)
    (method url : string) (headers params : option (pydict string))
    (data : option Data) (json : option Json) (timeout : option Z)
    (verify : option bool) (allow_redirects : bool) (max_redirects : Z)
    (auth : option AuthBase) (w : World) r self' w' :
  Session.exchange self method url headers params data json timeout verify
    auth w = (Ok r, self', w') ->
  max_redirects <= 0 ->
  Session.request self method url headers params data json timeout verify
    allow_redirects max_redirects auth w = (Ok (fst (fst (fst r))), self', w').
Proof.
  intros E Hm. unfold Session.request.
  replace (Z.to_nat max_redirects) with O by lia.
  simpl. rewrite E. now destruct r as [[[response scheme] host] port].
Qed.

Lemma request_followed {Json} `{Platform Json} (self : Session.t)
    (method url : string) (headers params : option (pydict string))
    (data : option Data) (json : option Json) (timeout : option Z)
    (verify : option bool) (allow_redirects : bool) (max_redirects : Z)
    (auth : option AuthBase) (w : World)
    response scheme host port self' w' method' location :
  Session.exchange self method url headers params data json timeout verify
    auth w = (Ok (response, scheme, host, port), self', w') ->
  0 < max_redirects ->
  Session.next_hop allow_redirects true method scheme host port response
    = Some (method', location) ->
  Session.request self method url headers params data json timeout verify
    allow_redirects max_redirects auth w
  = Session.rewrap url
      (Session.request self' method' location headers None None None timeout
         verify true (max_redirects - 1) None w').
Proof.
  intros E Hm Hn. unfold Session.request.
  replace (Z.to_nat max_redirects) with (S (Z.to_nat (max_redirects - 1))) by lia.
  simpl. rewrite E, Hn. reflexivity.
Qed.

(** [C5] Let an exchange of [request] yield a response. If no hop is left
    ([max_redirects <= 0]), that response is returned as it is, with the
    session and the connections as the exchange left them: nothing more is
    sent. If hops are left, redirects are allowed and the response carries a
    non-empty [Location], then for status 303 the request goes on as a
    [GET] to the target, and for status 301, 302, 307 and 308 it goes on
    with the method it was called with; in both cases with one hop less. *)
Theorem redirect_policy {Json} `{Platform Json} (self : Session.t)
    (method url : string) (headers params : option (pydict string))
    (data : option Data) (json : option Json) (timeout : option Z)
    (verify : option bool) (allow_redirects : bool) (max_redirects : Z)
    (auth : option AuthBase) (w : World)
    (response : Response.t) (scheme host : string) (port : Z)
    (self' : Session.t) (w' : World) :
  Session.exchange self method url headers params data json timeout verify
    auth w = (Ok (response, scheme, host, port), self', w') ->
  (max_redirects <= 0 ->
     Session.request self method url headers params data json timeout verify
       allow_redirects max_redirects auth w = (Ok response, self', w')) /\
  (0 < max_redirects -> allow_redirects = true ->
   forall location,
     dict_get (Response.headers response) "Location" = Some location ->
     location <> "" ->
     let target :=
       if str_startswith "http" location then location
       else (scheme ++ "://" ++ host ++ ":" ++ Z_to_str port ++ location)%string in
     (Response.status_code response = 303 ->
        Session.request self method url headers params data json timeout
          verify allow_redirects max_redirects auth w
        = Session.rewrap url
            (Session.request self' "GET" target headers None None None
               timeout verify true (max_redirects - 1) None w')) /\
     (In (Response.status_code response) [301; 302; 307; 308] ->
        Session.request self method url headers params data json timeout
          verify allow_redirects max_redirects auth w
        = Session.rewrap url
            (Session.request self' method target headers None None None
               timeout verify true (max_redirects - 1) None w'))).
Proof.
  intros E. split.
  - intros Hm. now rewrite (request_exhausted _ _ _ _ _ _ _ _ _ _ _ _ _ _ _ _ E Hm).
  - intros Hm -> location Hloc Hne target.
    assert (Hnext : forall st, Response.status_code response = st ->
              In st [301; 302; 303; 307; 308] ->
              Session.next_hop true true method scheme host port response
              = Some (if st =? 303 then "GET" else method, target)).
    { intros st Hst Hin. unfold Session.next_hop, dict_get_default.
      rewrite Hst, Hloc.
      assert (Z_in st [301; 302; 303; 307; 308] = true) as ->.
      { simpl in Hin. unfold Z_in. simpl.
        repeat (destruct Hin as [<-|Hin]; [reflexivity|]). contradiction. }
      simpl. destruct location as [|c location]; [congruence|]. simpl.
      subst target. now destruct (str_startswith "http" (String c location)). }
    split.
    + intros Hst.
      rewrite (request_followed _ _ _ _ _ _ _ _ _ _ _ _ _ _ _ _ _ _ _ _ _ E Hm
                 (Hnext 303 Hst ltac:(simpl; tauto))).
      reflexivity.
    + intros Hin.
      assert (Hst : (Response.status_code response =? 303) = false).
      { simpl in Hin. apply Z.eqb_neq. lia. }
      rewrite (request_followed _ _ _ _ _ _ _ _ _ _ _ _ _ _ _ _ _ _ _ _ _ E Hm
                 (Hnext _ eq_refl ltac:(simpl in *; tauto))).
      now rewrite Hst.
Qed.

Lemma redirect_policy_witness :
  let post :=
    Session.exchange session0 "POST" "http://example.com/x" None None
      (Some (DataBytes (B "abc"))) None None None None world0 in
  let get_a :=
    Session.exchange session0 "GET" "http://example.com/a" None None None
      None None None None world0 in
  Session.request session0 "POST" "http://example.com/x" None None
    (Some (DataBytes (B "abc"))) None None None true 10 None world0
  = Session.rewrap "http://example.com/x"
      (Session.request (snd (fst post)) "GET" "http://example.com:80/y" None
         None None None None None true (10 - 1) None (snd post)) /\
  exists r,
    Session.request session0 "GET" "http://example.com/a" None None None None
      None None true 0 None world0 = (Ok r, snd (fst get_a), snd get_a) /\
    Response.status_code r = 302.
Proof.
  cbv zeta. split.
  - assert (Er : fst (fst (Session.exchange session0 "POST"
                             "http://example.com/x" None None
                             (Some (DataBytes (B "abc"))) None None None None
                             world0))
                 = Ok (Response.init 303
                         [("Location", "/y"); ("Content-Length", "0")] []
                         "http://example.com/x" "See Other" 0,
                       "http", "example.com", 80))
      by (vm_compute; reflexivity).
    destruct (Session.exchange session0 "POST" "http://example.com/x" None None
                (Some (DataBytes (B "abc"))) None None None None world0)
      as [[r s'] w'] eqn:E.
    simpl in Er. subst r.
    destruct (redirect_policy session0 "POST" "http://example.com/x" None None
                (Some (DataBytes (B "abc"))) None None None true 10 None world0
                _ _ _ _ s' w' E) as [_ Hfollow].
    destruct (Hfollow ltac:(lia) eq_refl "/y" eq_refl ltac:(discriminate))
      as [H303 _].
    exact (H303 eq_refl).
  - assert (Er : fst (fst (Session.exchange session0 "GET"
                             "http://example.com/a" None None None None None
                             None None world0))
                 = Ok (Response.init 302
                         [("Location", "/b"); ("Content-Length", "0")] []
                         "http://example.com/a" "Found" 0,
                       "http", "example.com", 80))
      by (vm_compute; reflexivity).
    destruct (Session.exchange session0 "GET" "http://example.com/a" None None
                None None None None None world0)
      as [[r s'] w'] eqn:E.
    simpl in Er. subst r.
    destruct (redirect_policy session0 "GET" "http://example.com/a" None None
                None None None None true 0 None world0
                _ _ _ _ s' w' E) as [Hstop _].
    eexists. split; [apply Hstop; lia|reflexivity].
Defined.

(** ** Pools are found by host, port and scheme alone *)

Lemma resolve_dns_fields {Json} `{Platform Json} (p : _ConnectionPool.t) w :
  let p' := snd (_ConnectionPool._resolve_dns p w) in
  _ConnectionPool.host p' = _ConnectionPool.host p /\
  _ConnectionPool.port p' = _ConnectionPool.port p /\
  _ConnectionPool.ssl_context p' = _ConnectionPool.ssl_context p.
Proof.
  unfold _ConnectionPool._resolve_dns.
  destruct (_ConnectionPool._dns_cache p) as [[|a infos]|];
    try destruct (monotonic w <? _ConnectionPool._dns_expire p);
    try destruct (getaddrinfo (_ConnectionPool.host p) (_ConnectionPool.port p));
    simpl; auto.
Qed.

Lemma create_connection_fields {Json} `{Platform Json} (p : _ConnectionPool.t) w :
  let p' := snd (fst (_ConnectionPool._create_connection p w)) in
  _ConnectionPool.ssl_context p' = _ConnectionPool.ssl_context p.
Proof.
  unfold _ConnectionPool._create_connection.
  pose proof (resolve_dns_fields p w) as (_ & _ & Hs). cbv zeta in Hs.
  destruct (_ConnectionPool._resolve_dns p w) as [[e|infos] p']; simpl in *; auto.
  destruct (_ConnectionPool.try_addresses p' infos None) as [e|[]]; simpl; auto.
Qed.

(** A connection that [_create_connection] opens is bound to the TLS
    context of the pool. *)
Lemma create_connection_context {Json} `{Platform Json} (p : _ConnectionPool.t)
    w rd wr p' w' :
  _ConnectionPool._create_connection p w = (Ok (rd, wr), p', w') ->
  peer w' !! wr
  = Some (_ConnectionPool.host p, _ConnectionPool.port p,
          _ConnectionPool.ssl_context p).
Proof.
  unfold _ConnectionPool._create_connection.
  pose proof (resolve_dns_fields p w) as (Hh & Hp & Hs). cbv zeta in *.
  destruct (_ConnectionPool._resolve_dns p w) as [[e|infos] p1]; simpl in *;
    [discriminate|].
  destruct (_ConnectionPool.try_addresses p1 infos None) as [e|[]];
    [discriminate|].
  intros [= <- <- <- <-]. simpl. rewrite lookup_insert_eq.
  now rewrite Hh, Hp, Hs.
Qed.

Lemma acquire_ssl_context {Json} `{Platform Json} (p : _ConnectionPool.t)
    timeout w :
  _ConnectionPool.ssl_context (snd (fst (_ConnectionPool.acquire p timeout w)))
  = _ConnectionPool.ssl_context p.
Proof.
  unfold _ConnectionPool.acquire.
  destruct (_ConnectionPool._closed p); [reflexivity|].
  destruct (_ConnectionPool.scan_available _ _ _ _) as [[[[rd wr]|] rest] w1];
    [reflexivity|].
  set (p1 := _ConnectionPool.set_creating _ _).
  assert (Hp1 : _ConnectionPool.ssl_context p1 = _ConnectionPool.ssl_context p)
    by reflexivity.
  assert (Hc : forall r : result (reader * writer) * _ConnectionPool.t * World,
             _ConnectionPool.ssl_context (snd (fst r))
             = _ConnectionPool.ssl_context p ->
             _ConnectionPool.ssl_context
               (snd (fst (let '(res, self2, w2) := r in
                          let self3 := _ConnectionPool.set_creating
                                         (_ConnectionPool._creating self2 - 1)
                                         self2 in
                          match res with
                          | inr (rd, wr) =>
                              (Ok (rd, wr),
                               _ConnectionPool.set_in_use
                                 ({[wr]} ∪ _ConnectionPool._in_use self3) self3,
                               w2)
                          | inl AsyncioTimeoutError =>
                              (Raise (TimeoutError
                                        ("Connection timeout to "
                                           ++ _ConnectionPool.host p ++ ":"
                                           ++ Z_to_str (_ConnectionPool.port p))),
                               self3, w2)
                          | inl e => (Raise e, self3, w2)
                          end)))
             = _ConnectionPool.ssl_context p).
  { intros [[[e|[rd wr]] self2] w2] Hr; simpl in *; [destruct e|]; simpl; auto. }
  apply Hc.
  destruct (truthy timeout).
  - unfold _ConnectionPool.wait_for_create.
    destruct (_ || _); [exact Hp1|].
    pose proof (resolve_dns_fields p1 w1) as (_ & _ & Hs). cbv zeta in Hs.
    destruct (_ConnectionPool._resolve_dns p1 w1) as [[e|infos] p'];
      cbn [fst snd] in Hs |- *; [congruence|].
    destruct (_ <? _); cbn [fst snd]; [congruence|].
    now rewrite create_connection_fields.
  - now rewrite create_connection_fields.
Qed.

Lemma release_ssl_context (p : _ConnectionPool.t) rd wr keep_alive w :
  _ConnectionPool.ssl_context
    (fst (_ConnectionPool.release p rd wr keep_alive w))
  = _ConnectionPool.ssl_context p.
Proof.
  unfold _ConnectionPool.release.
  repeat match goal with
         | |- context [if ?c then _ else _] => destruct c
         end; reflexivity.
Qed.

Lemma get_pool_present (self : Session.t) host port is_ssl verify pool :
  Session._pools self !! (host, port, is_ssl) = Some pool ->
  Session._get_pool self host port is_ssl verify = (pool, self).
Proof. intros E. unfold Session._get_pool. now rewrite E. Qed.

Lemma get_pool_absent (self : Session.t) host port is_ssl verify :
  Session._pools self !! (host, port, is_ssl) = None ->
  _ConnectionPool.ssl_context
    (fst (Session._get_pool self host port is_ssl verify))
  = (if is_ssl then Some (fst (Session._get_ssl_context self verify)) else None).
Proof.
  intros E. unfold Session._get_pool. rewrite E.
  destruct is_ssl; [|reflexivity].
  now destruct (Session._get_ssl_context self verify).
Qed.

Lemma get_pool_spec (self : Session.t) (host : string) (port : Z)
    (is_ssl verify : bool) :
  let pool := fst (Session._get_pool self host port is_ssl verify) in
  let self1 := snd (Session._get_pool self host port is_ssl verify) in
  Session._pools self1
  = <[(host, port, is_ssl) := pool]> (Session._pools self) /\
  Session._closed self1 = Session._closed self /\
  (Session._pools self !! (host, port, is_ssl) = Some pool \/
   (Session._pools self !! (host, port, is_ssl) = None /\
    _ConnectionPool._available pool = [] /\
    _ConnectionPool._in_use pool = ∅ /\
    _ConnectionPool._closed pool = false /\
    _ConnectionPool.max_size pool = Session._connector_limit_per_host self)).
Proof.
  cbv zeta. unfold Session._get_pool.
  destruct (Session._pools self !! (host, port, is_ssl)) as [pool|] eqn:E.
  - cbn [fst snd]. split; [now rewrite insert_id|]. split; [reflexivity|].
    now left.
  - destruct is_ssl.
    + unfold Session._get_ssl_context.
      destruct (Session._ssl_contexts self !! verify); cbn;
        (split; [reflexivity|]); (split; [reflexivity|]); right; auto.
    + cbn. split; [reflexivity|]. split; [reflexivity|]. right; auto.
Qed.

Lemma send_fields {Json} `{Platform Json} (rd : reader) (wr : writer)
    (request_bytes : bytes) (w : World) :
  next_conn (Session.send rd wr request_bytes w) = next_conn w /\
  closing (Session.send rd wr request_bytes w) = closing w.
Proof.
  unfold Session.send.
  destruct (default ("", 0, None) (peer w !! wr)) as [[? ?] ?].
  split; reflexivity.
Qed.

Lemma receive_fields (self : Session.t) (rd : reader) (w : World) :
  next_conn (snd (Session.receive self rd w)) = next_conn w /\
  closing (snd (Session.receive self rd w)) = closing w.
Proof.
  unfold Session.receive.
  destruct (Session._parser_class self (default [] (inbox w !! rd))).
  split; reflexivity.
Qed.

Lemma write_and_parse_fields {Json} `{Platform Json} (self : Session.t)
    (rd : reader) (wr : writer) (request_bytes : bytes) (w : World) :
  next_conn (snd (Session.write_and_parse self rd wr request_bytes w))
  = next_conn w /\
  closing (snd (Session.write_and_parse self rd wr request_bytes w))
  = closing w.
Proof.
  unfold Session.write_and_parse.
  destruct (send_fields rd wr request_bytes w) as (Hn & Hc).
  destruct (interrupt AtDrain _); [exact (conj Hn Hc)|].
  destruct (interrupt AtParse _); [exact (conj Hn Hc)|].
  destruct (receive_fields self rd (Session.send rd wr request_bytes w))
    as (Hn' & Hc').
  split; congruence.
Qed.

Lemma reraise_is_exception (url : string) (e : exn) :
  is_exception (Session.reraise url e) = is_exception e.
Proof. now destruct e. Qed.

(** The ways through one round of [request].
    - It stops before a pool is looked up: the session is closed or the
      builder raises.
    - [acquire] raises.
    - A connection is lent and the round is cancelled while it waits: the
      connection stays on loan.
    - A connection is lent, used and released, with [keep_alive=False] when
      an [Exception] was raised.
    In the last three the pool [_get_pool] gave is under its key
    afterwards, as [acquire] and [release] have left it. *)
Lemma exchange_cases {Json} `{Platform Json} (self : Session.t)
    (method url : string) (headers params : option (pydict string))
    (data : option Data) (json : option Json) (timeout : option Z)
    (verify : option bool) (auth : option AuthBase) (w : World) :
  let key := (default "" (hostname (urlparse url)),
              Session.target_port (urlparse url),
              String.eqb (scheme (urlparse url)) "https") in
  let g := Session._get_pool self (default "" (hostname (urlparse url)))
             (Session.target_port (urlparse url))
             (String.eqb (scheme (urlparse url)) "https")
             (default (Session.verify self) verify) in
  let built := Session._builder_class self (str_upper method)
                 (Session.target_path (urlparse url) params)
                 (fst (Session.prepare self url headers data json auth))
                 (snd (Session.prepare self url headers data json auth)) in
  let x := Session.exchange self method url headers params data json
             timeout verify auth w in
  ((Session._closed self = true \/ exists e, built = Raise e) /\
   (exists e, fst (fst x) = Raise e) /\
   snd (fst x) = self /\ snd x = w) \/
  (Session._closed self = false /\ (exists request_bytes, built = Ok request_bytes) /\
   exists tv r1 pool1 w1,
     _ConnectionPool.acquire (fst g) tv w = (r1, pool1, w1) /\
     match r1 with
     | inl e =>
         fst (fst x) = Raise (Session.reraise url e) /\
         snd (fst x)
         = Session.set_pools (<[key := pool1]> (Session._pools (snd g))) (snd g) /\
         snd x = w1
     | inr (rd, wr) =>
         exists w3,
           closing w3 = closing w1 /\ next_conn w3 = next_conn w1 /\
           (((exists e, fst (fst x) = Raise e /\ is_exception e = false) /\
             snd (fst x)
             = Session.set_pools (<[key := pool1]> (Session._pools (snd g)))
                 (snd g) /\
             snd x = w3)
            \/
            (exists keep_alive,
               (forall e, fst (fst x) = Raise e ->
                          keep_alive = false /\ is_exception e = true) /\
               snd (fst x)
               = Session.set_pools
                   (<[key := fst (_ConnectionPool.release pool1 rd wr
                                    keep_alive w3)]>
                      (Session._pools (snd g))) (snd g) /\
               snd x = snd (_ConnectionPool.release pool1 rd wr keep_alive w3)))
     end).
Proof.
  cbv zeta. unfold Session.exchange.
  destruct (Session._closed self) eqn:Ecl.
  { left. cbn. split; [now left|]. split; [eauto|]. split; reflexivity. }
  destruct (Session.prepare self url headers data json auth)
    as [req_headers body]. cbn [fst snd].
  destruct (Session._builder_class self _ _ _ _) as [e|request_bytes] eqn:Eb.
  { left. cbn. split; [right; eauto|]. split; [eauto|]. split; reflexivity. }
  right. split; [reflexivity|]. split; [eauto|].
  destruct (Session._get_pool self _ _ _ _) as [pool self1]. cbn [fst snd].
  match goal with
  | |- context [_ConnectionPool.acquire ?p ?t ?w0] =>
      exists t; destruct (_ConnectionPool.acquire p t w0) as [[r pool1] w1]
  end.
  exists r, pool1, w1. split; [reflexivity|].
  destruct r as [e|[rd wr]].
  - cbn. split; [reflexivity|]. split; reflexivity.
  - pose proof (write_and_parse_fields self rd wr request_bytes w1) as (Hn & Hc).
    destruct (Session.write_and_parse self rd wr request_bytes w1)
      as [[e|parser] w3]; cbn [snd] in Hn, Hc; exists w3;
      (split; [exact Hc|]); (split; [exact Hn|]).
    + destruct (is_exception e) eqn:Ee.
      * right. exists false. unfold Session.release_to.
        destruct (_ConnectionPool.release pool1 rd wr false w3) as [pool' w4].
        cbn. split; [|split; [|reflexivity]].
        -- intros e' [= <-]. split; [reflexivity|].
           now rewrite reraise_is_exception.
        -- now rewrite insert_insert_eq.
      * left. cbn. split; [eauto|]. split; reflexivity.
    + right. exists (parsed_keep_alive parser). unfold Session.release_to.
      destruct (_ConnectionPool.release pool1 rd wr _ w3) as [pool' w4].
      cbn. split; [|split; [|reflexivity]].
      * intros e' He'. discriminate He'.
      * now rewrite insert_insert_eq.
Qed.

(** What an exchange does to the session: nothing, when it stops before a
    pool is looked up; otherwise the pool [_get_pool] returns is under its
    key afterwards, with its TLS context as it was. *)
Lemma exchange_session {Json} `{Platform Json} (self : Session.t)
    (method url : string) (headers params : option (pydict string))
    (data : option Data) (json : option Json) (timeout : option Z)
    (verify : option bool) (auth : option AuthBase) (w : World) :
  let host := default "" (hostname (urlparse url)) in
  let port := Session.target_port (urlparse url) in
  let is_ssl := String.eqb (scheme (urlparse url)) "https" in
  let g := Session._get_pool self host port is_ssl
             (default (Session.verify self) verify) in
  let built := Session._builder_class self (str_upper method)
                 (Session.target_path (urlparse url) params)
                 (fst (Session.prepare self url headers data json auth))
                 (snd (Session.prepare self url headers data json auth)) in
  let s' := snd (fst (Session.exchange self method url headers params data
                        json timeout verify auth w)) in
  ((Session._closed self = true \/ exists e, built = Raise e) /\ s' = self) \/
  (Session._closed self = false /\ (exists request_bytes, built = Ok request_bytes) /\
   exists px,
     s' = Session.set_pools
            (<[(host, port, is_ssl) := px]> (Session._pools (snd g))) (snd g) /\
     _ConnectionPool.ssl_context px = _ConnectionPool.ssl_context (fst g)).
Proof.
  cbv zeta.
  destruct (exchange_cases self method url headers params data json timeout
              verify auth w)
    as [(Hstop & _ & Hs & _)
       |(Hopen & Hbuilt & tv & r1 & pool1 & w1 & Ea & Hr)].
  { left. split; assumption. }
  right. split; [exact Hopen|]. split; [exact Hbuilt|].
  pose proof (acquire_ssl_context
                (fst (Session._get_pool self (default "" (hostname (urlparse url)))
                        (Session.target_port (urlparse url))
                        (String.eqb (scheme (urlparse url)) "https")
                        (default (Session.verify self) verify))) tv w) as Hacq.
  rewrite Ea in Hacq. cbn [fst snd] in Hacq.
  destruct r1 as [e|[rd wr]].
  - destruct Hr as (_ & Hs & _). exists pool1. split; [exact Hs|exact Hacq].
  - destruct Hr as (w3 & _ & _ & [(_ & Hs & _)|(ka & _ & Hs & _)]).
    + exists pool1. split; [exact Hs|exact Hacq].
    + eexists. split; [exact Hs|].
      now rewrite release_ssl_context.
Qed.

(** [C8] Pools are looked up by (host, port, is_ssl) alone. Let a first
    request go to a host, port and scheme for which the session holds no
    pool, with verification setting [v1] (its [verify] argument, or the
    session's setting when it passes none), and let it get as far as the
    pool: the session is open and the builder returns. Then [_get_pool]
    makes a pool with the TLS context chosen for [v1] and stores it under
    the key, and the pool is under the key when the request is over; a
    second request to the same host, port and scheme gets that same pool
    from [_get_pool] whatever [verify] it passes, and leaves under the key
    a pool with the same TLS context; and every connection the pool opens
    is bound to the pool's context. *)
Theorem pool_reused_whatever_verify {Json} `{Platform Json}
    (self : Session.t)
    (method1 url1 : string) (headers1 params1 : option (pydict string))
    (data1 : option Data) (json1 : option Json) (timeout1 : option Z)
    (verify1 : option bool) (auth1 : option AuthBase) (w1 : World)
    (method2 url2 : string) (headers2 params2 : option (pydict string))
    (data2 : option Data) (json2 : option Json) (timeout2 : option Z)
    (verify2 : option bool) (auth2 : option AuthBase) (w2 : World)
    (request_bytes : bytes) :
  let host := default "" (hostname (urlparse url1)) in
  let port := Session.target_port (urlparse url1) in
  let is_ssl := String.eqb (scheme (urlparse url1)) "https" in
  let v1 := default (Session.verify self) verify1 in
  let g := Session._get_pool self host port is_ssl v1 in
  let s1 := snd (fst (Session.exchange self method1 url1 headers1 params1
                        data1 json1 timeout1 verify1 auth1 w1)) in
  let s2 := snd (fst (Session.exchange s1 method2 url2 headers2 params2
                        data2 json2 timeout2 verify2 auth2 w2)) in
  let ctx1 := if is_ssl then Some (fst (Session._get_ssl_context self v1))
              else None in
  default "" (hostname (urlparse url2)) = host ->
  Session.target_port (urlparse url2) = port ->
  String.eqb (scheme (urlparse url2)) "https" = is_ssl ->
  Session._pools self !! (host, port, is_ssl) = None ->
  Session._closed self = false ->
  Session._builder_class self (str_upper method1)
    (Session.target_path (urlparse url1) params1)
    (fst (Session.prepare self url1 headers1 data1 json1 auth1))
    (snd (Session.prepare self url1 headers1 data1 json1 auth1))
  = Ok request_bytes ->
  (Session._pools (snd g) !! (host, port, is_ssl) = Some (fst g) /\
   _ConnectionPool.ssl_context (fst g) = ctx1 /\
   forall v2, Session._get_pool (snd g) host port is_ssl v2 = g) /\
  exists p1,
    Session._pools s1 !! (host, port, is_ssl) = Some p1 /\
    _ConnectionPool.ssl_context p1 = ctx1 /\
    (forall v2, Session._get_pool s1 host port is_ssl v2 = (p1, s1)) /\
    (exists p2, Session._pools s2 !! (host, port, is_ssl) = Some p2 /\
                _ConnectionPool.ssl_context p2 = ctx1) /\
    (forall w rd wr p' w',
       _ConnectionPool._create_connection p1 w = (Ok (rd, wr), p', w') ->
       peer w' !! wr
       = Some (_ConnectionPool.host p1, _ConnectionPool.port p1, ctx1)).
Proof.
  cbv zeta. intros Hh Hp Hs Habsent Hopen Hbuilt.
  pose proof (get_pool_spec self (default "" (hostname (urlparse url1)))
                (Session.target_port (urlparse url1))
                (String.eqb (scheme (urlparse url1)) "https")
                (default (Session.verify self) verify1)) as (Hg & _ & _).
  pose proof (get_pool_absent self _ _ _
                (default (Session.verify self) verify1) Habsent) as Hgctx.
  pose proof (exchange_session self method1 url1 headers1 params1 data1 json1
                timeout1 verify1 auth1 w1) as Hfirst.
  cbv zeta in Hfirst.
  set (g := Session._get_pool self (default "" (hostname (urlparse url1)))
              (Session.target_port (urlparse url1))
              (String.eqb (scheme (urlparse url1)) "https")
              (default (Session.verify self) verify1)) in *.
  set (s1 := snd (fst (Session.exchange self method1 url1 headers1 params1
                         data1 json1 timeout1 verify1 auth1 w1))) in *.
  assert (Hstored : Session._pools (snd g)
                      !! (default "" (hostname (urlparse url1)),
                          Session.target_port (urlparse url1),
                          String.eqb (scheme (urlparse url1)) "https")
                    = Some (fst g)).
  { rewrite Hg. apply lookup_insert_eq. }
  split.
  { split; [exact Hstored|]. split; [exact Hgctx|].
    intros v2. rewrite (get_pool_present _ _ _ _ v2 _ Hstored).
    now destruct g. }
  destruct Hfirst as [([Hcl|(e & He)] & _)|(_ & _ & px & E & Hpx)];
    [congruence|congruence|].
  assert (Hp1 : Session._pools s1
                  !! (default "" (hostname (urlparse url1)),
                      Session.target_port (urlparse url1),
                      String.eqb (scheme (urlparse url1)) "https")
                = Some px).
  { rewrite E. cbn. apply lookup_insert_eq. }
  assert (Hctx : _ConnectionPool.ssl_context px
                 = (if String.eqb (scheme (urlparse url1)) "https"
                    then Some (fst (Session._get_ssl_context self
                                      (default (Session.verify self) verify1)))
                    else None)) by congruence.
  clearbody s1. exists px.
  split; [exact Hp1|]. split; [exact Hctx|]. split; [|split].
  - intros v2. now apply get_pool_present.
  - destruct (exchange_session s1 method2 url2 headers2 params2 data2 json2
                timeout2 verify2 auth2 w2)
      as [(_ & E2)|(_ & _ & px2 & E2 & Hpx2)];
      rewrite E2; rewrite ?Hh, ?Hp, ?Hs in *.
    + exists px. split; [exact Hp1|exact Hctx].
    + exists px2. split; [cbn; apply lookup_insert_eq|].
      rewrite Hpx2, (get_pool_present _ _ _ _ _ _ Hp1). exact Hctx.
  - intros w rd wr p' w' Hc.
    rewrite (create_connection_context _ _ _ _ _ _ Hc). now rewrite Hctx.
Qed.

Lemma pool_reused_whatever_verify_witness :
  let first :=
    Session.exchange session0 "GET" "https://example.com/c" None None None
      None None (Some true) None world0 in
  let s1 := snd (fst first) in
  let s2 := snd (fst (Session.exchange s1 "GET" "https://example.com/c" None
                        None None None None (Some false) None (snd first))) in
  exists p1 p2,
    Session._pools s1 !! ("example.com", 443, true) = Some p1 /\
    _ConnectionPool.ssl_context p1
      = Some {| check_hostname := true; verify_mode := CERT_REQUIRED |} /\
    Session._get_pool s1 "example.com" 443 true false = (p1, s1) /\
    Session._pools s2 !! ("example.com", 443, true) = Some p2 /\
    _ConnectionPool.ssl_context p2
      = Some {| check_hostname := true; verify_mode := CERT_REQUIRED |}.
Proof.
  cbv zeta.
  edestruct (pool_reused_whatever_verify session0
              "GET" "https://example.com/c" None None None None None
              (Some true) None world0
              "GET" "https://example.com/c" None None None None None
              (Some false) None
              (snd (Session.exchange session0 "GET" "https://example.com/c"
                      None None None None None (Some true) None world0)))
    as (_ & p1 & Hp1 & Hc & Hg & (p2 & Hp2 & Hc2) & _);
    [vm_compute; reflexivity|vm_compute; reflexivity|vm_compute; reflexivity
    |vm_compute; reflexivity|reflexivity|vm_compute; reflexivity|].
  exists p1, p2.
  split; [exact Hp1|]. split; [exact Hc|]. split; [exact (Hg false)|].
  split; [exact Hp2|exact Hc2].
Defined.

(** * Further properties *)

(** ** Response: status helpers *)

(** [X1] [raise_for_status] returns without raising exactly for the
    responses whose [ok] flag is set; for a status from 400 to 499 it raises
    [ClientError] and for a status of 500 or more [ServerError], each
    carrying the status code. *)
Theorem raise_for_status_iff_ok (status : Z) (hdrs : pydict string)
    (body : bytes) (url reason : string) (elapsed : Z) :
  let r := Response.init status hdrs body url reason elapsed in
  (Response.raise_for_status r = Ok tt <-> Response.ok r = true) /\
  (400 <= status < 500 ->
     exists msg, Response.raise_for_status r = Raise (ClientError msg status)) /\
  (500 <= status ->
     exists msg, Response.raise_for_status r = Raise (ServerError msg status)).
Proof.
  cbv zeta. unfold Response.raise_for_status. simpl.
  destruct (Z.leb_spec 400 status) as [H4|H4];
    destruct (Z.ltb_spec status 500) as [H5|H5];
    destruct (Z.leb_spec 500 status) as [H5'|H5'];
    destruct (Z.ltb_spec status 400) as [Hok|Hok]; simpl; try lia.
  - split; [split; discriminate|]. split; [eauto|lia].
  - split; [split; discriminate|]. split; [lia|eauto].
  - split; [split; reflexivity|]. split; lia.
Qed.

(** [X2] A permanent redirect is a redirect, and [request] goes on to a next
    hop only for a response whose [is_redirect] flag is set. *)
Theorem followed_only_if_redirect (status : Z) (hdrs : pydict string)
    (body : bytes) (url reason : string) (elapsed : Z)
    (allow_redirects hops_left : bool) (method scheme host : string) (port : Z) :
  let r := Response.init status hdrs body url reason elapsed in
  (Response.is_permanent_redirect r = true -> Response.is_redirect r = true) /\
  (forall hop,
     Session.next_hop allow_redirects hops_left method scheme host port r
     = Some hop ->
     Response.is_redirect r = true /\ allow_redirects = true /\
     hops_left = true /\
     exists location, dict_get hdrs "Location" = Some location /\
                      location <> "").
Proof.
  cbv zeta. split.
  - simpl. unfold Z_in. simpl.
    destruct (status =? 301); [reflexivity|]. simpl.
    destruct (status =? 302), (status =? 303), (status =? 307); simpl; auto.
  - intros hop. unfold Session.next_hop, Response.init.
    cbn [Response.status_code Response.headers Response.is_redirect].
    destruct allow_redirects; cbn [andb]; [|discriminate].
    destruct (Z_in status [301; 302; 303; 307; 308]); [|discriminate].
    destruct hops_left; [|discriminate].
    unfold dict_get_default.
    destruct (dict_get hdrs "Location") as [[|c location]|];
      cbn [str_nonempty]; try discriminate.
    intros _. repeat split; auto. eexists. split; [reflexivity|discriminate].
Qed.

(** ** Response: iterating over the body *)

(** [X3] [iter_content] with a chunk size of zero raises [ValueError] (the
    step of the range), and with a negative chunk size it yields nothing,
    whatever the body. *)
Theorem iter_content_nonpositive (r : Response.t) (chunk_size : Z) :
  (chunk_size = 0 ->
     exists msg, Response.iter_content r chunk_size = Raise (ValueError msg)) /\
  (chunk_size < 0 -> Response.iter_content r chunk_size = Ok []).
Proof.
  unfold Response.iter_content, py_range. split.
  - intros ->. simpl. eauto.
  - intros Hneg.
    destruct (Z.eqb_spec chunk_size 0) as [?|_]; [lia|].
    destruct (Z.ltb_spec 0 chunk_size) as [?|_]; [lia|].
    assert (Hq : (0 - py_len (Response._body r) - chunk_size - 1)
                   / - chunk_size <= 0).
    { apply Z.lt_succ_r. apply Z.div_lt_upper_bound; unfold py_len; lia. }
    replace (Z.to_nat ((0 - py_len (Response._body r) - chunk_size - 1)
                         / - chunk_size)) with O by lia.
    reflexivity.
Qed.

Lemma iter_content_nonpositive_witness :
  (exists msg,
     Response.iter_content (Response.init 200 [] (B "abc") "http://h/" "OK" 0) 0
     = Raise (ValueError msg)) /\
  Response.iter_content (Response.init 200 [] (B "abc") "http://h/" "OK" 0) (-2)
  = Ok [].
Proof.
  destruct (iter_content_nonpositive
              (Response.init 200 [] (B "abc") "http://h/" "OK" 0) 0) as [H0 _].
  destruct (iter_content_nonpositive
              (Response.init 200 [] (B "abc") "http://h/" "OK" 0) (-2)) as [_ Hn].
  split; [apply H0; reflexivity | apply Hn; lia].
Defined.

Lemma split_single_concat (d : byte) (l cur : bytes) :
  concat (split_aux [d] None l O cur)
  = rev cur ++ List.filter (fun c => negb (byte_eqb d c)) l.
Proof.
  revert cur. induction l as [|c l IH]; intros cur; simpl.
  - now rewrite !app_nil_r.
  - destruct (byte_eqb d c); simpl.
    + now rewrite IH.
    + rewrite IH. simpl. now rewrite <- app_assoc.
Qed.

Lemma split_single_pieces (d : byte) (l cur : bytes) :
  ~ In d cur ->
  Forall (fun piece : bytes => ~ In d piece) (split_aux [d] None l O cur).
Proof.
  revert cur. induction l as [|c l IH]; intros cur Hcur; simpl.
  - constructor; [|constructor]. now rewrite <- in_rev.
  - destruct (byte_eqb d c) eqn:E; simpl.
    + constructor; [now rewrite <- in_rev|]. apply IH. intros [].
    + apply IH. intros [->|Hin]; [|contradiction].
      unfold byte_eqb in E. rewrite (Byte.byte_dec_lb eq_refl) in E.
      discriminate.
Qed.

Lemma concat_filter_nonempty {A} (L : list (list A)) :
  concat (List.filter (fun l => match l with [] => false | _ => true end) L)
  = concat L.
Proof.
  induction L as [|[|x l] L IH]; simpl; auto. now rewrite IH.
Qed.

(** [X4] [iter_lines] with a delimiter of one byte yields lines that are not
    empty and do not hold the delimiter, and that put end to end give the
    body with the delimiter bytes taken out. For any delimiter no line
    yielded is empty, and an empty delimiter raises [ValueError]. *)
Theorem iter_lines_single_byte (r : Response.t) (d : byte) :
  (exists lines,
     Response.iter_lines r [d] = Ok lines /\
     concat lines
     = List.filter (fun c => negb (byte_eqb d c)) (Response.content r) /\
     Forall (fun line : bytes => line <> [] /\ ~ In d line) lines) /\
  (forall delimiter lines,
     Response.iter_lines r delimiter = Ok lines ->
     Forall (fun line : bytes => line <> []) lines) /\
  (exists msg, Response.iter_lines r [] = Raise (ValueError msg)).
Proof.
  split; [|split].
  - eexists. split; [reflexivity|]. split.
    + rewrite concat_filter_nonempty. unfold bytes_split.
      now rewrite split_single_concat.
    + apply List.Forall_forall. intros line Hin.
      apply filter_In in Hin as [Hin Hne]. split.
      * now destruct line.
      * pose proof (split_single_pieces d (Response._body r) [] (fun x => x)) as Hp.
        rewrite List.Forall_forall in Hp. now apply Hp.
  - intros [|c delimiter] lines; simpl; [discriminate|].
    intros [= <-]. apply List.Forall_forall. intros line Hin.
    apply filter_In in Hin as [_ Hne]. now destruct line.
  - simpl. eauto.
Qed.

(** ** The pool: acquire *)

Lemma is_closing_true_iff (x : writer) (w : World) :
  is_closing x w = true <-> x ∈ closing w.
Proof. unfold is_closing. apply bool_decide_eq_true. Qed.

Lemma close_if_open_fields (wr : writer) (w : World) :
  next_conn (close_if_open wr w) = next_conn w /\
  peer (close_if_open wr w) = peer w /\
  inbox (close_if_open wr w) = inbox w /\
  wire (close_if_open wr w) = wire w /\
  clock (close_if_open wr w) = clock w.
Proof. unfold close_if_open. destruct (negb (is_closing wr w)); simpl; auto. Qed.

Lemma close_if_open_closing (wr x : writer) (w : World) :
  is_closing x (close_if_open wr w) = true
  <-> x = wr \/ is_closing x w = true.
Proof.
  destruct (decide (x = wr)) as [->|Hne].
  - rewrite is_closing_close_if_open_same. tauto.
  - rewrite is_closing_close_if_open_other by exact Hne. tauto.
Qed.

(** What the scan of the idle list does: it splits the list into the
    entries it closes, the entry it returns if any, and the entries it
    leaves; it closes nothing but the former. *)
Lemma scan_available_spec (max_idle now : time)
    (avail : list (reader * writer * time)) (w : World) :
  exists pre found rest w1,
    _ConnectionPool.scan_available max_idle now avail w = (found, rest, w1) /\
    next_conn w1 = next_conn w /\ peer w1 = peer w /\ inbox w1 = inbox w /\
    wire w1 = wire w /\ clock w1 = clock w /\
    (forall x, is_closing x w1 = true
               <-> is_closing x w = true \/ x ∈ map (fun c => snd (fst c)) pre) /\
    match found with
    | Some (rd, wr) =>
        exists created,
          avail = pre ++ (rd, wr, created) :: rest /\
          is_closing wr w1 = false /\ now - created <= max_idle
    | None => avail = pre /\ rest = []
    end.
Proof.
  revert w. induction avail as [|[[rd wr] created] avail IH]; intros w; simpl.
  - exists [], None, [], w. repeat split; auto.
    intros [?|Hin]; [assumption|]. simpl in Hin. set_solver.
  - destruct (negb (is_closing wr w) && (now - created <=? max_idle)) eqn:E.
    + apply andb_prop in E as [Ecl Eage].
      exists [], (Some (rd, wr)), avail, w. repeat split; auto.
      * intros [?|Hin]; [assumption|]. simpl in Hin. set_solver.
      * exists created. repeat split.
        -- now destruct (is_closing wr w).
        -- now apply Z.leb_le.
    + destruct (IH (close_if_open wr w))
        as (pre & found & rest & w1 & Es & Hn & Hp & Hi & Hw & Hc & Hcl & Hf).
      destruct (close_if_open_fields wr w) as (Fn & Fp & Fi & Fw & Fc).
      exists ((rd, wr, created) :: pre), found, rest, w1.
      rewrite Es. repeat split; try congruence.
      * intros Hx. apply Hcl in Hx as [Hx|Hx].
        -- apply close_if_open_closing in Hx as [->|Hx]; [|now left].
           right. simpl. set_solver.
        -- right. simpl. set_solver.
      * intros [Hx|Hx]; apply Hcl.
        -- left. apply close_if_open_closing. now right.
        -- simpl in Hx. apply elem_of_cons in Hx as [->|Hx]; [|now right].
           left. apply close_if_open_closing. now left.
      * destruct found as [[rd' wr']|].
        -- destruct Hf as (created' & -> & Hf). exists created'. now split.
        -- destruct Hf as [-> ->]. now split.
Qed.

(** What opening a connection does to the pool and to the world. *)
Lemma create_connection_spec {Json} `{Platform Json}
    (p : _ConnectionPool.t) (w : World) :
  exists r p' w',
    _ConnectionPool._create_connection p w = (r, p', w') /\
    _ConnectionPool._available p' = _ConnectionPool._available p /\
    _ConnectionPool._in_use p' = _ConnectionPool._in_use p /\
    _ConnectionPool._creating p' = _ConnectionPool._creating p /\
    _ConnectionPool._closed p' = _ConnectionPool._closed p /\
    _ConnectionPool.max_size p' = _ConnectionPool.max_size p /\
    _ConnectionPool.max_idle_time p' = _ConnectionPool.max_idle_time p /\
    closing w' = closing w /\
    match r with
    | inr (rd, wr) =>
        rd = next_conn w /\ wr = next_conn w /\ next_conn w' = S (next_conn w)
    | inl _ => w' = w
    end.
Proof.
  unfold _ConnectionPool._create_connection, _ConnectionPool._resolve_dns.
  destruct (_ConnectionPool._dns_cache p) as [[|a infos]|];
    try destruct (monotonic w <? _ConnectionPool._dns_expire p);
    try destruct (getaddrinfo (_ConnectionPool.host p) (_ConnectionPool.port p))
      as [e|infos'];
    try (do 3 eexists; split; [reflexivity|]; simpl; repeat split; fail);
    match goal with
    | |- context [_ConnectionPool.try_addresses ?q ?l None] =>
        destruct (_ConnectionPool.try_addresses q l None) as [e'|[]]
    end;
    do 3 eexists; (split; [reflexivity|]); simpl; repeat split.
Qed.

Lemma acquire_unfold {Json} `{Platform Json} (p : _ConnectionPool.t)
    (timeout : option Z) (w : World) :
  _ConnectionPool.acquire p timeout w
  = if _ConnectionPool._closed p
    then (Raise (RuntimeError "Pool is closed"), p, w)
    else
      match _ConnectionPool.scan_available (_ConnectionPool.max_idle_time p)
              (monotonic w) (_ConnectionPool._available p) w with
      | (Some (rd, wr), rest, w1) =>
          (Ok (rd, wr),
           _ConnectionPool.set_in_use ({[wr]} ∪ _ConnectionPool._in_use p)
             (_ConnectionPool.set_available rest p), w1)
      | (None, rest, w1) =>
          let p1 := _ConnectionPool.set_creating (_ConnectionPool._creating p + 1)
                      (_ConnectionPool.set_available rest p) in
          after_create p
            (if truthy timeout
             then _ConnectionPool.wait_for_create p1 (default 0 timeout) w1
             else _ConnectionPool._create_connection p1 w1)
      end.
Proof.
  unfold _ConnectionPool.acquire, after_create.
  destruct (_ConnectionPool._closed p); [reflexivity|].
  destruct (_ConnectionPool.scan_available _ _ _ _) as [[[[rd wr]|] rest] w1];
    reflexivity.
Qed.

(** What the creation step of [acquire] gives, with or without a timeout. *)
Lemma resolve_dns_frame {Json} `{Platform Json} (p : _ConnectionPool.t)
    (w : World) :
  let p' := snd (_ConnectionPool._resolve_dns p w) in
  _ConnectionPool._available p' = _ConnectionPool._available p /\
  _ConnectionPool._in_use p' = _ConnectionPool._in_use p /\
  _ConnectionPool._creating p' = _ConnectionPool._creating p /\
  _ConnectionPool._closed p' = _ConnectionPool._closed p /\
  _ConnectionPool.max_size p' = _ConnectionPool.max_size p /\
  _ConnectionPool.max_idle_time p' = _ConnectionPool.max_idle_time p.
Proof.
  unfold _ConnectionPool._resolve_dns.
  destruct (_ConnectionPool._dns_cache p) as [[|a infos]|];
    try destruct (monotonic w <? _ConnectionPool._dns_expire p);
    try destruct (getaddrinfo (_ConnectionPool.host p) (_ConnectionPool.port p));
    cbn; tauto.
Qed.

Lemma create_step_spec {Json} `{Platform Json} (p1 : _ConnectionPool.t)
    (timeout : option Z) (w1 : World) :
  exists r p2 w2,
    (if truthy timeout
     then _ConnectionPool.wait_for_create p1 (default 0 timeout) w1
     else _ConnectionPool._create_connection p1 w1) = (r, p2, w2) /\
    _ConnectionPool._available p2 = _ConnectionPool._available p1 /\
    _ConnectionPool._in_use p2 = _ConnectionPool._in_use p1 /\
    _ConnectionPool._creating p2 = _ConnectionPool._creating p1 /\
    _ConnectionPool._closed p2 = _ConnectionPool._closed p1 /\
    _ConnectionPool.max_size p2 = _ConnectionPool.max_size p1 /\
    _ConnectionPool.max_idle_time p2 = _ConnectionPool.max_idle_time p1 /\
    closing w2 = closing w1 /\
    match r with
    | inr (rd, wr) =>
        rd = next_conn w1 /\ wr = next_conn w1 /\ next_conn w2 = S (next_conn w1)
    | inl _ => w2 = w1
    end.
Proof.
  destruct (truthy timeout); [|apply create_connection_spec].
  unfold _ConnectionPool.wait_for_create.
  destruct (_ || _).
  { exists (Raise AsyncioTimeoutError), p1, w1. repeat split. }
  pose proof (resolve_dns_frame p1 w1) as Hf. cbv zeta in Hf.
  destruct (_ConnectionPool._resolve_dns p1 w1) as [[e|infos] p2];
    cbn [fst snd] in Hf.
  { exists (Raise e), p2, w1. split; [reflexivity|]. tauto. }
  destruct (_ <? _); [|apply create_connection_spec].
  exists (Raise AsyncioTimeoutError), p2, w1. split; [reflexivity|]. tauto.
Qed.

(** The outcomes of [acquire]. In each of them the fields of the pool other
    than the idle list and the in-use set are as before, the entries [pre]
    popped off the idle list and not returned are closed, and nothing else
    is closed. *)
Lemma acquire_spec {Json} `{Platform Json} (p : _ConnectionPool.t)
    (timeout : option Z) (w : World) :
  exists r p' w' pre,
    _ConnectionPool.acquire p timeout w = (r, p', w') /\
    (_ConnectionPool._creating p' = _ConnectionPool._creating p /\
     _ConnectionPool._closed p' = _ConnectionPool._closed p /\
     _ConnectionPool.max_size p' = _ConnectionPool.max_size p /\
     _ConnectionPool.max_idle_time p' = _ConnectionPool.max_idle_time p) /\
    (forall x, is_closing x w' = true
               <-> is_closing x w = true \/ x ∈ map (fun c => snd (fst c)) pre) /\
    ((_ConnectionPool._closed p = true /\
      r = Raise (RuntimeError "Pool is closed") /\ p' = p /\ w' = w /\ pre = [])
     \/
     (_ConnectionPool._closed p = false /\
      exists rd wr created,
        r = Ok (rd, wr) /\
        _ConnectionPool._available p
        = pre ++ (rd, wr, created) :: _ConnectionPool._available p' /\
        _ConnectionPool._in_use p' = {[wr]} ∪ _ConnectionPool._in_use p /\
        next_conn w' = next_conn w /\
        is_closing wr w' = false /\
        monotonic w - created <= _ConnectionPool.max_idle_time p)
     \/
     (_ConnectionPool._closed p = false /\
      r = Ok (next_conn w, next_conn w) /\
      _ConnectionPool._available p = pre /\
      _ConnectionPool._available p' = [] /\
      _ConnectionPool._in_use p' = {[next_conn w]} ∪ _ConnectionPool._in_use p /\
      next_conn w' = S (next_conn w))
     \/
     (_ConnectionPool._closed p = false /\
      (exists e, r = Raise e) /\
      _ConnectionPool._available p = pre /\
      _ConnectionPool._available p' = [] /\
      _ConnectionPool._in_use p' = _ConnectionPool._in_use p /\
      next_conn w' = next_conn w)).
Proof.
  rewrite acquire_unfold.
  destruct (_ConnectionPool._closed p) eqn:Ecl.
  { exists (Raise (RuntimeError "Pool is closed")), p, w, [].
    split; [reflexivity|]. split; [auto|]. split.
    - intros x. simpl. set_solver.
    - left. auto. }
  destruct (scan_available_spec (_ConnectionPool.max_idle_time p) (monotonic w)
              (_ConnectionPool._available p) w)
    as (pre & found & rest & w1 & Es & Hn & _ & _ & _ & _ & Hcl & Hf).
  rewrite Es. destruct found as [[rd wr]|].
  - destruct Hf as (created & Hav & Hopen & Hage).
    do 3 eexists. exists pre. split; [reflexivity|]. simpl.
    split; [auto|]. split; [exact Hcl|].
    right; left. split; [reflexivity|]. exists rd, wr, created.
    repeat split; auto.
  - destruct Hf as [Hav ->]. cbv zeta.
    set (p1 := _ConnectionPool.set_creating (_ConnectionPool._creating p + 1)
                 (_ConnectionPool.set_available [] p)).
    destruct (create_step_spec p1 timeout w1)
      as (r & p2 & w2 & -> & A1 & A2 & A3 & A4 & A5 & A6 & A7 & A8).
    simpl in A1, A2, A3, A4, A5, A6.
    assert (Hcl' : forall x, is_closing x w2 = true
                             <-> is_closing x w = true
                                 \/ x ∈ map (fun c => snd (fst c)) pre).
    { intros x. rewrite <- Hcl. unfold is_closing. now rewrite A7. }
    unfold after_create. destruct r as [e|[rd wr]].
    + subst w2.
      exists (match e with
              | AsyncioTimeoutError =>
                  Raise (TimeoutError
                           ("Connection timeout to " ++ _ConnectionPool.host p
                              ++ ":" ++ Z_to_str (_ConnectionPool.port p)))
              | _ => Raise e
              end),
        (_ConnectionPool.set_creating (_ConnectionPool._creating p2 - 1) p2),
        w1, pre.
      split; [now destruct e|]. simpl.
      split; [split; [rewrite A3; lia|repeat split; congruence]|].
      split; [exact Hcl'|].
      right; right; right. split; [reflexivity|].
      split; [destruct e; eauto|]. repeat split; auto.
    + destruct A8 as (-> & -> & Hnext).
      do 3 eexists. exists pre. split; [reflexivity|]. simpl.
      split; [split; [rewrite A3; lia|repeat split; congruence]|].
      split; [exact Hcl'|].
      right; right; left. rewrite Hn, A2 in *. repeat split; auto.
Qed.

Lemma idle_writers_app (p : _ConnectionPool.t) pre c rest :
  _ConnectionPool._available p = pre ++ c :: rest ->
  idle_writers p
  = map (fun c : reader * writer * time => snd (fst c)) pre
      ++ snd (fst c) :: map (fun c : reader * writer * time => snd (fst c)) rest.
Proof. unfold idle_writers. intros ->. now rewrite map_app. Qed.

(** [X5] In a pool in good order, a connection that [acquire] hands out is
    open, is on loan and no longer idle, and the pool is in good order
    afterwards: a connection that was closed is never handed out, and none
    is handed out twice. *)
Theorem acquire_hands_out_live {Json} `{Platform Json}
    (p : _ConnectionPool.t) (timeout : option Z) (w : World)
    (rd : reader) (wr : writer) (p' : _ConnectionPool.t) (w' : World) :
  pool_wf p w ->
  _ConnectionPool.acquire p timeout w = (Ok (rd, wr), p', w') ->
  is_closing wr w' = false /\
  wr ∈ _ConnectionPool._in_use p' /\
  (wr ∉ idle_writers p') /\
  pool_wf p' w'.
Proof.
  intros (Hnd & Hdisj & Hbound & Hclb) E.
  destruct (acquire_spec p timeout w)
    as (r & p2 & w2 & pre & E' & _ & Hcl & Hcase).
  rewrite E in E'. injection E' as <- <- <-.
  assert (Hpre : forall x, is_closing x w' = true ->
                           x ∈ closing w \/
                           x ∈ map (fun c : reader * writer * time => snd (fst c)) pre).
  { intros x Hx. apply Hcl in Hx as [Hx|Hx]; [left|now right].
    now apply is_closing_true_iff. }
  destruct Hcase as [(_ & [=] & _)|[(_ & rd' & wr' & created & [= <- <-] & Hav
                                     & Hin & Hnx & Hopen & _)
                                   |[(_ & [= -> ->] & Hav & Hav' & Hin & Hnx)
                                    |(_ & [e [=]] & _)]]].
  - pose proof (idle_writers_app _ _ _ _ Hav) as Hiw. simpl in Hiw.
    fold (idle_writers p') in Hiw. rewrite Hiw in Hnd, Hdisj, Hbound.
    apply NoDup_app in Hnd as (Hnd1 & Hnd2 & Hnd3).
    apply NoDup_cons in Hnd3 as [Hnot Hnd3].
    split; [exact Hopen|]. split; [rewrite Hin; set_solver|].
    split; [exact Hnot|]. repeat split.
    + exact Hnd3.
    + intros x Hx. rewrite Hin. intros Hx'.
      apply elem_of_union in Hx' as [Hx'|Hx'].
      * apply elem_of_singleton in Hx'. subst. contradiction.
      * apply (Hdisj x); [|exact Hx']. set_solver.
    + intros x Hx. rewrite Hnx. apply Hbound. rewrite Hin in Hx.
      destruct Hx as [Hx|Hx]; [left; set_solver|].
      apply elem_of_union in Hx as [Hx|Hx]; [left; set_solver|now right].
    + intros x Hx. rewrite Hnx.
      destruct (Hpre x (proj2 (is_closing_true_iff x w') Hx)) as [Hc|Hc].
      * now apply Hclb.
      * apply Hbound. left. set_solver.
  - assert (Hiw' : idle_writers p' = []) by (unfold idle_writers; now rewrite Hav').
    assert (Hprew : forall x,
               x ∈ map (fun c : reader * writer * time => snd (fst c)) pre ->
               (x < next_conn w)%nat).
    { intros x Hx. apply Hbound. left. unfold idle_writers. now rewrite Hav. }
    split.
    { destruct (is_closing (next_conn w) w') eqn:Ec; [|reflexivity].
      destruct (Hpre _ Ec) as [Hc|Hc]; [apply Hclb in Hc|apply Hprew in Hc]; lia. }
    split; [rewrite Hin; set_solver|]. unfold pool_wf. rewrite Hiw'.
    split; [set_solver|]. repeat split.
    + apply NoDup_nil_2.
    + intros x Hx. set_solver.
    + intros x [Hx|Hx]; [set_solver|]. rewrite Hnx. rewrite Hin in Hx.
      apply elem_of_union in Hx as [Hx|Hx].
      * apply elem_of_singleton in Hx. lia.
      * assert (x < next_conn w)%nat by (apply Hbound; now right). lia.
    + intros x Hx. rewrite Hnx.
      destruct (Hpre x (proj2 (is_closing_true_iff x w') Hx)) as [Hc|Hc];
        [apply Hclb in Hc|apply Hprew in Hc]; lia.
Qed.

Lemma pool_room_wf : pool_wf pool_room world0.
Proof.
  unfold pool_wf, idle_writers. simpl. repeat split.
  - apply NoDup_singleton.
  - intros wr Hwr. apply list_elem_of_singleton in Hwr. subst. set_solver.
  - intros wr [Hwr|Hwr].
    + apply list_elem_of_singleton in Hwr. subst. lia.
    + apply elem_of_singleton in Hwr. subst. lia.
  - intros wr Hwr. set_solver.
Qed.

Lemma acquire_hands_out_live_witness :
  fst (fst (_ConnectionPool.acquire pool_room None world0))
    = Ok (0%nat, 0%nat) /\
  is_closing 0%nat (snd (_ConnectionPool.acquire pool_room None world0))
    = false /\
  0%nat ∈ _ConnectionPool._in_use
            (snd (fst (_ConnectionPool.acquire pool_room None world0))) /\
  (0%nat ∉ idle_writers
             (snd (fst (_ConnectionPool.acquire pool_room None world0)))) /\
  pool_wf (snd (fst (_ConnectionPool.acquire pool_room None world0)))
          (snd (_ConnectionPool.acquire pool_room None world0)).
Proof.
  assert (Er : fst (fst (_ConnectionPool.acquire pool_room None world0))
               = Ok (0%nat, 0%nat)) by (vm_compute; reflexivity).
  destruct (_ConnectionPool.acquire pool_room None world0) as [[r p'] w'] eqn:E.
  simpl in *. subst r. split; [reflexivity|].
  exact (acquire_hands_out_live pool_room None world0 0%nat 0%nat p' w'
           pool_room_wf E).
Defined.

(** [X6] [acquire] leaves the creation counter, the closed flag and the
    limits of the pool as they were, whether it returns or raises; the idle
    list afterwards is a tail of the idle list before; no connection that
    was closing is open afterwards; and when it raises, the in-use set is
    as before and no connection has been created. *)
Theorem acquire_frame {Json} `{Platform Json} (p : _ConnectionPool.t)
    (timeout : option Z) (w : World) :
  let p' := snd (fst (_ConnectionPool.acquire p timeout w)) in
  let w' := snd (_ConnectionPool.acquire p timeout w) in
  _ConnectionPool._creating p' = _ConnectionPool._creating p /\
  _ConnectionPool._closed p' = _ConnectionPool._closed p /\
  _ConnectionPool.max_size p' = _ConnectionPool.max_size p /\
  _ConnectionPool.max_idle_time p' = _ConnectionPool.max_idle_time p /\
  (exists popped,
     _ConnectionPool._available p = popped ++ _ConnectionPool._available p') /\
  (forall x, is_closing x w = true -> is_closing x w' = true) /\
  (forall e, fst (fst (_ConnectionPool.acquire p timeout w)) = Raise e ->
     _ConnectionPool._in_use p' = _ConnectionPool._in_use p /\
     next_conn w' = next_conn w).
Proof.
  cbv zeta.
  destruct (acquire_spec p timeout w)
    as (r & p' & w' & pre & -> & (F1 & F2 & F3 & F4) & Hcl & Hcase).
  simpl. repeat split; auto.
  - destruct Hcase as [(_ & _ & -> & _ & _)
                      |[(_ & rd & wr & created & _ & Hav & _)
                       |[(_ & _ & Hav & Hav' & _)|(_ & _ & Hav & Hav' & _)]]].
    + exists []. reflexivity.
    + exists (pre ++ [(rd, wr, created)]). now rewrite <- app_assoc.
    + exists pre. now rewrite Hav', app_nil_r.
    + exists pre. now rewrite Hav', app_nil_r.
  - intros x Hx. apply Hcl. now left.
  - destruct Hcase as [(_ & _ & -> & _ & _)
                      |[(_ & rd & wr & created & -> & _)
                       |[(_ & -> & _)|(_ & _ & _ & _ & Hin & _)]]];
      try discriminate; auto.
  - destruct Hcase as [(_ & _ & _ & -> & _)
                      |[(_ & rd & wr & created & -> & _)
                       |[(_ & -> & _)|(_ & _ & _ & _ & _ & Hnx)]]];
      try discriminate; auto.
Qed.

(** ** The pool: release and close *)

Lemma unloaned_in_use (p : _ConnectionPool.t) (wr x : writer) :
  x ∈ _ConnectionPool._in_use (unloaned p wr)
  <-> x ∈ _ConnectionPool._in_use p /\ x <> wr.
Proof.
  unfold unloaned. case_bool_decide; simpl; set_solver.
Qed.

(** [X7] [release] keeps a pool in good order, provided the connection
    released is one that exists and is not idle already. *)
Theorem release_keeps_order (p : _ConnectionPool.t) (rd : reader)
    (wr : writer) (keep_alive : bool) (w : World) :
  pool_wf p w ->
  wr ∉ idle_writers p ->
  (wr < next_conn w)%nat ->
  pool_wf (fst (_ConnectionPool.release p rd wr keep_alive w))
          (snd (_ConnectionPool.release p rd wr keep_alive w)).
Proof.
  intros (Hnd & Hdisj & Hbound & Hclb) Hnot Hlt.
  destruct (unloaned_fields p wr) as (Ha & _ & _ & Hnin).
  destruct (retained_dec p wr keep_alive w) as [R|NR].
  - rewrite (release_retained _ rd _ _ _ R). simpl.
    unfold pool_wf, idle_writers. simpl. fold (idle_writers p).
    repeat split.
    + apply NoDup_cons. split; assumption.
    + intros x Hx Hx'. apply unloaned_in_use in Hx' as [Hx' Hne].
      apply elem_of_cons in Hx as [->|Hx]; [congruence|].
      now apply (Hdisj x).
    + intros x [Hx|Hx].
      * apply elem_of_cons in Hx as [->|Hx]; [assumption|]. apply Hbound. now left.
      * apply unloaned_in_use in Hx as [Hx _]. apply Hbound. now right.
    + exact Hclb.
  - rewrite (release_dropped _ rd _ _ _ NR). simpl.
    destruct (close_if_open_fields wr w) as (Fn & _).
    unfold pool_wf, idle_writers. rewrite Ha, Fn. fold (idle_writers p).
    repeat split.
    + exact Hnd.
    + intros x Hx Hx'. apply unloaned_in_use in Hx' as [Hx' _].
      now apply (Hdisj x).
    + intros x [Hx|Hx]; [apply Hbound; now left|].
      apply unloaned_in_use in Hx as [Hx _]. apply Hbound. now right.
    + intros x Hx. apply is_closing_true_iff in Hx.
      apply close_if_open_closing in Hx as [->|Hx]; [assumption|].
      apply Hclb. now apply is_closing_true_iff.
Qed.

Lemma release_keeps_order_witness :
  pool_wf (fst (_ConnectionPool.release pool_room 0%nat 1%nat true world0))
          (snd (_ConnectionPool.release pool_room 0%nat 1%nat true world0)).
Proof.
  apply (release_keeps_order pool_room 0%nat 1%nat true world0 pool_room_wf).
  - unfold idle_writers. simpl. intros Hin.
    apply list_elem_of_singleton in Hin. discriminate.
  - simpl. lia.
Defined.

Lemma fold_close_spec {A} (f : A -> writer) (l : list A) (w : World) :
  let w' := fold_left (fun w c => close_if_open (f c) w) l w in
  next_conn w' = next_conn w /\ peer w' = peer w /\ inbox w' = inbox w /\
  wire w' = wire w /\ clock w' = clock w /\
  (forall x, is_closing x w' = true <-> is_closing x w = true \/ x ∈ map f l).
Proof.
  cbv zeta. revert w. induction l as [|c l IH]; intros w; simpl.
  - repeat split; auto. intros [?|Hx]; [assumption|set_solver].
  - destruct (IH (close_if_open (f c) w)) as (Hn & Hp & Hi & Hw & Hc & Hcl).
    destruct (close_if_open_fields (f c) w) as (Fn & Fp & Fi & Fw & Fc).
    repeat split; try congruence.
    + intros Hx. apply Hcl in Hx as [Hx|Hx]; [|right; set_solver].
      apply close_if_open_closing in Hx as [->|Hx]; [right; set_solver|now left].
    + intros [Hx|Hx]; apply Hcl.
      * left. apply close_if_open_closing. now right.
      * apply elem_of_cons in Hx as [->|Hx]; [|now right].
        left. apply close_if_open_closing. now left.
Qed.

(** What closing a pool does to the world. *)
Lemma pool_close_world (p : _ConnectionPool.t) (w : World) :
  let w' := snd (_ConnectionPool.close p w) in
  next_conn w' = next_conn w /\
  (forall x, is_closing x w' = true
             <-> is_closing x w = true \/ x ∈ idle_writers p
                 \/ x ∈ _ConnectionPool._in_use p).
Proof.
  cbv zeta. unfold _ConnectionPool.close. simpl.
  destruct (fold_close_spec (fun c : reader * writer * time => snd (fst c))
              (_ConnectionPool._available p) w) as (Hn & _ & _ & _ & _ & Hcl).
  destruct (fold_close_spec (fun wr : writer => wr)
              (elements (_ConnectionPool._in_use p))
              (fold_left (fun w c => close_if_open (snd (fst c)) w)
                         (_ConnectionPool._available p) w))
    as (Hn' & _ & _ & _ & _ & Hcl').
  cbv zeta in *. split; [congruence|].
  intros x. rewrite Hcl', Hcl, map_id, elem_of_elements.
  unfold idle_writers. tauto.
Qed.

(** [X8] [close] on a pool sets the closed flag and empties the idle list
    and the in-use set; afterwards the closing connections are those that
    were closing and all those the pool held, idle or on loan; and closing
    the pool again changes nothing. *)
Theorem pool_close_closes_all (p : _ConnectionPool.t) (w : World) :
  let p' := fst (_ConnectionPool.close p w) in
  let w' := snd (_ConnectionPool.close p w) in
  _ConnectionPool._closed p' = true /\
  _ConnectionPool._available p' = [] /\
  _ConnectionPool._in_use p' = ∅ /\
  (forall x, is_closing x w' = true
             <-> is_closing x w = true \/ x ∈ idle_writers p
                 \/ x ∈ _ConnectionPool._in_use p) /\
  _ConnectionPool.close p' w' = (p', w').
Proof.
  cbv zeta. split; [reflexivity|]. split; [reflexivity|].
  split; [reflexivity|]. split; [apply pool_close_world|].
  unfold _ConnectionPool.close at 1. simpl. now rewrite elements_empty.
Qed.

(** ** The pool: opening connections *)

Lemma try_addresses_ok_iff {Json} `{Platform Json} (p : _ConnectionPool.t)
    (infos : list string) (last_exc : option exn) :
  _ConnectionPool.try_addresses p infos last_exc = Ok tt
  <-> exists addr, addr ∈ infos /\ connects p addr = Ok tt.
Proof.
  revert last_exc. induction infos as [|addr infos IH]; intros last_exc; simpl.
  - split.
    + destruct last_exc; discriminate.
    + intros (addr & Hin & _). set_solver.
  - fold (connects p addr). destruct (connects p addr) as [e|[]] eqn:E.
    + rewrite IH. split.
      * intros (a & Hin & Ha). exists a. split; [set_solver|exact Ha].
      * intros (a & Hin & Ha). apply elem_of_cons in Hin as [->|Hin].
        -- congruence.
        -- eauto.
    + split; [|reflexivity]. intros _. exists addr. split; [set_solver|exact E].
Qed.

Lemma try_addresses_all_fail {Json} `{Platform Json} (p : _ConnectionPool.t)
    (infos : list string) (last_exc : option exn) :
  (forall addr, addr ∈ infos -> connects p addr <> Ok tt) ->
  _ConnectionPool.try_addresses p infos last_exc
  = match last (map (connects p) infos), last_exc with
    | Some (inl e), _ => Raise e
    | _, Some e => Raise e
    | _, None =>
        Raise (RuntimeError ("Could not connect to " ++ _ConnectionPool.host p
                               ++ ":" ++ Z_to_str (_ConnectionPool.port p)))
    end.
Proof.
  revert last_exc. induction infos as [|addr infos IH]; intros last_exc Hall.
  - simpl. now destruct last_exc.
  - simpl. fold (connects p addr).
    destruct (connects p addr) as [e|[]] eqn:E.
    + rewrite IH by (intros a Ha; apply Hall; set_solver).
      destruct infos as [|addr' infos]; [reflexivity|].
      change (last (inl e :: map (connects p) (addr' :: infos)))
        with (last (map (connects p) (addr' :: infos))).
      destruct (last (map (connects p) (addr' :: infos)))
        as [[e'|[]]|] eqn:El; try reflexivity.
      * exfalso. apply last_Some in El as (l' & El).
        assert (Hin : Ok tt ∈ map (connects p) (addr' :: infos))
          by (rewrite El; set_solver).
        apply list_elem_of_fmap in Hin as (a & Ha & Hin).
        apply (Hall a); [set_solver|now symmetry].
      * exfalso. apply last_None in El. discriminate El.
    + exfalso. apply (Hall addr); [set_solver|exact E].
Qed.

(** [X9] The candidate loop of [_create_connection] succeeds exactly when
    some resolved address connects. When every address fails it raises the
    exception of the last address, and with no address at all it raises
    [RuntimeError("Could not connect to host:port")]. *)
Theorem create_connection_candidates {Json} `{Platform Json}
    (p : _ConnectionPool.t) (infos : list string) :
  (_ConnectionPool.try_addresses p infos None = Ok tt
   <-> exists addr, addr ∈ infos /\ connects p addr = Ok tt) /\
  (_ConnectionPool.try_addresses p [] None
   = Raise (RuntimeError ("Could not connect to " ++ _ConnectionPool.host p
                            ++ ":" ++ Z_to_str (_ConnectionPool.port p)))) /\
  (forall others addr e,
     infos = others ++ [addr] ->
     (forall a, a ∈ infos -> connects p a <> Ok tt) ->
     connects p addr = Raise e ->
     _ConnectionPool.try_addresses p infos None = Raise e).
Proof.
  split; [apply try_addresses_ok_iff|]. split; [reflexivity|].
  intros others addr e -> Hall He.
  rewrite try_addresses_all_fail by exact Hall.
  rewrite map_app. simpl. now rewrite last_snoc, He.
Qed.

(** [X10] Once [_resolve_dns] has returned a non-empty address list, the
    pool holds that list with an expiry time later than the time of the
    call, and every call before the expiry time returns the same list and
    leaves the pool as it is, whatever a name resolution would give then. *)
Theorem dns_cache_served {Json1} (H1 : Platform Json1)
    {Json2} (H2 : Platform Json2)
    (p : _ConnectionPool.t) (w : World) (a : string) (infos : list string)
    (p1 : _ConnectionPool.t) :
  @_ConnectionPool._resolve_dns Json1 H1 p w = (Ok (a :: infos), p1) ->
  _ConnectionPool._dns_cache p1 = Some (a :: infos) /\
  clock w < _ConnectionPool._dns_expire p1 /\
  (forall w', clock w' < _ConnectionPool._dns_expire p1 ->
     @_ConnectionPool._resolve_dns Json2 H2 p1 w' = (Ok (a :: infos), p1)).
Proof.
  intros E.
  assert (Hc : _ConnectionPool._dns_cache p1 = Some (a :: infos) /\
               clock w < _ConnectionPool._dns_expire p1).
  { unfold _ConnectionPool._resolve_dns, monotonic in E.
    assert (Hfresh : forall r : result (list string) * _ConnectionPool.t,
               r = match @getaddrinfo Json1 H1 (_ConnectionPool.host p)
                           (_ConnectionPool.port p) with
                   | inl e => (Raise e, p)
                   | inr infos' =>
                       (Ok infos',
                        _ConnectionPool.set_dns (Some infos') (clock w + 60) p)
                   end ->
               r = (Ok (a :: infos), p1) ->
               _ConnectionPool._dns_cache p1 = Some (a :: infos) /\
               clock w < _ConnectionPool._dns_expire p1).
    { intros r -> Er.
      destruct (@getaddrinfo Json1 H1 (_ConnectionPool.host p) (_ConnectionPool.port p))
        as [e|infos']; [discriminate Er|].
      assert (infos' = a :: infos) by congruence. subst infos'.
      assert (p1 = _ConnectionPool.set_dns (Some (a :: infos)) (clock w + 60) p)
        by congruence.
      subst p1. simpl. split; [reflexivity|lia]. }
    destruct (_ConnectionPool._dns_cache p) as [[|a0 infos0]|] eqn:Ec;
      try (eapply Hfresh; [reflexivity|exact E]).
    destruct (Z.ltb_spec (clock w) (_ConnectionPool._dns_expire p));
      [|eapply Hfresh; [reflexivity|exact E]].
    assert (p1 = p) by congruence. subst p1.
    split; [congruence|assumption]. }
  destruct Hc as [Hc He]. split; [exact Hc|]. split; [exact He|].
  intros w' Hw'. unfold _ConnectionPool._resolve_dns, monotonic. rewrite Hc.
  destruct (Z.ltb_spec (clock w') (_ConnectionPool._dns_expire p1)); [reflexivity|lia].
Qed.

Lemma dns_cache_served_witness :
  let first := _ConnectionPool._resolve_dns pool_room world0 in
  fst first = Ok ["10.0.0.1"] /\
  _ConnectionPool._dns_cache (snd first) = Some ["10.0.0.1"] /\
  clock world0 < _ConnectionPool._dns_expire (snd first) /\
  (forall w', clock w' < _ConnectionPool._dns_expire (snd first) ->
     _ConnectionPool._resolve_dns (snd first) w' = (Ok ["10.0.0.1"], snd first)).
Proof.
  cbv zeta. split; [reflexivity|].
  apply (dns_cache_served demo_platform demo_platform pool_room world0).
  reflexivity.
Defined.

(** ** The parser: chunked bodies *)

Lemma find_single (d : byte) (pre rest : bytes) (i : Z) :
  ~ In d pre -> find_from [d] (pre ++ d :: rest) i = i + py_len pre.
Proof.
  revert i. induction pre as [|c pre IH]; intros i Hnot; simpl.
  - unfold byte_eqb. rewrite (Byte.byte_dec_lb eq_refl). simpl.
    unfold py_len. simpl. lia.
  - destruct (byte_eqb d c) eqn:E.
    + exfalso. apply Hnot. left. symmetry. now apply Byte.byte_dec_bl.
    + simpl. rewrite IH by (intros Hin; apply Hnot; now right).
      unfold py_len. simpl. lia.
Qed.

Lemma readline_line (pre rest : bytes) :
  ~ In LF pre -> py_len pre <= _DEFAULT_LIMIT ->
  readline (pre ++ LF :: rest) = (Ok (pre ++ [LF]), rest).
Proof.
  intros Hnot Hlim. unfold readline.
  assert (Hf : bytes_find [LF] (pre ++ LF :: rest) = py_len pre)
    by (unfold bytes_find; now rewrite find_single).
  rewrite readuntil_found by (rewrite Hf; unfold py_len in *; lia).
  rewrite Hf. unfold py_len. simpl.
  replace (Z.to_nat (Z.of_nat (length pre) + 1)) with (length pre + 1)%nat by lia.
  change (pre ++ LF :: rest) with (pre ++ [LF] ++ rest). rewrite app_assoc.
  rewrite take_app_length', drop_app_length'
    by (rewrite length_app; simpl; lia).
  reflexivity.
Qed.

Lemma readline_crlf (tok rest : bytes) :
  ~ In LF tok -> py_len tok < _DEFAULT_LIMIT ->
  readline (tok ++ CRLF ++ rest) = (Ok (tok ++ CRLF), rest).
Proof.
  intros Hnot Hlim.
  change (tok ++ CRLF ++ rest) with (tok ++ [CR] ++ LF :: rest).
  rewrite app_assoc, readline_line.
  - now rewrite <- app_assoc.
  - intros Hin. apply in_app_or in Hin as [Hin|[Hin|[]]]; [contradiction|discriminate].
  - unfold py_len in *. rewrite length_app. cbn [length]. lia.
Qed.

Lemma readexactly_prefix (data rest : bytes) :
  data <> [] -> readexactly (py_len data) (data ++ rest) = (Ok data, rest).
Proof.
  intros Hne.
  destruct (readexactly_cases (py_len data) (data ++ rest))
    as [(msg & _ & Hn)|[(_ & Hn)|(-> & _)]].
  - unfold py_len in Hn. lia.
  - unfold py_len in Hn. rewrite length_app in Hn. lia.
  - unfold py_len. rewrite Nat2Z.id. now rewrite take_app_length, drop_app_length.
Qed.

(** The joining of the chunks, with its shortcut for at most one chunk, is
    plain concatenation. *)
Lemma join_chunks_concat (chunks : list bytes) :
  join_chunks chunks = concat chunks.
Proof.
  unfold join_chunks, py_len. destruct chunks as [|c [|c' chunks]]; simpl.
  - reflexivity.
  - now rewrite app_nil_r.
  - destruct (Z.ltb_spec 1 (Z.of_nat (S (S (length chunks))))); [reflexivity|lia].
Qed.

Lemma read_chunked_loop_decodes (chunks : list (bytes * bytes))
    (last_tok trailer rest : bytes) (acc : list bytes) (fuel : nat) :
  (length chunks < fuel)%nat ->
  Forall well_formed_chunk chunks ->
  ~ In LF last_tok -> py_len last_tok < _DEFAULT_LIMIT ->
  chunk_size_of (last_tok ++ CRLF) = Some 0 ->
  ~ In LF trailer -> py_len trailer <= _DEFAULT_LIMIT ->
  read_chunked_loop fuel
    (flat_map chunk_wire chunks ++ last_tok ++ CRLF ++ trailer ++ [LF] ++ rest)
    acc
  = Some (Ok (concat (acc ++ map snd chunks)), rest).
Proof.
  intros Hfuel Hwf Hlast Hlastlen Hzero Htr Htrlen. revert acc fuel Hfuel.
  induction Hwf as [|[tok data] chunks (Htok & Htoklen & Hsize & Hdata) Hwf IH];
    intros acc fuel Hfuel; (destruct fuel as [|fuel]; [simpl in Hfuel; lia|]).
  - cbn [flat_map app read_chunked_loop].
    rewrite (readline_crlf last_tok _ Hlast Hlastlen). cbv beta iota.
    unfold chunk_size_of in Hzero. rewrite Hzero. cbv beta iota.
    change (0 =? 0) with true. cbv beta iota.
    rewrite (readline_line trailer rest Htr Htrlen).
    now rewrite join_chunks_concat, app_nil_r.
  - simpl in Hfuel. cbn [fst snd] in Htok, Htoklen, Hdata.
    cbn [flat_map]. unfold chunk_wire at 1. cbn [fst snd].
    rewrite <- !app_assoc. cbn [read_chunked_loop].
    rewrite (readline_crlf tok _ Htok Htoklen). cbv beta iota.
    unfold chunk_size_of in Hsize. cbn [fst snd] in Hsize.
    rewrite Hsize. cbv beta iota.
    assert (Hnz : (py_len data =? 0) = false).
    { apply Z.eqb_neq. unfold py_len. destruct data; [congruence|simpl; lia]. }
    rewrite Hnz. rewrite (readexactly_prefix data _ Hdata). cbv beta iota.
    change 2 with (py_len CRLF).
    rewrite (readexactly_prefix CRLF _ ltac:(discriminate)).
    cbv beta iota.
    rewrite (IH (acc ++ [data]) fuel ltac:(lia)).
    cbn [map snd]. now rewrite <- app_assoc.
Qed.

(** [X11] A chunked body made of well-formed chunks, a last chunk of size
    zero and one closing line, every line within the limit of the reader,
    is decoded by [_read_chunked] to the concatenation of the data of the
    chunks; the bytes after the closing line stay in the reader. *)
Theorem read_chunked_decodes (chunks : list (bytes * bytes))
    (last_tok trailer rest : bytes) :
  Forall well_formed_chunk chunks ->
  ~ In LF last_tok -> py_len last_tok < _DEFAULT_LIMIT ->
  chunk_size_of (last_tok ++ CRLF) = Some 0 ->
  ~ In LF trailer -> py_len trailer <= _DEFAULT_LIMIT ->
  _read_chunked
    (flat_map chunk_wire chunks ++ last_tok ++ CRLF ++ trailer ++ [LF] ++ rest)
  = (Ok (concat (map snd chunks)), rest).
Proof.
  intros Hwf Hlast Hlastlen Hzero Htr Htrlen. unfold _read_chunked.
  rewrite (read_chunked_loop_decodes chunks last_tok trailer rest [] _);
    auto.
  rewrite length_app.
  assert (length chunks <= length (flat_map chunk_wire chunks))%nat; [|lia].
  clear. induction chunks as [|[tok data] chunks IH]; simpl; [lia|].
  unfold chunk_wire at 1. rewrite !length_app. simpl. lia.
Qed.

Lemma read_chunked_decodes_witness :
  _read_chunked
    (flat_map chunk_wire hello_chunks ++ B "0" ++ CRLF ++ [CR] ++ [LF]
       ++ B "HTTP/1.1 200 OK")
  = (Ok (B "Hello, World"), B "HTTP/1.1 200 OK").
Proof.
  apply (read_chunked_decodes hello_chunks (B "0") [CR] (B "HTTP/1.1 200 OK")).
  - repeat constructor; simpl; try (vm_compute; reflexivity);
      try discriminate; intuition discriminate.
  - simpl. intuition discriminate.
  - vm_compute. reflexivity.
  - vm_compute. reflexivity.
  - simpl. intuition discriminate.
  - vm_compute. discriminate.
Defined.

(** ** Connections of a session *)

Lemma held_unfold (p : _ConnectionPool.t) (x : writer) :
  held p x <-> x ∈ idle_writers p \/ x ∈ _ConnectionPool._in_use p.
Proof. reflexivity. Qed.

Lemma acquire_held {Json} `{Platform Json} (p : _ConnectionPool.t)
    (timeout : option Z) (w : World) :
  let r := fst (fst (_ConnectionPool.acquire p timeout w)) in
  let p' := snd (fst (_ConnectionPool.acquire p timeout w)) in
  let w' := snd (_ConnectionPool.acquire p timeout w) in
  (next_conn w <= next_conn w')%nat /\
  (forall x, is_closing x w = true -> is_closing x w' = true) /\
  (forall x, held p x -> is_closing x w' = true \/ held p' x) /\
  (forall x, (next_conn w <= x < next_conn w')%nat -> held p' x) /\
  match r with
  | inr (_, wr) =>
      _ConnectionPool._in_use p' = {[wr]} ∪ _ConnectionPool._in_use p
  | inl _ => _ConnectionPool._in_use p' = _ConnectionPool._in_use p
  end.
Proof.
  cbv zeta.
  destruct (acquire_spec p timeout w)
    as (r & p' & w' & pre & E & _ & Hcl & Hcase).
  rewrite E. cbn [fst snd]. unfold held, idle_writers.
  destruct Hcase as [(_ & -> & -> & -> & _)
                    |[(_ & rd & wr & created & -> & Hav & Hin & Hn & _)
                    |[(_ & -> & Hav & Hav' & Hin & Hn)
                    |(_ & (e & ->) & Hav & Hav' & Hin & Hn)]]].
  - repeat split; auto; lia.
  - rewrite Hn, Hin, Hav. repeat split; [lia| |intros x|intros x; lia].
    + intros x Hx. apply Hcl. auto.
    + rewrite map_app, elem_of_app. cbn [map fst snd].
      rewrite elem_of_cons. intros [[Hx|[->|Hx]]|Hx].
      * left. apply Hcl. auto.
      * right. right. set_solver.
      * right. left. exact Hx.
      * right. right. set_solver.
  - rewrite Hn, Hin, Hav, Hav'. repeat split; [lia| |intros x|intros x].
    + intros x Hx. apply Hcl. auto.
    + intros [Hx|Hx]; [left; apply Hcl; auto|right; right; set_solver].
    + intros Hx. right. assert (x = next_conn w) as -> by lia. set_solver.
  - rewrite Hn, Hin, Hav, Hav'. repeat split; [lia| |intros x|intros x; lia].
    + intros x Hx. apply Hcl. auto.
    + intros [Hx|Hx]; [left; apply Hcl; auto|right; right; exact Hx].
Qed.

Lemma unloaned_in_use_eq (p : _ConnectionPool.t) (wr : writer) :
  _ConnectionPool._in_use (unloaned p wr)
  = _ConnectionPool._in_use p ∖ {[wr]}.
Proof.
  unfold unloaned. case_bool_decide; [reflexivity|]. set_solver.
Qed.

Lemma release_held (p : _ConnectionPool.t) (rd : reader) (wr : writer)
    (keep_alive : bool) (w : World) :
  let p' := fst (_ConnectionPool.release p rd wr keep_alive w) in
  let w' := snd (_ConnectionPool.release p rd wr keep_alive w) in
  next_conn w' = next_conn w /\
  (forall x, is_closing x w = true -> is_closing x w' = true) /\
  (forall x, held p x \/ x = wr -> is_closing x w' = true \/ held p' x) /\
  _ConnectionPool._in_use p' = _ConnectionPool._in_use p ∖ {[wr]}.
Proof.
  cbv zeta. destruct (unloaned_fields p wr) as (Ha & _ & _ & _).
  pose proof (unloaned_in_use_eq p wr) as Hu.
  destruct (retained_dec p wr keep_alive w) as [R|NR].
  - rewrite (release_retained _ rd _ _ _ R). cbn [fst snd].
    unfold held, idle_writers. cbn. rewrite Hu.
    repeat split; auto.
    intros x [[Hx|Hx]| ->].
    + right. left. apply elem_of_cons. now right.
    + destruct (decide (x = wr)) as [->|Hne].
      * right. left. apply elem_of_cons. now left.
      * right. right. set_solver.
    + right. left. apply elem_of_cons. now left.
  - rewrite (release_dropped _ rd _ _ _ NR). cbn [fst snd].
    destruct (close_if_open_fields wr w) as (Hn & _).
    unfold held, idle_writers. rewrite Ha, Hu.
    repeat split; auto.
    + intros x Hx. apply close_if_open_closing. now right.
    + intros x Hx. destruct (decide (x = wr)) as [->|Hne].
      * left. apply close_if_open_closing. now left.
      * right. destruct Hx as [[Hx|Hx]|Hx]; [now left|right; set_solver|done].
Qed.

Lemma is_closing_same (x : writer) (w w' : World) :
  closing w' = closing w -> is_closing x w' = is_closing x w.
Proof. unfold is_closing. now intros ->. Qed.

Lemma evolves_refl (s : Session.t) (w : World) : evolves s w s w.
Proof. unfold evolves. repeat split; auto. intros x Hx. lia. Qed.

Lemma evolves_trans (s1 s2 s3 : Session.t) (w1 w2 w3 : World) :
  evolves s1 w1 s2 w2 -> evolves s2 w2 s3 w3 -> evolves s1 w1 s3 w3.
Proof.
  intros (Hn1 & Hc1 & Hh1 & Hm1 & Hd1) (Hn2 & Hc2 & Hh2 & Hm2 & Hd2).
  unfold evolves. split; [lia|]. split; [auto|]. split; [|split].
  - intros x Hx. destruct (Hh1 x Hx) as [Hx1|Hx1]; [left; auto|auto].
  - intros x Hx. destruct (decide (x < next_conn w2)%nat) as [Hlt|Hge].
    + destruct (Hm1 x ltac:(lia)) as [Hx1|Hx1]; [left; auto|auto].
    + apply Hm2. lia.
  - congruence.
Qed.

(** The session after a round that got as far as the pool: the pool that
    [_get_pool] gave, as the round has left it, is under its key, and the
    other pools are as before. *)
Lemma put_after_get_pool (self : Session.t) (host : string) (port : Z)
    (is_ssl verify : bool) (pool' : _ConnectionPool.t) :
  let g := Session._get_pool self host port is_ssl verify in
  let s' := Session.set_pools
              (<[(host, port, is_ssl) := pool']> (Session._pools (snd g)))
              (snd g) in
  Session._pools s' = <[(host, port, is_ssl) := pool']> (Session._pools self) /\
  Session._closed s' = Session._closed self /\
  (Session._pools self !! (host, port, is_ssl) = Some (fst g) \/
   (Session._pools self !! (host, port, is_ssl) = None /\
    _ConnectionPool._available (fst g) = [] /\
    _ConnectionPool._in_use (fst g) = ∅)).
Proof.
  cbv zeta.
  destruct (get_pool_spec self host port is_ssl verify) as (Hp & Hc & Hcase).
  split; [|split].
  - cbn. rewrite Hp. apply insert_insert_eq.
  - exact Hc.
  - destruct Hcase as [?|(? & ? & ? & _)]; auto.
Qed.

(** The change of one pool of a session carries over to the session. *)
Lemma evolves_put (self s' : Session.t) (w w' : World)
    (key : string * Z * bool) (pool pool' : _ConnectionPool.t) :
  Session._pools s' = <[key := pool']> (Session._pools self) ->
  Session._closed s' = Session._closed self ->
  (Session._pools self !! key = Some pool \/
   (Session._pools self !! key = None /\
    _ConnectionPool._available pool = [] /\
    _ConnectionPool._in_use pool = ∅)) ->
  (next_conn w <= next_conn w')%nat ->
  (forall x, is_closing x w = true -> is_closing x w' = true) ->
  (forall x, held pool x -> is_closing x w' = true \/ held pool' x) ->
  (forall x, (next_conn w <= x < next_conn w')%nat ->
             is_closing x w' = true \/ held pool' x) ->
  evolves self w s' w'.
Proof.
  intros Hp Hc Hcase Hn Hcl Hheld Hnew. unfold evolves.
  split; [exact Hn|]. split; [exact Hcl|]. split; [|split].
  - intros x (key0 & pool0 & Hl & Hx).
    destruct (decide (key0 = key)) as [->|Hne].
    + destruct Hcase as [Hk|(Hk & _)]; [|congruence].
      assert (pool0 = pool) as -> by congruence.
      destruct (Hheld x Hx) as [?|Hx']; [now left|right].
      exists key, pool'. split; [|exact Hx']. rewrite Hp.
      apply lookup_insert_eq.
    + right. exists key0, pool0. split; [|exact Hx].
      rewrite Hp. now rewrite lookup_insert_ne.
  - intros x Hx. destruct (Hnew x Hx) as [?|Hx']; [now left|right].
    exists key, pool'. split; [|exact Hx']. rewrite Hp.
    apply lookup_insert_eq.
  - exact Hc.
Qed.

(** The loans of a session after the change of one pool. *)
Lemma loans_put (P : gset writer -> Prop) (self s' : Session.t)
    (key : string * Z * bool) (pool pool' : _ConnectionPool.t) :
  Session._pools s' = <[key := pool']> (Session._pools self) ->
  (forall key0 pool0, Session._pools self !! key0 = Some pool0 ->
                      P (_ConnectionPool._in_use pool0)) ->
  P (_ConnectionPool._in_use pool') ->
  forall key0 pool0, Session._pools s' !! key0 = Some pool0 ->
                     P (_ConnectionPool._in_use pool0).
Proof.
  intros Hp Hall Hnew key0 pool0 Hl. rewrite Hp in Hl.
  destruct (decide (key0 = key)) as [->|Hne].
  - rewrite lookup_insert_eq in Hl. now injection Hl as <-.
  - rewrite lookup_insert_ne in Hl by congruence. exact (Hall _ _ Hl).
Qed.

Lemma exchange_evolves {Json} `{Platform Json} (self : Session.t)
    (method url : string) (headers params : option (pydict string))
    (data : option Data) (json : option Json) (timeout : option Z)
    (verify : option bool) (auth : option AuthBase) (w : World) :
  evolves self w
    (snd (fst (Session.exchange self method url headers params data json
                 timeout verify auth w)))
    (snd (Session.exchange self method url headers params data json
            timeout verify auth w)).
Proof.
  destruct (exchange_cases self method url headers params data json timeout
              verify auth w)
    as [(_ & _ & Es & Ew)|(_ & _ & tv & r1 & pool1 & w1 & Ea & Hr)];
    [rewrite Es, Ew; apply evolves_refl|].
  match type of Ea with
  | _ConnectionPool.acquire (fst (Session._get_pool ?s ?h ?p ?i ?v)) _ _ = _ =>
      pose proof (fun pool' => put_after_get_pool s h p i v pool') as Hput;
      set (g := Session._get_pool s h p i v) in *
  end.
  cbv zeta in Hput.
  pose proof (acquire_held (fst g) tv w) as Ha. rewrite Ea in Ha.
  cbn [fst snd] in Ha. destruct Ha as (Hn & Hcl & Hheld & Hnew & Hin).
  destruct r1 as [e|[rd wr]].
  - destruct Hr as (_ & -> & ->).
    destruct (Hput pool1) as (Hp & Hc & Hcase).
    eapply (evolves_put _ _ _ _ _ (fst g) pool1);
      [exact Hp|exact Hc|exact Hcase|exact Hn|exact Hcl|exact Hheld|auto].
  - destruct Hr as (w3 & Hc3 & Hn3 & [(_ & -> & ->)|(ka & _ & -> & ->)]).
    + destruct (Hput pool1) as (Hp & Hc & Hcase).
      eapply (evolves_put _ _ _ _ _ (fst g) pool1);
        [exact Hp|exact Hc|exact Hcase|lia| | |].
      * intros x Hx. rewrite (is_closing_same x w1 w3 Hc3). auto.
      * intros x Hx. rewrite (is_closing_same x w1 w3 Hc3). auto.
      * intros x Hx. right. apply Hnew. lia.
    + pose proof (release_held pool1 rd wr ka w3) as Hr.
      destruct (_ConnectionPool.release pool1 rd wr ka w3) as [pool' w4].
      cbn [fst snd] in Hr |- *. destruct Hr as (Hn4 & Hcl4 & Hheld4 & Hin4).
      destruct (Hput pool') as (Hp & Hc & Hcase).
      eapply (evolves_put _ _ _ _ _ (fst g) pool');
        [exact Hp|exact Hc|exact Hcase|lia| | |].
      * intros x Hx. apply Hcl4. rewrite (is_closing_same x w1 w3 Hc3). auto.
      * intros x Hx. destruct (Hheld x Hx) as [Hx1|Hx1].
        -- left. apply Hcl4. now rewrite (is_closing_same x w1 w3 Hc3).
        -- apply Hheld4. now left.
      * intros x Hx. apply Hheld4. left. apply Hnew. lia.
Qed.

(** The loans after one round that started with none: none when the round
    returned or raised an [Exception], one at most when it was cancelled
    while it held a connection. *)
Lemma exchange_loans {Json} `{Platform Json} (self : Session.t)
    (method url : string) (headers params : option (pydict string))
    (data : option Data) (json : option Json) (timeout : option Z)
    (verify : option bool) (auth : option AuthBase) (w : World) :
  quiescent self ->
  at_most_one_on_loan
    (snd (fst (Session.exchange self method url headers params data json
                 timeout verify auth w))) /\
  ((forall e, fst (fst (Session.exchange self method url headers params data
                          json timeout verify auth w)) = Raise e ->
              is_exception e = true) ->
   quiescent
     (snd (fst (Session.exchange self method url headers params data json
                  timeout verify auth w)))).
Proof.
  intros Hq.
  assert (Hq1 : forall key0 pool0,
            Session._pools self !! key0 = Some pool0 ->
            (size (_ConnectionPool._in_use pool0) <= 1)%nat).
  { intros key0 pool0 Hl. rewrite (Hq _ _ Hl), size_empty. lia. }
  destruct (exchange_cases self method url headers params data json timeout
              verify auth w)
    as [(_ & _ & Es & Ew)|(_ & _ & tv & r1 & pool1 & w1 & Ea & Hr)];
    [rewrite Es; split; [exact Hq1|intros _; exact Hq]|].
  match type of Ea with
  | _ConnectionPool.acquire (fst (Session._get_pool ?s ?h ?p ?i ?v)) _ _ = _ =>
      pose proof (fun pool' => put_after_get_pool s h p i v pool') as Hput;
      set (g := Session._get_pool s h p i v) in *
  end.
  cbv zeta in Hput. unfold at_most_one_on_loan, quiescent.
  assert (Hg0 : _ConnectionPool._in_use (fst g) = ∅).
  { destruct (Hput (fst g)) as (_ & _ & [Hk|(_ & _ & Hk)]);
      [exact (Hq _ _ Hk)|exact Hk]. }
  pose proof (acquire_held (fst g) tv w) as Ha. rewrite Ea in Ha.
  cbn [fst snd] in Ha. destruct Ha as (_ & _ & _ & _ & Hin).
  destruct r1 as [e|[rd wr]].
  - destruct Hr as (_ & Hs & _). rewrite Hs.
    destruct (Hput pool1) as (Hp & _).
    assert (Hin1 : _ConnectionPool._in_use pool1 = ∅) by congruence.
    split; [|intros _].
    + apply (loans_put (fun u => (size u <= 1)%nat) _ _ _ (fst g) pool1 Hp Hq1).
      cbv beta. rewrite Hin1, size_empty. lia.
    + exact (loans_put (fun u => u = ∅) _ _ _ (fst g) pool1 Hp Hq Hin1).
  - destruct Hr as (w3 & _ & _ & [((e & He & Hne) & Hs & _)|(ka & _ & Hs & _)]).
    + rewrite Hs. destruct (Hput pool1) as (Hp & _). split.
      * apply (loans_put (fun u => (size u <= 1)%nat) _ _ _ (fst g) pool1 Hp Hq1).
        cbv beta. rewrite Hin, Hg0, union_empty_r_L, size_singleton. lia.
      * intros Hexc. rewrite (Hexc e He) in Hne. discriminate Hne.
    + rewrite Hs.
      pose proof (release_held pool1 rd wr ka w3) as (_ & _ & _ & Hin4).
      cbv zeta in Hin4.
      destruct (Hput (fst (_ConnectionPool.release pool1 rd wr ka w3)))
        as (Hp & _).
      assert (Hin' : _ConnectionPool._in_use
                       (fst (_ConnectionPool.release pool1 rd wr ka w3)) = ∅).
      { rewrite Hin4, Hin, Hg0. set_solver. }
      split; [|intros _].
      * apply (loans_put (fun u => (size u <= 1)%nat) _ _ _ (fst g) _ Hp Hq1).
        cbv beta. rewrite Hin', size_empty. lia.
      * exact (loans_put (fun u => u = ∅) _ _ _ (fst g) _ Hp Hq Hin').
Qed.

Lemma request_hops_evolves {Json} `{Platform Json} (hops : nat)
    (self : Session.t) (method url : string)
    (headers params : option (pydict string)) (data : option Data)
    (json : option Json) (timeout : option Z) (verify : option bool)
    (allow_redirects : bool) (auth : option AuthBase) (w : World) :
  evolves self w
    (snd (fst (Session.request_hops hops self method url headers params data
                 json timeout verify allow_redirects auth w)))
    (snd (Session.request_hops hops self method url headers params data
            json timeout verify allow_redirects auth w)).
Proof.
  revert self method url params data json allow_redirects auth w.
  induction hops as [|hops IH]; intros; cbn [Session.request_hops];
    pose proof (exchange_evolves self method url headers params data json
                  timeout verify auth w) as He;
    destruct (Session.exchange self method url headers params data json
                timeout verify auth w) as [[[e|[[[response sch] host] port]] s1] w1];
    cbn [fst snd] in He |- *; try exact He.
  destruct (Session.next_hop allow_redirects true method sch host port response)
    as [[method' location]|]; [|exact He].
  specialize (IH s1 method' location None None None true None w1).
  unfold Session.rewrap.
  destruct (Session.request_hops hops s1 method' location headers None None
              None timeout verify true None w1) as [[[e|r] s2] w2];
    cbn [fst snd] in IH |- *; exact (evolves_trans _ _ _ _ _ _ He IH).
Qed.

Lemma request_hops_loans {Json} `{Platform Json} (hops : nat)
    (self : Session.t) (method url : string)
    (headers params : option (pydict string)) (data : option Data)
    (json : option Json) (timeout : option Z) (verify : option bool)
    (allow_redirects : bool) (auth : option AuthBase) (w : World) :
  quiescent self ->
  at_most_one_on_loan
    (snd (fst (Session.request_hops hops self method url headers params data
                 json timeout verify allow_redirects auth w))) /\
  ((forall e, fst (fst (Session.request_hops hops self method url headers
                          params data json timeout verify allow_redirects
                          auth w)) = Raise e ->
              is_exception e = true) ->
   quiescent
     (snd (fst (Session.request_hops hops self method url headers params data
                  json timeout verify allow_redirects auth w)))).
Proof.
  revert self method url params data json allow_redirects auth w.
  assert (Hraise : forall (e : exn) (s1 : Session.t),
            at_most_one_on_loan s1 ->
            ((forall e0, @inl exn (Response.t * string * string * Z) e = Raise e0 ->
                         is_exception e0 = true) -> quiescent s1) ->
            at_most_one_on_loan s1 /\
            ((forall e0, @inl exn Response.t e = Raise e0 ->
                         is_exception e0 = true) -> quiescent s1)).
  { intros e s1 Hone Hnone. split; [exact Hone|].
    intros Hexc. apply Hnone. intros e0 [= <-]. now apply Hexc. }
  assert (Hok : forall (r : Response.t) (s1 : Session.t),
            at_most_one_on_loan s1 -> quiescent s1 ->
            at_most_one_on_loan s1 /\
            ((forall e0, @inr exn Response.t r = Raise e0 ->
                         is_exception e0 = true) -> quiescent s1)).
  { intros r s1 Hone Hq1. split; [exact Hone|]. intros _. exact Hq1. }
  induction hops as [|hops IH]; intros self method url params data json
    allow_redirects auth w Hq; cbn [Session.request_hops];
    pose proof (exchange_loans self method url headers params data json
                  timeout verify auth w Hq) as (Hone & Hnone);
    destruct (Session.exchange self method url headers params data json
                timeout verify auth w) as [[[e|[[[response sch] host] port]] s1] w1];
    cbn [fst snd] in Hone, Hnone |- *.
  - now apply Hraise.
  - apply Hok; [exact Hone|]. apply Hnone. intros e He. discriminate He.
  - now apply Hraise.
  - assert (Hq1 : quiescent s1) by (apply Hnone; intros e He; discriminate He).
    destruct (Session.next_hop allow_redirects true method sch host port response)
      as [[method' location]|]; [|now apply Hok].
    specialize (IH s1 method' location None None None true None w1 Hq1).
    unfold Session.rewrap.
    destruct (Session.request_hops hops s1 method' location headers None None
                None timeout verify true None w1) as [[[e2|r] s2] w2];
      cbn [fst snd] in IH |- *; destruct IH as (IH1 & IH2);
      (split; [exact IH1|]); intros Hexc; apply IH2.
    + intros e' [= <-]. rewrite <- (reraise_is_exception url e2). now apply Hexc.
    + intros e' He'. discriminate He'.
Qed.

Lemma session_close_world (s : Session.t) (w : World) :
  Session._closed s = false ->
  next_conn (snd (Session.close s w)) = next_conn w /\
  (forall x, is_closing x (snd (Session.close s w)) = true
             <-> is_closing x w = true \/ holds s x).
Proof.
  intros Hopen. unfold Session.close. rewrite Hopen. cbn [fst snd].
  change (Session._pools (Session.set_closed true s)) with (Session._pools s).
  unfold holds.
  apply (map_fold_weak_ind
           (fun (r : World) (m : gmap (string * Z * bool) _ConnectionPool.t) =>
              next_conn r = next_conn w /\
              (forall x, is_closing x r = true
                         <-> is_closing x w = true \/
                             exists key pool, m !! key = Some pool /\
                                              held pool x))).
  - split; [reflexivity|]. intros x. split; [now left|].
    intros [Hx|(key & pool & Hl & _)]; [exact Hx|].
    rewrite lookup_empty in Hl. discriminate Hl.
  - intros key pool m r Hnone (Hn & Hcl).
    destruct (pool_close_world pool r) as (Hn' & Hcl').
    split; [congruence|]. intros x. rewrite Hcl', Hcl. split.
    + intros [[Hx|(key0 & pool0 & Hl & Hx)]|Hx].
      * now left.
      * right. exists key0, pool0. split; [|exact Hx].
        rewrite lookup_insert_ne; [exact Hl|congruence].
      * right. exists key, pool. split; [apply lookup_insert_eq|exact Hx].
    + intros [Hx|(key0 & pool0 & Hl & Hx)]; [now left; left|].
      destruct (decide (key0 = key)) as [->|Hne].
      * rewrite lookup_insert_eq in Hl. injection Hl as <-. now right.
      * rewrite lookup_insert_ne in Hl by congruence.
        left. right. now exists key0, pool0.
Qed.

(** [X12] A request that returns, or raises an [Exception], leaves no
    connection on loan: if no pool of the session has a connection on loan
    before [request], none has one afterwards, however many redirects it
    followed. A request that is cancelled (it raises [CancelledError], which
    the [except] clauses do not catch) can leave the connection it held on
    loan, and no more than that one. *)
Theorem request_leaves_nothing_on_loan {Json} `{Platform Json}
    (self : Session.t) (method url : string)
    (headers params : option (pydict string)) (data : option Data)
    (json : option Json) (timeout : option Z) (verify : option bool)
    (allow_redirects : bool) (max_redirects : Z) (auth : option AuthBase)
    (w : World) :
  quiescent self ->
  at_most_one_on_loan
    (snd (fst (Session.request self method url headers params data json
                 timeout verify allow_redirects max_redirects auth w))) /\
  ((forall e, fst (fst (Session.request self method url headers params data
                          json timeout verify allow_redirects max_redirects
                          auth w)) = Raise e ->
              is_exception e = true) ->
   quiescent
     (snd (fst (Session.request self method url headers params data json
                  timeout verify allow_redirects max_redirects auth w)))).
Proof.
  intros Hq. unfold Session.request.
  exact (request_hops_loans (Z.to_nat max_redirects) self method url headers
           params data json timeout verify allow_redirects auth w Hq).
Qed.

Lemma request_leaves_nothing_on_loan_witness :
  quiescent (snd (fst (Session.request session0 "GET" "http://example.com/a"
                         None None None None None None true 10 None world0)))
  /\
  (exists key pool,
     Session._pools
       (snd (fst (@Session.request string cancelling_platform session0 "GET"
                    "http://example.com/a" None None None None None None
                    true 10 None world0))) !! key = Some pool /\
     _ConnectionPool._in_use pool = {[2%nat]}) /\
  at_most_one_on_loan
    (snd (fst (@Session.request string cancelling_platform session0 "GET"
                 "http://example.com/a" None None None None None None
                 true 10 None world0))).
Proof.
  assert (Hq0 : quiescent session0).
  { intros key pool Hl. unfold session0, Session.init in Hl.
    cbn [Session._pools] in Hl. rewrite lookup_empty in Hl. discriminate Hl. }
  split; [|split].
  - apply (request_leaves_nothing_on_loan session0 "GET" "http://example.com/a"
             None None None None None None true 10 None world0 Hq0).
    intros e He. vm_compute in He. discriminate He.
  - exists ("example.com", 80, false).
    destruct (Session._pools
                (snd (fst (@Session.request string cancelling_platform
                             session0 "GET" "http://example.com/a" None None
                             None None None None true 10 None world0)))
                !! ("example.com", 80, false)) as [pool|] eqn:E;
      [|vm_compute in E; discriminate E].
    exists pool. split; [reflexivity|].
    vm_compute in E. injection E as <-. reflexivity.
  - apply (@request_leaves_nothing_on_loan string cancelling_platform session0
             "GET" "http://example.com/a" None None None None None None true
             10 None world0 Hq0).
Defined.

(** [X13] A request loses track of no connection: if every connection made
    from some number on is closing or held by a pool of the session before
    [request], the same holds afterwards, the connections made by the
    request included; connections are never unmade and closing ones stay
    closing. *)
Theorem request_accounts_for_connections {Json} `{Platform Json}
    (self : Session.t) (method url : string)
    (headers params : option (pydict string)) (data : option Data)
    (json : option Json) (timeout : option Z) (verify : option bool)
    (allow_redirects : bool) (max_redirects : Z) (auth : option AuthBase)
    (w : World) (n0 : nat) :
  accounted n0 self w ->
  accounted n0
    (snd (fst (Session.request self method url headers params data json
                 timeout verify allow_redirects max_redirects auth w)))
    (snd (Session.request self method url headers params data json
            timeout verify allow_redirects max_redirects auth w)) /\
  (next_conn w
   <= next_conn (snd (Session.request self method url headers params data
                        json timeout verify allow_redirects max_redirects
                        auth w)))%nat /\
  (forall x, is_closing x w = true ->
     is_closing x (snd (Session.request self method url headers params data
                          json timeout verify allow_redirects max_redirects
                          auth w)) = true).
Proof.
  intros Hacc. unfold Session.request.
  destruct (request_hops_evolves (Z.to_nat max_redirects) self method url
              headers params data json timeout verify allow_redirects auth w)
    as (Hn & Hcl & Hheld & Hnew & _).
  split; [|split; [exact Hn|exact Hcl]].
  intros x Hx. destruct (decide (x < next_conn w)%nat) as [Hlt|Hge].
  - destruct (Hacc x ltac:(lia)) as [Hc|Hh]; [left; auto|auto].
  - apply Hnew. lia.
Qed.

Lemma request_accounts_for_connections_witness :
  accounted 2
    (snd (fst (Session.request session0 "GET" "http://example.com/a" None
                 None None None None None true 10 None world0)))
    (snd (Session.request session0 "GET" "http://example.com/a" None None
            None None None None true 10 None world0)).
Proof.
  apply (request_accounts_for_connections session0 "GET"
           "http://example.com/a" None None None None None None true 10 None
           world0 2).
  intros x Hx. simpl in Hx. lia.
Defined.

(** [X14] [close] on an open session closes every connection its pools hold,
    idle or on loan, and no other; it makes no connection, empties the pool
    table and sets the closed flag. On a closed session it does nothing, so
    closing twice is closing once. *)
Theorem session_close_closes_all (s : Session.t) (w : World) :
  let s' := fst (Session.close s w) in
  let w' := snd (Session.close s w) in
  Session._closed s' = true /\
  (Session._closed s = false ->
     Session._pools s' = ∅ /\ next_conn w' = next_conn w /\
     (forall x, is_closing x w' = true <-> is_closing x w = true \/ holds s x)) /\
  (Session._closed s = true -> s' = s /\ w' = w) /\
  Session.close s' w' = (s', w').
Proof.
  cbv zeta. split; [apply session_close_closed|]. split; [|split].
  - intros Hopen. split.
    + unfold Session.close. rewrite Hopen. reflexivity.
    + apply session_close_world. exact Hopen.
  - intros Hcl. unfold Session.close. rewrite Hcl. split; reflexivity.
  - pose proof (session_close_closed s w) as Hcl.
    unfold Session.close at 1. rewrite Hcl. reflexivity.
Qed.

(** [X15] The function [request] of the module leaks no connection: when it
    is over, whether it returned a response or raised, every connection
    made during the call is closing. It unmakes no connection and reopens
    none. *)
Theorem module_request_closes_connections {Json} `{Platform Json}
    (method url : string) (headers params : option (pydict string))
    (data : option Data) (json : option Json) (timeout : option Z)
    (verify : option bool) (allow_redirects : bool) (max_redirects : Z)
    (auth : option AuthBase) (w : World) :
  let w' := snd (request method url headers params data json timeout verify
                   allow_redirects max_redirects auth w) in
  (next_conn w <= next_conn w')%nat /\
  (forall x, is_closing x w = true -> is_closing x w' = true) /\
  (forall x, (next_conn w <= x < next_conn w')%nat -> is_closing x w' = true).
Proof.
  cbv zeta. unfold request, Session.request.
  destruct (request_hops_evolves (Z.to_nat max_redirects)
              (Session.init None None 100 30 None true) method url
              headers params data json timeout verify allow_redirects auth w)
    as (Hn & Hcl & _ & Hnew & Hopen).
  destruct (Session.request_hops (Z.to_nat max_redirects)
              (Session.init None None 100 30 None true) method url
              headers params data json timeout verify allow_redirects auth w)
    as [[r s1] w1].
  cbn [fst snd] in *.
  change (Session._closed (Session.init None None 100 30 None true))
    with false in Hopen.
  destruct (session_close_world s1 w1 Hopen) as (Hn' & Hcl').
  split; [lia|]. split.
  - intros x Hx. apply Hcl'. left. auto.
  - intros x Hx. apply Hcl'. apply Hnew. lia.
Qed.

(** ** The parser: connection reuse *)

Lemma header_line_keep_alive (line : bytes) (p p' : t) :
  header_line line p = Ok p' ->
  keep_alive p'
  = keep_alive p && negb (header_withb (B "connection") (B "close") line).
Proof.
  unfold header_line, header_withb.
  destruct (0 <? bytes_find (B ":") line); cbn [andb];
    [|intros [= <-]; now rewrite andb_true_r].
  destruct (bytes_eqb (bytes_lower (py_slice_to line (bytes_find (B ":") line)))
              (B "content-length")) eqn:Ecl.
  { apply bytes_eqb_eq in Ecl. rewrite Ecl.
    change (bytes_eqb (B "content-length") (B "connection")) with false.
    destruct (py_int is_uspace 10 _); intros [= <-]; cbn;
      now rewrite andb_true_r. }
  destruct (bytes_eqb (bytes_lower (py_slice_to line (bytes_find (B ":") line)))
              (B "transfer-encoding")) eqn:Ete.
  { apply bytes_eqb_eq in Ete. rewrite Ete.
    change (bytes_eqb (B "transfer-encoding") (B "connection")) with false.
    destruct (bytes_in (B "chunked") _); intros [= <-]; cbn;
      now rewrite andb_true_r. }
  destruct (bytes_eqb (bytes_lower (py_slice_to line (bytes_find (B ":") line)))
              (B "connection")); cbn [andb negb].
  - destruct (bytes_in (B "close") _); intros [= <-]; cbn;
      [now rewrite andb_false_r|now rewrite andb_true_r].
  - intros [= <-]; cbn. now rewrite andb_true_r.
Qed.

Lemma header_lines_keep_alive (lines : list bytes) (p p' : t) :
  header_lines lines p = Ok p' ->
  keep_alive p'
  = keep_alive p
    && negb (existsb (header_withb (B "connection") (B "close"))
               (lines_read lines)).
Proof.
  revert p. induction lines as [|line lines IH]; intros p.
  - intros [= <-]. cbn. now rewrite andb_true_r.
  - destruct line as [|c line]; [intros [= <-]; cbn; now rewrite andb_true_r|].
    cbn [header_lines lines_read existsb].
    destruct (header_line (c :: line) p) as [e|p1] eqn:E; [discriminate|].
    cbn. intros Hrest. rewrite (IH _ Hrest).
    rewrite (header_line_keep_alive _ _ _ E).
    rewrite negb_orb. now rewrite andb_assoc.
Qed.

(** [X16] After a successful [parse], [keep_alive] is false exactly when one
    of the header lines read has the name [connection], in any case, and a
    value that contains [close], in any case. Nothing else plays a part:
    not the version in the status line, and not a later [Connection] header
    that says otherwise. *)
Theorem keep_alive_unless_close (buf hb rest rest' : bytes) (p : t) :
  readuntil CRLFCRLF buf = (Ok hb, rest) ->
  parse buf = (Ok p, rest') ->
  keep_alive p
  = negb (existsb (header_withb (B "connection") (B "close"))
            (lines_read (header_block_lines hb))).
Proof.
  intros Eru Ep. unfold parse in Ep.
  destruct (parse_head buf) as [[e|p1] rest1] eqn:Eh; [discriminate|].
  assert (Hk1 : keep_alive p1
                = negb (existsb (header_withb (B "connection") (B "close"))
                          (lines_read (header_block_lines hb)))).
  { unfold parse_head in Eh. rewrite Eru in Eh.
    destruct (status_parts hb !! 1%nat) as [code|]; [|discriminate].
    destruct (py_int is_space 10 code) as [status|]; [|discriminate].
    injection Eh as Eh _.
    now rewrite (header_lines_keep_alive _ _ _ Eh). }
  rewrite <- Hk1. unfold parse_body in Ep.
  destruct (_chunked p1).
  - destruct (_read_chunked rest1) as [[e|b] r]; [discriminate|].
    now injection Ep as <- _.
  - destruct (truthy (_content_length p1)).
    + destruct (readexactly _ rest1) as [[e|b] r]; [discriminate|].
      now injection Ep as <- _.
    + now injection Ep as <- _.
Qed.

Lemma keep_alive_unless_close_witness :
  exists p,
    parse close_response = (Ok p, []) /\ body p = B "hi" /\
    keep_alive p = false.
Proof.
  destruct (parse close_response) as [[e|p] rest'] eqn:Ep;
    [vm_compute in Ep; discriminate Ep|].
  exists p.
  assert (Hb : rest' = [] /\ body p = B "hi").
  { vm_compute in Ep. injection Ep as <- <-. split; reflexivity. }
  destruct Hb as (-> & Hb). split; [reflexivity|]. split; [exact Hb|].
  rewrite (keep_alive_unless_close close_response
             (take 81 close_response) (drop 81 close_response) [] p
             ltac:(vm_compute; reflexivity) Ep).
  vm_compute. reflexivity.
Defined.

(** ** The headers of a request *)

Lemma dict_get_absent {V} (d : pydict V) (k : string) :
  ~ In k (map fst d) -> dict_get d k = None.
Proof.
  induction d as [|[k' v'] d IH]; simpl; [reflexivity|].
  intros Hnot. destruct (String.eqb_spec k' k) as [->|Hk]; [tauto|].
  apply IH. tauto.
Qed.

Lemma dict_get_merge {V} (a b : pydict V) (k : string) :
  dict_wf b ->
  dict_get (dict_merge a b) k
  = match dict_get b k with Some v => Some v | None => dict_get a k end.
Proof.
  unfold dict_merge, dict_wf. revert a.
  induction b as [|[k' v'] b IH]; simpl; intros a Hwf; [reflexivity|].
  apply NoDup_cons in Hwf as (Hnin & Hwf).
  rewrite (IH _ Hwf).
  destruct (String.eqb_spec k' k) as [->|Hk].
  - rewrite dict_get_absent.
    + apply dict_get_set_same.
    + intros Hin. apply Hnin. now apply list_elem_of_In.
  - now rewrite dict_get_set_other.
Qed.

Lemma dict_get_setdefault (k0 v0 : string) (d : pydict string) (k : string) :
  dict_get (Session.setdefault k0 v0 d) k
  = match dict_get d k with
    | Some v => Some v
    | None => if String.eqb k k0 then Some v0 else None
    end.
Proof.
  unfold Session.setdefault, dict_mem.
  destruct (String.eqb_spec k k0) as [->|Hk].
  - destruct (dict_get d k0) as [v|] eqn:E; [now rewrite E|].
    apply dict_get_set_same.
  - destruct (dict_get d k0) as [v|] eqn:E; [now destruct (dict_get d k)|].
    rewrite dict_get_set_other by congruence. now destruct (dict_get d k).
Qed.

Lemma dict_get_required (host : string) (port : Z) (d : pydict string)
    (k : string) :
  dict_get (Session.required_headers host port d) k
  = match dict_get d k with
    | Some v => Some v
    | None => builtin_header host port k
    end.
Proof.
  unfold Session.required_headers, builtin_header.
  rewrite !dict_get_setdefault.
  destruct (dict_get d k); [reflexivity|].
  destruct (String.eqb k "Host"); [reflexivity|].
  destruct (String.eqb k "Connection"); [reflexivity|].
  destruct (String.eqb k "Accept"); [reflexivity|].
  destruct (String.eqb k "Accept-Encoding"); reflexivity.
Qed.

(** [X17] The headers [request] hands to the builder, for a call without
    authentication and a name other than [Content-Type] and
    [Content-Length]: the value of the call's [headers] if it has the name,
    else the value of the session's default headers, else the built-in
    value for [Host], [Connection], [Accept], [Accept-Encoding] and
    [User-Agent], else nothing. Names are compared as they are written. *)
Theorem header_precedence {Json} `{Platform Json} (self : Session.t)
    (url : string) (headers : option (pydict string)) (data : option Data)
    (json : option Json) (k : string) :
  dict_wf (default [] headers) ->
  Session.auth self = None ->
  k <> "Content-Type" -> k <> "Content-Length" ->
  dict_get (fst (Session.prepare self url headers data json None)) k
  = match dict_get (default [] headers) k with
    | Some v => Some v
    | None =>
        match dict_get (Session._default_headers self) k with
        | Some v => Some v
        | None => builtin_header (default "" (hostname (urlparse url)))
                    (Session.target_port (urlparse url)) k
        end
    end.
Proof.
  intros Hwf Hauth Hct Hcl.
  assert (Hbase : dict_get (Session.base_headers self url headers None) k
                  = match dict_get (default [] headers) k with
                    | Some v => Some v
                    | None =>
                        match dict_get (Session._default_headers self) k with
                        | Some v => Some v
                        | None =>
                            builtin_header (default "" (hostname (urlparse url)))
                              (Session.target_port (urlparse url)) k
                        end
                    end).
  { unfold Session.base_headers, Session.apply_auth. rewrite Hauth.
    rewrite dict_get_required. unfold Session.merged_headers.
    destruct headers as [[|kv hs]|]; cbn [nonempty_dict];
      [reflexivity| |reflexivity].
    change (default [] (Some (kv :: hs))) with (kv :: hs) in *.
    rewrite dict_get_merge by exact Hwf.
    now destruct (dict_get (kv :: hs) k). }
  rewrite <- Hbase. unfold Session.prepare, Session.encode_body.
  assert (Hlen : forall body d,
            dict_get (Session.with_content_length body d) k = dict_get d k).
  { intros [[|c b]|] d; cbn [Session.with_content_length]; try reflexivity.
    now rewrite dict_get_set_other by congruence. }
  destruct json as [j|]; [|destruct data as [[b|s|m]|]]; cbn [fst];
    rewrite Hlen; try reflexivity;
    now rewrite dict_get_set_other by congruence.
Qed.

Lemma header_precedence_witness :
  dict_get (fst (Session.prepare session_with_headers "http://example.com/a"
                   (Some [("Accept", "text/html"); ("host", "other")])
                   None None None)) "Accept" = Some "text/html" /\
  dict_get (fst (Session.prepare session_with_headers "http://example.com/a"
                   (Some [("Accept", "text/html"); ("host", "other")])
                   None None None)) "X-Token" = Some "abc" /\
  dict_get (fst (Session.prepare session_with_headers "http://example.com/a"
                   (Some [("Accept", "text/html"); ("host", "other")])
                   None None None)) "Host" = Some "example.com".
Proof.
  assert (Hwf : dict_wf (default [] (Some [("Accept", "text/html");
                                           ("host", "other")]))).
  { unfold dict_wf. cbn. apply NoDup_cons. split.
    - intros Hin. apply list_elem_of_singleton in Hin. discriminate Hin.
    - apply NoDup_singleton. }
  split; [|split].
  - rewrite (header_precedence session_with_headers "http://example.com/a"
               _ None None "Accept" Hwf eq_refl);
      [reflexivity|discriminate|discriminate].
  - rewrite (header_precedence session_with_headers "http://example.com/a"
               _ None None "X-Token" Hwf eq_refl);
      [reflexivity|discriminate|discriminate].
  - rewrite (header_precedence session_with_headers "http://example.com/a"
               _ None None "Host" Hwf eq_refl);
      [vm_compute; reflexivity|discriminate|discriminate].
Defined.

(** ** The pool: time limit and size limit of [acquire] *)

Lemma resolve_dns_set {Json} `{Platform Json} (p : _ConnectionPool.t)
    (c : Z) (a : list (reader * writer * time)) (w : World) :
  _ConnectionPool._resolve_dns
    (_ConnectionPool.set_creating c (_ConnectionPool.set_available a p)) w
  = (fst (_ConnectionPool._resolve_dns p w),
     _ConnectionPool.set_creating c
       (_ConnectionPool.set_available a (snd (_ConnectionPool._resolve_dns p w)))).
Proof.
  unfold _ConnectionPool._resolve_dns.
  cbn [_ConnectionPool._dns_cache _ConnectionPool._dns_expire
       _ConnectionPool.host _ConnectionPool.port
       _ConnectionPool.set_creating _ConnectionPool.set_available].
  destruct (_ConnectionPool._dns_cache p) as [[|a0 infos]|];
    try destruct (monotonic w <? _ConnectionPool._dns_expire p);
    try destruct (getaddrinfo (_ConnectionPool.host p) (_ConnectionPool.port p));
    reflexivity.
Qed.

Lemma connects_same {Json} `{Platform Json} (p q : _ConnectionPool.t)
    (addr : string) :
  _ConnectionPool.host q = _ConnectionPool.host p ->
  _ConnectionPool.port q = _ConnectionPool.port p ->
  _ConnectionPool.ssl_context q = _ConnectionPool.ssl_context p ->
  connects q addr = connects p addr.
Proof. intros Hh Hp Hs. unfold connects. now rewrite Hh, Hp, Hs. Qed.

(** The pool after the [finally] clause of [acquire], when nothing was
    lent and the idle list was empty: the pool the creation step left. *)
Lemma creating_restored (q : _ConnectionPool.t) (c : Z) :
  _ConnectionPool._available q = [] ->
  _ConnectionPool._creating q = c ->
  _ConnectionPool.set_creating (c + 1 - 1)
    (_ConnectionPool.set_creating (c + 1) (_ConnectionPool.set_available [] q))
  = q.
Proof.
  destruct q as [h po sc ms mi av iu cl dc de cr]. cbn. intros -> ->.
  now replace (c + 1 - 1) with c by lia.
Qed.

(** [X18] [acquire] on an open pool with no idle connection, by the time
    limit it is given. When the time is up while the name is being
    resolved (or the limit is negative), it raises the module's
    [TimeoutError] with host and port in the message, and pool and world
    are as before. When the time is up while it connects, it raises the
    same error, the world is as before, and the pool is as the name
    resolution has left it, with the addresses in its cache. Otherwise (no
    limit, a limit of 0, which counts as none, or a limit that is long
    enough) it makes a new connection and lends it whenever the name
    resolves and one of the addresses connects: neither [max_size] nor the
    number of connections on loan is looked at. *)
Theorem acquire_on_empty_pool {Json} `{Platform Json}
    (p : _ConnectionPool.t) (timeout : option Z) (w : World) :
  _ConnectionPool._closed p = false ->
  _ConnectionPool._available p = [] ->
  let limit := default 0 timeout in
  let resolve_time :=
    if _ConnectionPool.dns_fresh p w then 0
    else resolve_latency (_ConnectionPool.host p) (_ConnectionPool.port p) in
  let connect_time :=
    connect_latency (_ConnectionPool.host p) (_ConnectionPool.port p) in
  let timed_out :=
    Raise (TimeoutError ("Connection timeout to " ++ _ConnectionPool.host p
                           ++ ":" ++ Z_to_str (_ConnectionPool.port p))) in
  (truthy timeout = true -> limit < 0 \/ limit < resolve_time ->
   _ConnectionPool.acquire p timeout w = (timed_out, p, w)) /\
  (truthy timeout = true -> 0 < limit -> resolve_time <= limit ->
   limit < resolve_time + connect_time ->
   forall infos,
     fst (_ConnectionPool._resolve_dns p w) = Ok infos -> infos <> [] ->
     _ConnectionPool.acquire p timeout w
     = (timed_out, snd (_ConnectionPool._resolve_dns p w), w)) /\
  (truthy timeout = false \/
   (0 < limit /\ resolve_time <= limit /\
    resolve_time + connect_time <= limit) ->
   forall infos addr,
     fst (_ConnectionPool._resolve_dns p w) = Ok infos ->
     addr ∈ infos -> connects p addr = Ok tt ->
     fst (fst (_ConnectionPool.acquire p timeout w))
     = Ok (next_conn w, next_conn w) /\
     _ConnectionPool._in_use (snd (fst (_ConnectionPool.acquire p timeout w)))
     = {[next_conn w]} ∪ _ConnectionPool._in_use p /\
     next_conn (snd (_ConnectionPool.acquire p timeout w)) = S (next_conn w)).
Proof.
  intros Hopen Hav. cbv zeta. rewrite acquire_unfold, Hopen, Hav.
  cbn [_ConnectionPool.scan_available]. cbv zeta.
  set (p1 := _ConnectionPool.set_creating (_ConnectionPool._creating p + 1)
               (_ConnectionPool.set_available [] p)).
  assert (Hwait : _ConnectionPool.wait_for_create p1 (default 0 timeout) w
                  = (if (default 0 timeout <=? 0)
                        || (default 0 timeout
                            <? (if _ConnectionPool.dns_fresh p w then 0
                                else resolve_latency (_ConnectionPool.host p)
                                       (_ConnectionPool.port p)))
                     then (Raise AsyncioTimeoutError, p1, w)
                     else
                       match fst (_ConnectionPool._resolve_dns p w) with
                       | inl e =>
                           (Raise e,
                            _ConnectionPool.set_creating
                              (_ConnectionPool._creating p + 1)
                              (_ConnectionPool.set_available []
                                 (snd (_ConnectionPool._resolve_dns p w))), w)
                       | inr infos =>
                           if default 0 timeout
                              <? (if _ConnectionPool.dns_fresh p w then 0
                                  else resolve_latency (_ConnectionPool.host p)
                                         (_ConnectionPool.port p))
                                 + match infos with
                                   | [] => 0
                                   | _ :: _ =>
                                       connect_latency (_ConnectionPool.host p)
                                         (_ConnectionPool.port p)
                                   end
                           then (Raise AsyncioTimeoutError,
                                 _ConnectionPool.set_creating
                                   (_ConnectionPool._creating p + 1)
                                   (_ConnectionPool.set_available []
                                      (snd (_ConnectionPool._resolve_dns p w))),
                                 w)
                           else _ConnectionPool._create_connection p1 w
                       end)).
  { unfold _ConnectionPool.wait_for_create, p1.
    rewrite resolve_dns_set.
    unfold _ConnectionPool.dns_fresh.
    cbn [_ConnectionPool._dns_cache _ConnectionPool._dns_expire
         _ConnectionPool.host _ConnectionPool.port
         _ConnectionPool.set_creating _ConnectionPool.set_available].
    destruct (_ || _); [reflexivity|].
    now destruct (fst (_ConnectionPool._resolve_dns p w)). }
  destruct (resolve_dns_frame p w) as (Hqa & _ & Hqc & _). cbv zeta in Hqa, Hqc.
  split; [|split].
  - intros Ht Hlt. rewrite Ht, Hwait.
    assert (Hc : (default 0 timeout <=? 0)
                 || (default 0 timeout
                     <? (if _ConnectionPool.dns_fresh p w then 0
                         else resolve_latency (_ConnectionPool.host p)
                                (_ConnectionPool.port p))) = true).
    { apply orb_true_iff. destruct Hlt as [Hneg|Hlt]; [left|right].
      - apply Z.leb_le. lia.
      - now apply Z.ltb_lt. }
    rewrite Hc. unfold after_create, p1. f_equal. f_equal.
    apply creating_restored; [exact Hav|reflexivity].
  - intros Ht Hpos Hres Hlt infos Hdns Hne. rewrite Ht, Hwait, Hdns.
    destruct infos as [|a infos]; [congruence|].
    assert (Hc : (default 0 timeout <=? 0)
                 || (default 0 timeout
                     <? (if _ConnectionPool.dns_fresh p w then 0
                         else resolve_latency (_ConnectionPool.host p)
                                (_ConnectionPool.port p))) = false).
    { apply orb_false_iff. split; [apply Z.leb_gt; lia|apply Z.ltb_ge; lia]. }
    rewrite Hc.
    destruct (Z.ltb_spec (default 0 timeout)
                ((if _ConnectionPool.dns_fresh p w then 0
                  else resolve_latency (_ConnectionPool.host p)
                         (_ConnectionPool.port p))
                 + connect_latency (_ConnectionPool.host p)
                     (_ConnectionPool.port p))) as [_|?]; [|lia].
    unfold after_create. f_equal. f_equal.
    apply creating_restored; [congruence|congruence].
  - intros Hlim infos addr Hdns Hin Hconn.
    assert (Hstep : (if truthy timeout
                     then _ConnectionPool.wait_for_create p1 (default 0 timeout) w
                     else _ConnectionPool._create_connection p1 w)
                    = _ConnectionPool._create_connection p1 w).
    { destruct (truthy timeout); [|reflexivity].
      destruct Hlim as [?|(Hpos & Hres & Hle)]; [discriminate|].
      rewrite Hwait, Hdns.
      destruct infos as [|a infos']; [now apply elem_of_nil in Hin|].
      destruct (Z.leb_spec (default 0 timeout) 0) as [?|_]; [lia|].
      cbn [orb].
      destruct (Z.ltb_spec (default 0 timeout)
                  (if _ConnectionPool.dns_fresh p w then 0
                   else resolve_latency (_ConnectionPool.host p)
                          (_ConnectionPool.port p))) as [?|_]; [lia|].
      destruct (Z.ltb_spec (default 0 timeout)
                  ((if _ConnectionPool.dns_fresh p w then 0
                    else resolve_latency (_ConnectionPool.host p)
                           (_ConnectionPool.port p))
                   + connect_latency (_ConnectionPool.host p)
                       (_ConnectionPool.port p))) as [?|_];
        [lia|reflexivity]. }
    rewrite Hstep. unfold _ConnectionPool._create_connection, p1.
    rewrite resolve_dns_set, Hdns.
    destruct (resolve_dns_fields p w) as (Hh & Hp & Hs). cbv zeta in Hh, Hp, Hs.
    assert (Htry : _ConnectionPool.try_addresses
                     (_ConnectionPool.set_creating
                        (_ConnectionPool._creating p + 1)
                        (_ConnectionPool.set_available []
                           (snd (_ConnectionPool._resolve_dns p w))))
                     infos None = Ok tt).
    { apply try_addresses_ok_iff. exists addr. split; [exact Hin|].
      rewrite <- Hconn. apply connects_same; assumption. }
    rewrite Htry. cbn.
    destruct (resolve_dns_frame p w) as (_ & Hiu & _). cbv zeta in Hiu.
    rewrite Hiu. repeat split; reflexivity.
Qed.

Lemma acquire_on_empty_pool_witness :
  _ConnectionPool.acquire (_ConnectionPool.init "example.com" 80 None 0 30)
    (Some 1) world0
  = (Raise (TimeoutError "Connection timeout to example.com:80"),
     _ConnectionPool.init "example.com" 80 None 0 30, world0) /\
  (exists p',
     _ConnectionPool.acquire (_ConnectionPool.init "example.com" 80 None 0 30)
       (Some 4) world0
     = (Raise (TimeoutError "Connection timeout to example.com:80"), p', world0)
     /\ _ConnectionPool._dns_cache p' = Some ["10.0.0.1"]) /\
  fst (fst (_ConnectionPool.acquire
              (_ConnectionPool.init "example.com" 80 None 0 30) (Some 0) world0))
  = Ok (2%nat, 2%nat).
Proof.
  split; [|split].
  - destruct (acquire_on_empty_pool
                (_ConnectionPool.init "example.com" 80 None 0 30) (Some 1)
                world0 eq_refl eq_refl) as (Hup & _).
    apply Hup; [reflexivity|right; reflexivity].
  - destruct (acquire_on_empty_pool
                (_ConnectionPool.init "example.com" 80 None 0 30) (Some 4)
                world0 eq_refl eq_refl) as (_ & Hup & _).
    eexists. split.
    + apply (Hup eq_refl eq_refl ltac:(discriminate) eq_refl ["10.0.0.1"]
               eq_refl ltac:(discriminate)).
    + reflexivity.
  - destruct (acquire_on_empty_pool
                (_ConnectionPool.init "example.com" 80 None 0 30) (Some 0)
                world0 eq_refl eq_refl) as (_ & _ & Hmk).
    destruct (Hmk (or_introl eq_refl) ["10.0.0.1"] "10.0.0.1" eq_refl
                ltac:(apply list_elem_of_singleton; reflexivity) eq_refl)
      as (Hr & _ & _).
    exact Hr.
Defined.

(** ** A round of [request] that fails *)

Lemma acquire_idle_subset {Json} `{Platform Json} (p : _ConnectionPool.t)
    (timeout : option Z) (w : World) (x : writer) :
  x ∈ idle_writers (snd (fst (_ConnectionPool.acquire p timeout w))) ->
  x ∈ idle_writers p.
Proof.
  destruct (acquire_spec p timeout w)
    as (r & p' & w' & pre & E & _ & _ & Hcase).
  rewrite E. cbn [fst snd]. unfold idle_writers.
  destruct Hcase as [(_ & _ & -> & _)
                    |[(_ & rd & wr & created & _ & Hav & _)
                    |[(_ & _ & _ & Hav' & _)|(_ & _ & _ & Hav' & _)]]].
  - auto.
  - rewrite Hav, map_app, elem_of_app. cbn [map]. rewrite elem_of_cons. auto.
  - rewrite Hav'. cbn. intros Hx. apply elem_of_nil in Hx. contradiction.
  - rewrite Hav'. cbn. intros Hx. apply elem_of_nil in Hx. contradiction.
Qed.

Lemma acquire_new_is_lent {Json} `{Platform Json} (p : _ConnectionPool.t)
    (timeout : option Z) (w : World) (rd : reader) (wr : writer)
    (p' : _ConnectionPool.t) (w' : World) (x : writer) :
  _ConnectionPool.acquire p timeout w = (Ok (rd, wr), p', w') ->
  (next_conn w <= x < next_conn w')%nat -> x = wr.
Proof.
  intros E Hx.
  destruct (acquire_spec p timeout w)
    as (r & p2 & w2 & pre & E' & _ & _ & Hcase).
  rewrite E in E'. injection E' as <- <- <-.
  destruct Hcase as [(_ & Hr & _)
                    |[(_ & rd0 & wr0 & created & _ & _ & _ & Hn & _)
                    |[(_ & Hr & _ & _ & _ & Hn)|(_ & (e & Hr) & _)]]];
    try discriminate Hr; try lia.
  injection Hr as _ Hwr. lia.
Qed.

(** [X19] A round of [request] that raises an [Exception] retires the
    connection it used: no connection is idle in the session afterwards
    that was not idle before, and every connection made during the round
    is closing. (A round that is cancelled raises [CancelledError], which
    is no [Exception]; the [except] clauses do not catch it and its
    connection stays open and on loan.) *)
Theorem failed_exchange_retires_connection {Json} `{Platform Json}
    (self : Session.t) (method url : string)
    (headers params : option (pydict string)) (data : option Data)
    (json : option Json) (timeout : option Z) (verify : option bool)
    (auth : option AuthBase) (w : World) (e : exn) :
  fst (fst (Session.exchange self method url headers params data json
              timeout verify auth w)) = Raise e ->
  is_exception e = true ->
  (forall x,
     idles (snd (fst (Session.exchange self method url headers params data
                        json timeout verify auth w))) x ->
     idles self x) /\
  (forall x,
     (next_conn w
      <= x < next_conn (snd (Session.exchange self method url headers params
                               data json timeout verify auth w)))%nat ->
     is_closing x (snd (Session.exchange self method url headers params data
                          json timeout verify auth w)) = true).
Proof.
  intros Hfail Hexc.
  destruct (exchange_cases self method url headers params data json timeout
              verify auth w)
    as [(_ & _ & Es & Ew)|(_ & _ & tv & r1 & pool1 & w1 & Ea & Hr)].
  { rewrite Es, Ew. split; [auto|]. intros x Hx. lia. }
  match type of Ea with
  | _ConnectionPool.acquire (fst (Session._get_pool ?s ?h ?p ?i ?v)) _ _ = _ =>
      pose proof (fun pool' => put_after_get_pool s h p i v pool') as Hput;
      set (g := Session._get_pool s h p i v) in *
  end.
  cbv zeta in Hput.
  assert (Hidle : forall pool' s',
            Session._pools s'
            = <[(default "" (hostname (urlparse url)),
                 Session.target_port (urlparse url),
                 String.eqb (scheme (urlparse url)) "https") := pool']>
                (Session._pools self) ->
            (forall x, x ∈ idle_writers pool' -> x ∈ idle_writers (fst g)) ->
            forall x, idles s' x -> idles self x).
  { intros pool' s' Hp Hsub x (key0 & pool0 & Hl & Hx).
    rewrite Hp in Hl.
    destruct (decide (key0 = (default "" (hostname (urlparse url)),
                              Session.target_port (urlparse url),
                              String.eqb (scheme (urlparse url)) "https")))
      as [->|Hne].
    - rewrite lookup_insert_eq in Hl. injection Hl as <-.
      apply Hsub in Hx.
      destruct (Hput pool') as (_ & _ & [Hk|(_ & Hav & _)]).
      + now exists (default "" (hostname (urlparse url)),
                    Session.target_port (urlparse url),
                    String.eqb (scheme (urlparse url)) "https"), (fst g).
      + unfold idle_writers in Hx. rewrite Hav in Hx.
        apply elem_of_nil in Hx. contradiction.
    - rewrite lookup_insert_ne in Hl by congruence. now exists key0, pool0. }
  pose proof (acquire_idle_subset (fst g) tv w) as Hsub. rewrite Ea in Hsub.
  cbn [fst snd] in Hsub.
  destruct r1 as [e1|[rd wr]].
  - destruct Hr as (_ & Hs & Hw). rewrite Hs, Hw.
    destruct (Hput pool1) as (Hp & _). split.
    + exact (Hidle pool1 _ Hp Hsub).
    + intros x Hx.
      destruct (acquire_spec (fst g) tv w)
        as (r & p2 & w2 & pre & E' & _ & _ & Hcs).
      rewrite Ea in E'. injection E' as <- <- <-.
      destruct Hcs as [(_ & _ & _ & Hw1 & _)
                      |[(_ & rd0 & wr0 & created & Hr & _)
                      |[(_ & Hr & _)|(_ & _ & _ & _ & _ & Hn)]]];
        try discriminate Hr; [rewrite Hw1 in Hx|]; lia.
  - destruct Hr as (w3 & Hc3 & Hn3
                    & [((e' & He' & Hne) & _)|(ka & Hka & Hs & Hw)]).
    { rewrite Hfail in He'. injection He' as <-.
      rewrite Hexc in Hne. discriminate Hne. }
    destruct (Hka e Hfail) as (-> & _).
    assert (NR : ~ retained pool1 wr false w3) by (intros (? & _); discriminate).
    rewrite (release_dropped _ rd _ _ _ NR) in Hs, Hw. cbn [fst snd] in Hs, Hw.
    rewrite Hs, Hw.
    destruct (unloaned_fields pool1 wr) as (Hav & _).
    destruct (Hput (unloaned pool1 wr)) as (Hp & _).
    split.
    + apply (Hidle (unloaned pool1 wr) _ Hp).
      intros x Hx. apply Hsub. unfold idle_writers in *. now rewrite Hav in Hx.
    + intros x Hx.
      destruct (close_if_open_fields wr w3) as (Hn4 & _).
      apply close_if_open_closing. left.
      apply (acquire_new_is_lent (fst g) tv w rd wr pool1 w1 x Ea). lia.
Qed.

Lemma failed_exchange_retires_connection_witness :
  exists e,
    fst (fst (@Session.exchange string broken_platform session0 "GET"
                "http://example.com/" None None None None None None None
                world0)) = Raise e /\
    next_conn (snd (@Session.exchange string broken_platform session0 "GET"
                      "http://example.com/" None None None None None None None
                      world0)) = 3%nat /\
    is_closing 2%nat
      (snd (@Session.exchange string broken_platform session0 "GET"
              "http://example.com/" None None None None None None None
              world0)) = true.
Proof.
  destruct (fst (fst (@Session.exchange string broken_platform session0 "GET"
                        "http://example.com/" None None None None None None
                        None world0)))
    as [e|r] eqn:Ef; [|vm_compute in Ef; discriminate Ef].
  exists e. split; [reflexivity|].
  assert (Hn : next_conn (snd (@Session.exchange string broken_platform
                                 session0 "GET" "http://example.com/" None
                                 None None None None None None world0))
               = 3%nat) by (vm_compute; reflexivity).
  split; [exact Hn|].
  assert (Hexc : is_exception e = true).
  { vm_compute in Ef. injection Ef as <-. reflexivity. }
  apply (@failed_exchange_retires_connection string broken_platform session0
           "GET" "http://example.com/" None None None None None None None
           world0 e Ef Hexc).
  rewrite Hn. cbn. lia.
Defined.

(** ** The builder *)

Lemma encode_ascii_is_ascii (s : string) :
  encode_ascii s = if is_ascii s then Some (list_byte_of_string s) else None.
Proof. reflexivity. Qed.

Lemma header_parts_cases (headers : pydict string) :
  match _SimpleHTTPBuilder.header_parts headers with
  | inl e =>
      e = UnicodeEncodeError /\
      forallb (fun kv : string * string => is_ascii (fst kv)) headers = false
  | inr hs =>
      forallb (fun kv : string * string => is_ascii (fst kv)) headers = true /\
      hs = concat (map (fun kv : string * string =>
                          list_byte_of_string (fst kv)
                          ++ _SimpleHTTPBuilder._COLON_SPACE
                          ++ encode_latin1 (snd kv) ++ CRLF) headers)
  end.
Proof.
  induction headers as [|[k v] headers IH]; cbn [_SimpleHTTPBuilder.header_parts].
  - split; reflexivity.
  - rewrite encode_ascii_is_ascii. cbn [forallb map concat fst snd].
    destruct (is_ascii k); cbn [andb]; [|split; reflexivity].
    destruct (_SimpleHTTPBuilder.header_parts headers) as [e|tl]; cbn.
    + exact IH.
    + destruct IH as (Hall & ->). split; [exact Hall|].
      rewrite <- app_assoc. f_equal. cbn. f_equal. f_equal.
      now rewrite <- app_assoc.
Qed.

(** [X20] [build] raises nothing but [UnicodeEncodeError], and it returns the
    request exactly when the method, the path and every header name are
    ASCII; header values are not restricted. The request it returns is the
    request line, one line per header in the order of the dictionary, an
    empty line, and the body if there is one and it is not empty. *)
Theorem build_ascii_only (method path : string) (headers : pydict string)
    (body : option bytes) :
  (forall e, _SimpleHTTPBuilder.build method path headers body = Raise e ->
             e = UnicodeEncodeError) /\
  ((exists request, _SimpleHTTPBuilder.build method path headers body = Ok request)
   <-> is_ascii method = true /\ is_ascii path = true /\
       forallb (fun kv : string * string => is_ascii (fst kv)) headers = true) /\
  (forall request,
     _SimpleHTTPBuilder.build method path headers body = Ok request ->
     request
     = list_byte_of_string method ++ B " " ++ list_byte_of_string path
       ++ B " HTTP/1.1" ++ CRLF
       ++ concat (map (fun kv : string * string =>
                         list_byte_of_string (fst kv) ++ B ": "
                         ++ list_byte_of_string (snd kv) ++ CRLF) headers)
       ++ CRLF ++ default [] body).
Proof.
  unfold _SimpleHTTPBuilder.build. rewrite !encode_ascii_is_ascii.
  pose proof (header_parts_cases headers) as Hh.
  destruct (is_ascii method), (is_ascii path);
    try (split; [now intros e [= <-]|];
         split; [split; [intros (r & Hr); discriminate Hr
                        |intros (Hm & Hp & _); discriminate]
                |intros r Hr; discriminate Hr]).
  destruct (_SimpleHTTPBuilder.header_parts headers) as [e|hs]; cbn.
  - destruct Hh as (-> & Hall). rewrite Hall.
    split; [now intros e [= <-]|].
    split; [split; [intros (r & Hr); discriminate Hr
                   |intros (_ & _ & Hf); discriminate Hf]
           |intros r Hr; discriminate Hr].
  - destruct Hh as (Hall & ->). rewrite Hall.
    split; [intros e He; discriminate He|].
    split; [split; [auto|eauto]|].
    intros r [= <-]. unfold _SimpleHTTPBuilder._HTTP11.
    destruct body as [[|c b]|]; reflexivity.
Qed.

(** ** The parser: the head of a response *)

Lemma byte_eqb_neq (a b : byte) : a <> b -> byte_eqb a b = false.
Proof.
  intros Hne. destruct (byte_eqb a b) eqn:E; [|reflexivity].
  exfalso. apply Hne. now apply Byte.byte_dec_bl.
Qed.

Lemma find_skip (pat pre rest : bytes) (i : Z) :
  ~ In CR pre ->
  find_from (CR :: pat) (pre ++ rest) i
  = find_from (CR :: pat) rest (i + py_len pre).
Proof.
  revert i. induction pre as [|c pre IH]; intros i Hnot.
  - unfold py_len. cbn. now rewrite Z.add_0_r.
  - cbn [app find_from starts_with].
    rewrite byte_eqb_neq by (intros E; apply Hnot; left; now symmetry).
    cbn [andb]. rewrite IH by (intros Hin; apply Hnot; now right).
    f_equal. unfold py_len. cbn [length]. lia.
Qed.

Lemma find_head_end (lines : list bytes) (payload : bytes) (i : Z) :
  Forall (fun l : bytes => l <> [] /\ ~ In CR l) lines ->
  find_from CRLFCRLF
    (CRLF ++ concat (map (fun l : bytes => l ++ CRLF) lines) ++ CRLF ++ payload) i
  = i + py_len (concat (map (fun l : bytes => l ++ CRLF) lines)).
Proof.
  intros Hl. revert i. induction Hl as [|l lines (Hne & Hcr) Hl IH]; intros i.
  - unfold py_len. cbn. lia.
  - destruct l as [|c l]; [congruence|].
    assert (Hc : byte_eqb CR c = false)
      by (apply byte_eqb_neq; intros E; apply Hcr; left; now symmetry).
    cbn [map concat]. rewrite <- !app_assoc.
    change (CRLF ++ (c :: l) ++ ?x) with (CR :: LF :: c :: (l ++ x)).
    unfold CRLFCRLF.
    cbn [find_from starts_with]. rewrite Hc.
    change (byte_eqb CR CR) with true. change (byte_eqb LF LF) with true.
    change (byte_eqb CR LF) with false. cbn [andb].
    rewrite find_skip by (intros Hin; apply Hcr; now right).
    fold CRLFCRLF. rewrite IH. unfold py_len.
    rewrite !length_app. cbn [length]. rewrite ?length_app. cbn [length].
    change (length CRLF) with 2%nat. lia.
Qed.

Lemma split_crlf_line (l tail cur : bytes) :
  ~ In CR l ->
  split_aux CRLF None (l ++ tail) O cur
  = split_aux CRLF None tail O (rev l ++ cur).
Proof.
  revert cur. induction l as [|c l IH]; intros cur Hcr; [reflexivity|].
  cbn [app split_aux]. unfold CRLF at 1. cbn [starts_with].
  rewrite byte_eqb_neq by (intros E; apply Hcr; left; now symmetry).
  cbn [andb]. fold CRLF. rewrite IH by (intros Hin; apply Hcr; now right).
  cbn [rev]. now rewrite <- app_assoc.
Qed.

Lemma split_at_crlf (tail cur : bytes) :
  split_aux CRLF None (CR :: LF :: tail) O cur
  = rev cur :: split_aux CRLF None tail O [].
Proof. reflexivity. Qed.

Lemma split_join_crlf (l : bytes) (lines : list bytes) :
  Forall (fun l : bytes => ~ In CR l) (l :: lines) ->
  bytes_split CRLF (join_crlf (l :: lines)) = l :: lines.
Proof.
  unfold bytes_split. revert l.
  induction lines as [|l' lines IH]; intros l Hl;
    apply Forall_cons_1 in Hl as (Hcr & Hl).
  - cbn [join_crlf]. rewrite <- (app_nil_r l) at 1.
    rewrite split_crlf_line by exact Hcr.
    cbn. now rewrite app_nil_r, rev_involutive.
  - change (join_crlf (l :: l' :: lines))
      with (l ++ CR :: LF :: join_crlf (l' :: lines)).
    rewrite split_crlf_line by exact Hcr.
    rewrite split_at_crlf, app_nil_r, rev_involutive. f_equal.
    apply IH. exact Hl.
Qed.

Lemma concat_join_crlf (l : bytes) (lines : list bytes) :
  concat (map (fun l : bytes => l ++ CRLF) (l :: lines))
  = join_crlf (l :: lines) ++ CRLF.
Proof.
  revert l. induction lines as [|l' lines IH]; intros l.
  - cbn. now rewrite app_nil_r.
  - change (join_crlf (l :: l' :: lines))
      with (l ++ CRLF ++ join_crlf (l' :: lines)).
    cbn [map concat]. cbn [map concat] in IH. rewrite IH.
    now rewrite <- !app_assoc.
Qed.

Lemma find_crlf_status_line (status_line rest : bytes) :
  ~ In CR status_line ->
  bytes_find CRLF (status_line ++ CRLF ++ rest) = py_len status_line.
Proof.
  intros Hcr. unfold bytes_find, CRLF at 1. now rewrite find_skip.
Qed.

Lemma head_wire_end (status_line : bytes) (lines : list bytes)
    (payload : bytes) :
  ~ In CR status_line ->
  Forall (fun l : bytes => l <> [] /\ ~ In CR l) lines ->
  py_len (head_wire status_line lines) <= _DEFAULT_LIMIT + py_len CRLFCRLF ->
  readuntil CRLFCRLF (head_wire status_line lines ++ payload)
  = (Ok (head_wire status_line lines), payload).
Proof.
  intros Hcr Hl Hlim.
  assert (Hhw : py_len (head_wire status_line lines)
                = py_len status_line
                  + py_len (concat (map (fun l : bytes => l ++ CRLF) lines))
                  + py_len CRLFCRLF).
  { unfold head_wire, py_len. rewrite !length_app.
    change (length CRLFCRLF) with 4%nat. change (length CRLF) with 2%nat.
    lia. }
  assert (Hf : bytes_find CRLFCRLF (head_wire status_line lines ++ payload)
               = py_len status_line
                 + py_len (concat (map (fun l : bytes => l ++ CRLF) lines))).
  { unfold bytes_find, head_wire. rewrite <- !app_assoc.
    unfold CRLFCRLF at 1. rewrite find_skip by exact Hcr. fold CRLFCRLF.
    rewrite find_head_end by exact Hl. lia. }
  rewrite readuntil_found by (rewrite Hf; unfold py_len in *; lia).
  rewrite Hf.
  assert (Hlen : Z.to_nat (py_len status_line
                           + py_len (concat (map (fun l : bytes => l ++ CRLF) lines))
                           + py_len CRLFCRLF)
                 = length (head_wire status_line lines)).
  { unfold head_wire, py_len. rewrite !length_app.
    change (length CRLFCRLF) with 4%nat. change (length CRLF) with 2%nat.
    lia. }
  rewrite Hlen. now rewrite take_app_length, drop_app_length.
Qed.

Lemma head_wire_lines (status_line : bytes) (lines : list bytes) (p : t) :
  ~ In CR status_line ->
  Forall (fun l : bytes => l <> [] /\ ~ In CR l) lines ->
  header_lines (header_block_lines (head_wire status_line lines)) p
  = header_lines lines p.
Proof.
  intros Hcr Hl. unfold header_block_lines.
  assert (Hs : bytes_find CRLF (head_wire status_line lines)
               = py_len status_line)
    by (unfold head_wire; now apply find_crlf_status_line).
  rewrite Hs.
  assert (Hslice : py_slice (head_wire status_line lines)
                     (py_len status_line + 2) (-4)
                   = join_crlf lines).
  { unfold py_slice, norm_index.
    destruct (Z.ltb_spec (py_len status_line + 2) 0) as [Hneg|_];
      [unfold py_len in Hneg; lia|].
    change (-4 <? 0) with true. cbv iota.
    destruct lines as [|l lines].
    - unfold head_wire, py_len. cbn [map concat app join_crlf].
      rewrite !length_app. cbn [length CRLF].
      replace (Z.to_nat _) with 0%nat by lia. apply take_0.
    - unfold head_wire. rewrite concat_join_crlf. unfold py_len.
      rewrite !length_app. cbn [length CRLF].
      rewrite Z.min_l by lia.
      replace (Z.to_nat (Z.of_nat (length status_line) + 2))
        with (length status_line + 2)%nat by lia.
      rewrite <- drop_drop, drop_app_length. cbn [drop CRLF app].
      replace (Z.to_nat _) with (length (join_crlf (l :: lines))) by lia.
      rewrite <- app_assoc. apply take_app_length. }
  rewrite Hslice. destruct lines as [|l lines]; [reflexivity|].
  rewrite split_join_crlf; [reflexivity|].
  eapply List.Forall_impl; [|exact Hl]. intros a (_ & Ha). exact Ha.
Qed.

(** [X21] [parse] frames a well-formed head: for a status line and header
    lines without carriage return, the header lines not empty, followed by
    the empty line, the whole within the limit of the reader (64 KiB up to
    the empty line), [parse] runs the header loop over exactly these lines,
    in order, and reads the body from exactly the bytes after the empty
    line; a status line whose second field is not a number makes it raise
    [ValueError], and one without a second field [IndexError], with the
    bytes after the head left in the reader. *)
Theorem parse_frames_head (status_line : bytes) (lines : list bytes)
    (payload : bytes) :
  ~ In CR status_line ->
  Forall (fun l : bytes => l <> [] /\ ~ In CR l) lines ->
  py_len (head_wire status_line lines) <= _DEFAULT_LIMIT + py_len CRLFCRLF ->
  parse (head_wire status_line lines ++ payload)
  = match bytes_splitn (B " ") 2 status_line !! 1%nat with
    | None => (Raise (IndexError "list index out of range"), payload)
    | Some code =>
        match py_int is_space 10 code with
        | None => (Raise invalid_literal, payload)
        | Some status =>
            match header_lines lines (after_status_line status_line status) with
            | inl e => (Raise e, payload)
            | inr p1 => parse_body p1 payload
            end
        end
    end.
Proof.
  intros Hcr Hl Hlim. unfold parse, parse_head.
  rewrite head_wire_end by assumption.
  assert (Hparts : status_parts (head_wire status_line lines)
                   = bytes_splitn (B " ") 2 status_line).
  { unfold status_parts, head_wire.
    rewrite find_crlf_status_line by exact Hcr.
    rewrite py_slice_to_take by (unfold py_len; lia).
    unfold py_len. rewrite Nat2Z.id. now rewrite take_app_length. }
  rewrite Hparts.
  destruct (bytes_splitn (B " ") 2 status_line !! 1%nat) as [code|];
    [|reflexivity].
  destruct (py_int is_space 10 code) as [status|]; [|reflexivity].
  rewrite head_wire_lines by assumption.
  fold (after_status_line status_line status).
  now destruct (header_lines lines (after_status_line status_line status)).
Qed.

Lemma parse_frames_head_witness :
  parse (head_wire (B "HTTP/1.1 200 OK")
           [B "Content-Type: text/plain"; B "Content-Length: 5"]
         ++ B "helloHTTP/1.1 404 Not Found")
  = (Ok {| status_code := 200; reason := "OK";
           headers := [("Content-Type", "text/plain"); ("Content-Length", "5")];
           body := B "hello"; keep_alive := true;
           _content_length := Some 5; _chunked := false |},
     B "HTTP/1.1 404 Not Found").
Proof.
  rewrite (parse_frames_head (B "HTTP/1.1 200 OK")
             [B "Content-Type: text/plain"; B "Content-Length: 5"]
             (B "helloHTTP/1.1 404 Not Found")).
  - vm_compute. reflexivity.
  - cbn. intuition discriminate.
  - repeat constructor; try discriminate; cbn; intuition discriminate.
  - vm_compute. discriminate.
Defined.
